(** * goyeelight: the Yeelight request/response client, embedded in Rocq

    The repository holds two revisions of the one Go package:
    - [src/unnamed/part_000]: commands return [(string, error)], [GetProp]
      is variadic and returns a [map[string]string];
    - [src/goyeelight.go]: commands return a JSON text built by [result].

    Go strings are byte sequences; they are modelled as [string], whose
    characters are the bytes.  Runes and byte values are in [N]. *)

From Stdlib Require Import NArith ZArith Ascii String List Bool Lia.
From stdpp Require Import base option list gmap strings.

Set Warnings "-register-all,-clear-no-such-hyp".



(** ** Bytes and literals *)

Definition dquote : ascii := "034"%char.
Definition CR : ascii := "013"%char.
Definition LF : ascii := "010"%char.

(** Go's raw string literals (between backquotes) hold double quotes.
    Here such a literal is written with apostrophes in their place and
    passed through [raw], which puts the double quotes back.  No literal
    of the package holds an apostrophe of its own. *)
Fixpoint raw (s : string) : string :=
  match s with
  | EmptyString => EmptyString
  | String c r => String (if Ascii.eqb c "'"%char then dquote else c) (raw r)
  end.

(** The interpreted literal ["\r\n"]. *)
Definition CRLF : string := String CR (String LF EmptyString).

Definition byte (c : ascii) : N := N_of_ascii c.
Definition chr (n : N) : ascii := ascii_of_N n.

(** [i < len(s) && s[i] == c] *)
Definition at_is (s : string) (i : nat) (c : ascii) : bool :=
  match String.get i s with
  | Some d => Ascii.eqb d c
  | None => false
  end.

(** [s[i:]] *)
Fixpoint drop_str (i : nat) (s : string) : string :=
  match i, s with
  | O, _ => s
  | S k, String _ r => drop_str k r
  | S _, EmptyString => EmptyString
  end.

Definition is_digit (b : N) : bool := (48 <=? b)%N && (b <=? 57)%N.

(** ** unicode/utf8 *)
Module utf8.

Local Open Scope N_scope.

Definition RuneError : N := 65533.
Definition RuneSelf : N := 128.

Definition between (lo hi b : N) : bool := (lo <=? b) && (b <=? hi).

(** [first[b0]]: the length of the sequence that the first byte starts and
    the range the second byte must lie in; [None] for a byte that starts
    no sequence. *)
Definition first (b0 : N) : option (nat * N * N) :=
  if between 194 223 b0 then Some (2%nat, 128, 191)
  else if b0 =? 224 then Some (3%nat, 160, 191)
  else if between 225 236 b0 then Some (3%nat, 128, 191)
  else if b0 =? 237 then Some (3%nat, 128, 159)
  else if between 238 239 b0 then Some (3%nat, 128, 191)
  else if b0 =? 240 then Some (4%nat, 144, 191)
  else if between 241 243 b0 then Some (4%nat, 128, 191)
  else if b0 =? 244 then Some (4%nat, 128, 143)
  else None.

Definition low6 (b : N) : N := N.land b 63.

(** [utf8.DecodeRuneInString]: the first rune of [s] and its width in
    bytes; [(RuneError, 1)] for an encoding that is not well formed and
    [(RuneError, 0)] for the empty string. *)
Definition DecodeRuneInString (s : string) : N * nat :=
  match s with
  | EmptyString => (RuneError, 0%nat)
  | String c0 r0 =>
    let b0 := byte c0 in
    if b0 <? RuneSelf then (b0, 1%nat)
    else
      match first b0, r0 with
      | Some (size, lo, hi), String c1 r1 =>
        let b1 := byte c1 in
        if negb (between lo hi b1) then (RuneError, 1%nat)
        else
          match size, r1 with
          | 2%nat, _ => (N.lor (N.shiftl (N.land b0 31) 6) (low6 b1), 2%nat)
          | 3%nat, String c2 _ =>
            let b2 := byte c2 in
            if negb (between 128 191 b2) then (RuneError, 1%nat)
            else (N.lor (N.shiftl (N.land b0 15) 12)
                    (N.lor (N.shiftl (low6 b1) 6) (low6 b2)), 3%nat)
          | 4%nat, String c2 (String c3 _) =>
            let b2 := byte c2 in
            let b3 := byte c3 in
            if negb (between 128 191 b2) || negb (between 128 191 b3)
            then (RuneError, 1%nat)
            else (N.lor (N.shiftl (N.land b0 7) 18)
                    (N.lor (N.shiftl (low6 b1) 12)
                       (N.lor (N.shiftl (low6 b2) 6) (low6 b3))), 4%nat)
          | _, _ => (RuneError, 1%nat)
          end
      | _, _ => (RuneError, 1%nat)
      end
  end.

Definition bytes (l : list N) : string :=
  fold_right (fun b s => String (chr b) s) EmptyString l.

(** [utf8.AppendRune] on an empty buffer: the UTF-8 encoding of [r];
    surrogates and runes past U+10FFFF are written as U+FFFD. *)
Definition EncodeRune (r : N) : string :=
  if r <=? 127 then bytes [r]
  else if r <=? 2047 then
    bytes [N.lor 192 (N.shiftr r 6); N.lor 128 (low6 r)]
  else if (1114111 <? r) || between 55296 57343 r then
    bytes [239; 191; 189]
  else if r <=? 65535 then
    bytes [N.lor 224 (N.shiftr r 12); N.lor 128 (low6 (N.shiftr r 6));
           N.lor 128 (low6 r)]
  else
    bytes [N.lor 240 (N.shiftr r 18); N.lor 128 (low6 (N.shiftr r 12));
           N.lor 128 (low6 (N.shiftr r 6)); N.lor 128 (low6 r)].

End utf8.

(** ** fmt: [Fprintf] called with a format and no operands

    [request] calls [fmt.Fprintf(conn, cmd+"\r\n")]: the command is the
    FORMAT and the operand list [a] is empty.  [doPrintf] below is Go's
    [pp.doPrintf] read at [len(a) = 0]: [argNum] stays [0], every verb
    finds its operand missing, and the flags, width and precision that are
    parsed have no operand to act on. *)
Module fmt.

Definition percentBangString : string := "%!".
Definition missingString : string := "(MISSING)".
Definition badIndexString : string := "(BADINDEX)".
Definition badWidthString : string := "%!(BADWIDTH)".
Definition badPrecString : string := "%!(BADPREC)".
Definition noVerbString : string := "%!(NOVERB)".

(** The operand count of the call. *)
Definition numArgs : Z := 0.

Definition is_flag (c : ascii) : bool :=
  existsb (Ascii.eqb c) ["#"; "0"; "+"; "-"; " "]%char.

(** The [simpleFormat] loop: the index of the first byte at or after [i]
    that is not a flag. *)
Fixpoint flags_from (s : string) (i : nat) : nat :=
  match s with
  | String c r => if is_flag c then flags_from r (S i) else i
  | EmptyString => i
  end.

Definition skip_flags (format : string) (i : nat) : nat :=
  flags_from (drop_str i format) i.

Definition tooLarge (x : N) : bool := (1000000 <? x)%N.

Fixpoint parsenum_loop (s : string) (newi end_ : nat) (num : N) (isnum : bool)
  : N * bool * nat :=
  match s with
  | String c r =>
    if (newi <? end_)%nat && is_digit (byte c) then
      if tooLarge num then (0%N, false, end_)
      else parsenum_loop r (S newi) end_ (num * 10 + (byte c - 48))%N true
    else (num, isnum, newi)
  | EmptyString => (num, isnum, newi)
  end.

(** [parsenum(s, start, end)]: the number written at [s[start:end]], whether
    there is one, and the index after it. *)
Definition parsenum (s : string) (start end_ : nat) : N * bool * nat :=
  if (end_ <=? start)%nat then (0%N, false, end_)
  else parsenum_loop (drop_str start s) start end_ 0%N false.

(** The index of the first [']'] of [s], counted from [i]. *)
Fixpoint find_close (s : string) (i : nat) : option nat :=
  match s with
  | String c r => if Ascii.eqb c "]" then Some i else find_close r (S i)
  | EmptyString => None
  end.

(** [parseArgNumber(format)], for a [format] that starts with an opening
    bracket: the index (zero based), the width of the bracketed text, and
    whether it parsed. *)
Definition parseArgNumber (format : string) : Z * nat * bool :=
  if (String.length format <? 3)%nat then (0%Z, 1, false)
  else
    match find_close (drop_str 1 format) 1 with
    | Some i =>
      let '(width, ok, newi) := parsenum format 1 i in
      if negb ok || negb (newi =? i)%nat then (0%Z, i + 1, false)
      else ((Z.of_N width - 1)%Z, i + 1, true)
    | None => (0%Z, 1, false)
    end.

(** [pp.argNumber(argNum, format, i, numArgs)]: the new index [i], whether
    an argument index was found, and the value of [p.goodArgNum] after the
    call when it was [good] before. *)
Definition argNumber (format : string) (i : nat) (good : bool)
  : nat * bool * bool :=
  if negb (at_is format i "[") then (i, false, good)
  else
    let '(index, wid, ok) := parseArgNumber (drop_str i format) in
    if ok && (0 <=? index)%Z && (index <? numArgs)%Z then (i + wid, true, good)
    else (i + wid, ok, false).

Definition badArgNum (verb : N) : string :=
  percentBangString +:+ utf8.EncodeRune verb +:+ badIndexString.

Definition missingArg (verb : N) : string :=
  percentBangString +:+ utf8.EncodeRune verb +:+ missingString.

(** One directive.  [format] is the text after a ['%'] sign; the result is
    what the directive prints and the number of bytes of [format] it takes
    up. *)
Definition directive (format : string) : string * nat :=
  let end_ := String.length format in
  let i := skip_flags format 0 in
  let '(i, afterIndex, good) := argNumber format i true in
  (* width *)
  let '(out1, i, afterIndex, good) :=
    if at_is format i "*" then (badWidthString, i + 1, false, good)
    else
      let '(_, widPresent, i') := parsenum format i end_ in
      (EmptyString, i', afterIndex,
       if afterIndex && widPresent then false else good) in
  (* precision *)
  let '(out2, i, afterIndex, good) :=
    if at_is format i "." then
      let good := if afterIndex then false else good in
      let '(i, afterIndex, good) := argNumber format (i + 1) good in
      if at_is format i "*" then (badPrecString, i + 1, false, good)
      else
        let '(_, _, i') := parsenum format i end_ in
        (EmptyString, i', afterIndex, good)
    else (EmptyString, i, afterIndex, good) in
  let '(i, afterIndex, good) :=
    if afterIndex then (i, afterIndex, good) else argNumber format i good in
  if (end_ <=? i)%nat then (out1 +:+ out2 +:+ noVerbString, end_)
  else
    let '(verb, size) := utf8.DecodeRuneInString (drop_str i format) in
    (out1 +:+ out2 +:+
       (if (verb =? byte "%")%N then "%"
        else if negb good then badArgNum verb
        else missingArg verb),
     i + size).

(** The [formatLoop]: bytes other than ['%'] are copied, a ['%'] starts a
    directive.  [skip] counts the bytes of the running directive that are
    still to be passed over. *)
Fixpoint formatLoop (skip : nat) (format : string) : string :=
  match format with
  | EmptyString => EmptyString
  | String c r =>
    match skip with
    | S k => formatLoop k r
    | O =>
      if Ascii.eqb c "%" then
        let '(out, n) := directive r in out +:+ formatLoop n r
      else String c (formatLoop 0 r)
    end
  end.

(** [doPrintf(format, nil)]: the bytes that [Fprintf(w, format)] hands to
    [w.Write] in one call. *)
Definition doPrintf (format : string) : string := formatLoop 0 format.

End fmt.

(** ** encoding/json: the part of [Unmarshal] that the package relies on

    [Unmarshal(data, v)] first checks that [data] is one JSON text
    ([checkValid]); when it is not, [v] is left as it was.  Otherwise the
    value is stored into [v] member by member; a member whose JSON type does
    not fit its field is skipped and the others are still stored.  The
    package never looks at the error that [Unmarshal] returns, so the model
    keeps the effect on [v] only.

    The library is read as documented for the Go releases in use (1.21 and
    later).  Two points differ in old releases and are marked where they
    are modelled: the limit on nesting (since 1.15) and the call of
    [UnmarshalJSON] for the literal [null] (since 1.8). *)
Module json.

Inductive Value : Type :=
| VNull
| VBool (b : bool)
| VNumber (lit : string)
| VString (lit : string)
| VArray (elems : list Value)
| VObject (members : list (string * string * Value)).

(** A number carries its literal and a string the text between its quotes,
    escapes still in place.  A member of an object is its key (the text
    between the quotes), the bytes of its value as they stand in the input,
    and the value. *)

Inductive res (A : Type) : Type :=
| Ok (a : A)
| SyntaxError
| OutOfFuel.
Arguments Ok {A} a.
Arguments SyntaxError {A}.
Arguments OutOfFuel {A}.

Definition is_space (c : ascii) : bool :=
  existsb (Ascii.eqb c) [" "%char; "009"%char; CR; LF].

Fixpoint skip_space (s : string) : string :=
  match s with
  | String c r => if is_space c then skip_space r else s
  | EmptyString => s
  end.

Definition is_hex (c : ascii) : bool :=
  let b := byte c in
  is_digit b || utf8.between 97 102 b || utf8.between 65 70 b.

Definition is_escape (c : ascii) : bool :=
  existsb (Ascii.eqb c) [dquote; "\"; "/"; "b"; "f"; "n"; "r"; "t"]%char.

Definition cons_lit (l : list ascii) (o : option (string * string))
  : option (string * string) :=
  match o with
  | Some (lit, rest) =>
    Some (fold_right String lit l, rest)
  | None => None
  end.

(** The text of a string after its opening quote: the literal up to the
    closing quote and what follows it. *)
Fixpoint string_body (s : string) : option (string * string) :=
  match s with
  | EmptyString => None
  | String c r =>
    if Ascii.eqb c dquote then Some (EmptyString, r)
    else if Ascii.eqb c "\" then
      match r with
      | String e r' =>
        if is_escape e then cons_lit [c; e] (string_body r')
        else if Ascii.eqb e "u" then
          match r' with
          | String h1 (String h2 (String h3 (String h4 r''))) =>
            if is_hex h1 && is_hex h2 && is_hex h3 && is_hex h4
            then cons_lit [c; e; h1; h2; h3; h4] (string_body r'')
            else None
          | _ => None
          end
        else None
      | EmptyString => None
      end
    else if (byte c <? 32)%N then None
    else cons_lit [c] (string_body r)
  end.

(** The leading digits of [s] and the rest. *)
Fixpoint digits (s : string) : string * string :=
  match s with
  | String c r =>
    if is_digit (byte c) then let '(d, rest) := digits r in (String c d, rest)
    else (EmptyString, s)
  | EmptyString => (EmptyString, s)
  end.

(** [0] or a digit sequence that does not start with [0]. *)
Definition int_part (s : string) : option (string * string) :=
  match s with
  | String c r =>
    if Ascii.eqb c "0" then Some ("0", r)
    else if is_digit (byte c) then
      let '(d, rest) := digits r in Some (String c d, rest)
    else None
  | EmptyString => None
  end.

Definition frac_part (s : string) : option (string * string) :=
  match s with
  | String c r =>
    if Ascii.eqb c "." then
      match digits r with
      | (EmptyString, _) => None
      | (d, rest) => Some (String c d, rest)
      end
    else Some (EmptyString, s)
  | EmptyString => Some (EmptyString, s)
  end.

Definition exp_part (s : string) : option (string * string) :=
  match s with
  | String c r =>
    if Ascii.eqb c "e" || Ascii.eqb c "E" then
      let '(sign, r1) :=
        match r with
        | String g r' =>
          if Ascii.eqb g "+" || Ascii.eqb g "-"
          then (String g EmptyString, r') else (EmptyString, r)
        | EmptyString => (EmptyString, r)
        end in
      match digits r1 with
      | (EmptyString, _) => None
      | (d, rest) => Some (String c (sign +:+ d), rest)
      end
    else Some (EmptyString, s)
  | EmptyString => Some (EmptyString, s)
  end.

(** A number literal at the head of [s]. *)
Definition number (s : string) : option (string * string) :=
  let '(sign, s0) :=
    match s with
    | String c r => if Ascii.eqb c "-" then ("-", r) else (EmptyString, s)
    | EmptyString => (EmptyString, s)
    end in
  '(i, s1) ← int_part s0;
  '(f, s2) ← frac_part s1;
  '(e, s3) ← exp_part s2;
  Some (sign +:+ i +:+ f +:+ e, s3).

(** [s] without its prefix [p], when it starts with it. *)
Fixpoint strip_prefix (p s : string) : option string :=
  match p, s with
  | EmptyString, _ => Some s
  | String a p', String b s' =>
    if Ascii.eqb a b then strip_prefix p' s' else None
  | String _ _, EmptyString => None
  end.

Fixpoint take_str (n : nat) (s : string) : string :=
  match n, s with
  | S k, String c r => String c (take_str k r)
  | _, _ => EmptyString
  end.

(** The scanner gives up on arrays and objects nested deeper than this
    (Go 1.15 and later). *)
Definition maxNestingDepth : N := 10000.

Definition close_or {A} (c : ascii) (closing : ascii)
    (more : res A) (done : res A) : res A :=
  if Ascii.eqb c "," then more
  else if Ascii.eqb c closing then done
  else SyntaxError.

(** One value at the head of [s] (no leading space) and the text after it.
    [depth] counts the arrays and objects that are open around it. *)
Fixpoint value (fuel : nat) (depth : N) (s : string) : res (Value * string) :=
  match fuel with
  | O => OutOfFuel
  | S fuel =>
    match s with
    | EmptyString => SyntaxError
    | String c r =>
      if Ascii.eqb c "{" then
        if (maxNestingDepth <? depth + 1)%N then SyntaxError
        else
          match skip_space r with
          | EmptyString => SyntaxError
          | String d r' as r0 =>
            if Ascii.eqb d "}" then Ok (VObject [], r')
            else members fuel (depth + 1)%N r0 []
          end
      else if Ascii.eqb c "[" then
        if (maxNestingDepth <? depth + 1)%N then SyntaxError
        else
          match skip_space r with
          | EmptyString => SyntaxError
          | String d r' as r0 =>
            if Ascii.eqb d "]" then Ok (VArray [], r')
            else elems fuel (depth + 1)%N r0 []
          end
      else if Ascii.eqb c dquote then
        match string_body r with
        | Some (lit, rest) => Ok (VString lit, rest)
        | None => SyntaxError
        end
      else if Ascii.eqb c "-" || is_digit (byte c) then
        match number s with
        | Some (lit, rest) => Ok (VNumber lit, rest)
        | None => SyntaxError
        end
      else
        match strip_prefix "true" s, strip_prefix "false" s,
              strip_prefix "null" s with
        | Some rest, _, _ => Ok (VBool true, rest)
        | _, Some rest, _ => Ok (VBool false, rest)
        | _, _, Some rest => Ok (VNull, rest)
        | _, _, _ => SyntaxError
        end
    end
  end

(** The elements of an array from its next element on; [acc] holds the
    elements read so far, last first. *)
with elems (fuel : nat) (depth : N) (s : string) (acc : list Value)
  : res (Value * string) :=
  match fuel with
  | O => OutOfFuel
  | S fuel =>
    match value fuel depth s with
    | Ok (v, r) =>
      match skip_space r with
      | EmptyString => SyntaxError
      | String c r' =>
        close_or c "]"
          (elems fuel depth (skip_space r') (v :: acc))
          (Ok (VArray (rev (v :: acc)), r'))
      end
    | SyntaxError => SyntaxError
    | OutOfFuel => OutOfFuel
    end
  end

(** The members of an object from its next key on. *)
with members (fuel : nat) (depth : N) (s : string)
    (acc : list (string * string * Value)) : res (Value * string) :=
  match fuel with
  | O => OutOfFuel
  | S fuel =>
    match s with
    | EmptyString => SyntaxError
    | String q r =>
      if negb (Ascii.eqb q dquote) then SyntaxError
      else
        match string_body r with
        | None => SyntaxError
        | Some (key, r1) =>
          match skip_space r1 with
          | EmptyString => SyntaxError
          | String c r2 =>
            if negb (Ascii.eqb c ":") then SyntaxError
            else
              let r3 := skip_space r2 in
              match value fuel depth r3 with
              | Ok (v, r4) =>
                let text := take_str (String.length r3 - String.length r4) r3 in
                match skip_space r4 with
                | EmptyString => SyntaxError
                | String c' r5 =>
                  close_or c' "}"
                    (members fuel depth (skip_space r5)
                       ((key, text, v) :: acc))
                    (Ok (VObject (rev ((key, text, v) :: acc)), r5))
                end
              | SyntaxError => SyntaxError
              | OutOfFuel => OutOfFuel
              end
          end
        end
    end
  end.

(** Fuel that [value] cannot use up on [s]. *)
Definition enough (s : string) : nat := 2 * String.length s + 1.

(** The JSON text [data] as a value; [None] when [data] is not one JSON
    value with white space around it. *)
Definition parse (data : string) : option Value :=
  let s := skip_space data in
  match value (enough s) 0 s with
  | Ok (v, rest) =>
    match skip_space rest with
    | EmptyString => Some v
    | String _ _ => None
    end
  | _ => None
  end.

(** [checkValid(data)] succeeds. *)
Definition Valid (data : string) : bool :=
  match parse data with Some _ => true | None => false end.

(** *** Strings: [unquote] *)

Definition hex_val (c : ascii) : N :=
  let b := byte c in
  if is_digit b then b - 48
  else if utf8.between 97 102 b then b - 87
  else b - 55.

(** [getu4(s)]: the number of a [\uXXXX] escape at the head of [s]. *)
Definition getu4 (s : string) : option N :=
  match s with
  | String b (String u (String h1 (String h2 (String h3 (String h4 _))))) =>
    if Ascii.eqb b "\" && Ascii.eqb u "u"
       && is_hex h1 && is_hex h2 && is_hex h3 && is_hex h4
    then Some (((hex_val h1 * 16 + hex_val h2) * 16 + hex_val h3) * 16
               + hex_val h4)%N
    else None
  | _ => None
  end.

(** [utf16.IsSurrogate] and [utf16.DecodeRune]. *)
Definition IsSurrogate (r : N) : bool := utf8.between 55296 57343 r.

Definition utf16_DecodeRune (r1 r2 : N) : N :=
  if utf8.between 55296 56319 r1 && utf8.between 56320 57343 r2
  then (N.lor (N.shiftl (r1 - 55296) 10) (r2 - 56320) + 65536)%N
  else utf8.RuneError.

Definition simple_escape (e : ascii) : option ascii :=
  if existsb (Ascii.eqb e) [dquote; "\"; "/"; "'"]%char then Some e
  else if Ascii.eqb e "b" then Some "008"%char
  else if Ascii.eqb e "f" then Some "012"%char
  else if Ascii.eqb e "n" then Some LF
  else if Ascii.eqb e "r" then Some CR
  else if Ascii.eqb e "t" then Some "009"%char
  else None.

(** One step of [unquote] at the head of the non-empty text [s]: the bytes
    it writes and the number of bytes of [s] it reads; [None] where
    [unquote] reports failure. *)
Definition unquote_step (s : string) : option (string * nat) :=
  match s with
  | EmptyString => None
  | String c r =>
    if Ascii.eqb c "\" then
      match r with
      | EmptyString => None
      | String e _ =>
        if Ascii.eqb e "u" then
          match getu4 s with
          | None => None
          | Some rr =>
            if IsSurrogate rr then
              let rr1 := getu4 (drop_str 6 s) in
              let dec :=
                match rr1 with
                | Some r1 => utf16_DecodeRune rr r1
                | None => utf8.RuneError
                end in
              if negb (dec =? utf8.RuneError)%N
              then Some (utf8.EncodeRune dec, 12)
              else Some (utf8.EncodeRune utf8.RuneError, 6)
            else Some (utf8.EncodeRune rr, 6)
          end
        else
          match simple_escape e with
          | Some d => Some (String d EmptyString, 2)
          | None => None
          end
      end
    else if Ascii.eqb c dquote || (byte c <? 32)%N then None
    else if (byte c <? utf8.RuneSelf)%N then Some (String c EmptyString, 1)
    else
      let '(rr, size) := utf8.DecodeRuneInString s in
      Some (utf8.EncodeRune rr, size)
  end.

Fixpoint unquote_loop (skip : nat) (s : string) : option string :=
  match s with
  | EmptyString => Some EmptyString
  | String _ r =>
    match skip with
    | S k => unquote_loop k r
    | O =>
      '(out, n) ← unquote_step s;
      rest ← unquote_loop (n - 1) r;
      Some (out +:+ rest)
    end
  end.

(** [unquote], applied to the text between the quotes of a string literal:
    escapes are replaced, bytes that are not well-formed UTF-8 become
    U+FFFD.  It fails on no literal that the reader has accepted; where
    the model meets [None] below, the field is left as it is. *)
Definition unquote (lit : string) : option string := unquote_loop 0 lit.

(** *** Field names *)

(** [foldRune].  Of the runes past U+007F only U+017F (long s) and U+212A
    (Kelvin sign) fold to an ASCII letter; the others fold among
    themselves and are left as they are here, which does not change
    whether a folded key equals the folded name of a field: the names of
    the package's fields are ASCII. *)
Definition foldRune (r : N) : N :=
  if (r =? 383)%N then byte "S"
  else if (r =? 8490)%N then byte "K"
  else r.

Definition fold_step (s : string) : string * nat :=
  match s with
  | EmptyString => (EmptyString, 0)
  | String c _ =>
    let b := byte c in
    if (b <? utf8.RuneSelf)%N then
      (String (if utf8.between 97 122 b then chr (b - 32) else c)
         EmptyString, 1)
    else
      let '(r, n) := utf8.DecodeRuneInString s in
      (utf8.EncodeRune (foldRune r), n)
  end.

Fixpoint fold_loop (skip : nat) (s : string) : string :=
  match s with
  | EmptyString => EmptyString
  | String _ r =>
    match skip with
    | S k => fold_loop k r
    | O => let '(out, n) := fold_step s in out +:+ fold_loop (n - 1) r
    end
  end.

(** [foldName] *)
Definition foldName (s : string) : string := fold_loop 0 s.

(** The key [key] of a member selects the field tagged [name]: the names
    are equal, or equal once folded. *)
Definition selects (key name : string) : bool :=
  String.eqb key name || String.eqb (foldName key) (foldName name).

(** *** Storing a value into a field *)

Fixpoint decimal (acc : Z) (s : string) : Z :=
  match s with
  | EmptyString => acc
  | String c r => decimal (acc * 10 + Z.of_N (byte c - 48)) r
  end.

(** [strconv.ParseInt(lit, 10, 64)] on a number literal: its value when the
    literal has neither fraction nor exponent and fits 64 bits. *)
Definition ParseInt (lit : string) : option Z :=
  let '(neg, ds) :=
    match lit with
    | String c r => if Ascii.eqb c "-" then (true, r) else (false, lit)
    | EmptyString => (false, lit)
    end in
  match digits ds with
  | (d, EmptyString) =>
    let n := decimal 0 d in
    let z := if neg then (- n)%Z else n in
    if (- 2 ^ 63 <=? z)%Z && (z <=? 2 ^ 63 - 1)%Z then Some z else None
  | _ => None
  end.

(** Into an [int] field holding [old]: a number that [ParseInt] accepts is
    stored; [null] and values of another type leave the field as it is. *)
Definition store_int (v : Value) (old : Z) : Z :=
  match v with
  | VNumber lit => default old (ParseInt lit)
  | _ => old
  end.

(** Into a [string] field: a string is stored unquoted; [null] and values
    of another type leave the field as it is. *)
Definition store_string (v : Value) (old : string) : string :=
  match v with
  | VString lit => default old (unquote lit)
  | _ => old
  end.

(** Into a [RawMessage] field.  [*RawMessage] implements [Unmarshaler], and
    the documentation of [Unmarshal] says: "To unmarshal JSON into a value
    implementing the Unmarshaler interface, Unmarshal calls that value's
    UnmarshalJSON method, including when the input is a JSON null."  (Up to
    Go 1.7 a [null] was a no-op for an [Unmarshaler].)  So for every value,
    the literal [null] included, [RawMessage.UnmarshalJSON] is called with
    the bytes of the value and stores a copy of them:
    [*m = append(( *m)[0:0], data...)].  A [RawMessage] is a byte slice;
    [None] is the nil slice, and the bytes stored are never nil. *)
Definition store_RawMessage (text : string) (old : option string)
  : option string := Some text.

(** The digits and the decimal exponent of a number literal: up to its
    sign the literal stands for [m * 10 ^ e], [m] the digits of its integer
    and fraction parts read as one number. *)
Definition float_parts (lit : string) : Z * Z :=
  let ds :=
    match lit with
    | String c r => if Ascii.eqb c "-" then r else lit
    | EmptyString => lit
    end in
  let '(i, r1) := digits ds in
  let '(f, r2) :=
    match r1 with
    | String c r => if Ascii.eqb c "." then digits r else (EmptyString, r1)
    | EmptyString => (EmptyString, r1)
    end in
  let e :=
    match r2 with
    | String _ (String g r' as r) =>
      if Ascii.eqb g "-" then (- decimal 0 (digits r').1)%Z
      else if Ascii.eqb g "+" then decimal 0 (digits r').1
      else decimal 0 (digits r).1
    | _ => 0%Z
    end in
  (decimal 0 (i +:+ f), (e - Z.of_nat (String.length f))%Z).

(** The largest float64 is [2^1024 - 2^971]; from half a unit in the last
    place above it on, a value is rounded (ties to even) to [2^1024], which
    float64 does not hold. *)
Definition float64_limit : Z := 2 ^ 1024 - 2 ^ 970.

(** [strconv.ParseFloat(lit, 64)] on a number literal fails with
    [ErrRange], as documented: "If s is syntactically well-formed but is
    more than 1/2 ULP away from the largest floating point number of the
    given size, ParseFloat returns f = +-Inf, err.Err = ErrRange."  A
    literal too small for float64 is read as zero, without error. *)
Definition ParseFloat_overflows (lit : string) : bool :=
  let '(m, e) := float_parts lit in
  if (0 <=? e)%Z then (float64_limit <=? m * 10 ^ e)%Z
  else (float64_limit * 10 ^ (- e) <=? m)%Z.

(** Into an [interface{}] field holding [old]: [null] stores nil; a number
    is stored as a float64, and one that [ParseFloat] refuses is a type
    error that leaves the field as it was; any other value is stored as
    the Go value that stands for it.  (Inside an array or an object a
    number that [ParseFloat] refuses is stored as nil; the value kept
    here stands for that.) *)
Definition store_interface (v : Value) (old : option Value) : option Value :=
  match v with
  | VNull => None
  | VNumber lit => if ParseFloat_overflows lit then old else Some v
  | _ => Some v
  end.

(** Into a [[]string] that is empty: an array stores one string per
    element, the zero string for an element that is no string; [null]
    stores the nil slice; another value leaves the slice as it is. *)
Definition store_strings (v : Value) (old : list string) : list string :=
  match v with
  | VArray es => map (fun e => store_string e EmptyString) es
  | VNull => []
  | _ => old
  end.

(** Into a struct, [set] storing one member: the members of an object are
    stored one after the other; [null] and values of another type leave the
    struct as it is. *)
Definition store_struct {T} (set : T -> string * string * Value -> T)
    (v : Value) (old : T) : T :=
  match v with
  | VObject ms => fold_left set ms old
  | _ => old
  end.

(** *** The error that [Unmarshal] returns

    [Unmarshal] stores what fits and returns the first type error it met:
    a value whose JSON type does not fit the Go type it is stored into.
    [null] fits every type; a [RawMessage] takes every value. *)




End json.

(** ** Errors, and the outcome of a call *)

(** The [error] values the package meets: those it makes with
    [errors.New], those of the [net] package, and [io.EOF]. *)
Inductive error : Type :=
| errorString (text : string)
| OpError (op : string) (text : string)
| EOF.

Definition errors_New (text : string) : error := errorString text.

(** [err.Error()] *)
Definition Error_text (e : error) : string :=
  match e with
  | errorString text => text
  | OpError op text => op +:+ ": " +:+ text
  | EOF => "EOF"
  end.

(** A call returns, or panics at run time. *)
Inductive outcome (A : Type) : Type :=
| Returns (a : A)
| Panics (why : string).
Arguments Returns {A} a.
Arguments Panics {A} why.

(** ** net, bufio and os.Stdout: the world a call runs in

    A call runs against a peer and leaves a log of what it did.  The peer
    fixes whether a dial is accepted, which bytes it sends back for the
    bytes it was sent, and what a read meets once those bytes are used up:
    [io.EOF] when the peer hangs up, a timeout when the read deadline
    passes first. *)
Module net.

Record Peer : Type := {
  accepts : string -> string -> option error;
  answers : string -> string;
  at_end : error
}.

(** A connection is named by the number of dials before it. *)
Definition Conn : Type := nat.

Inductive Event : Type :=
| Dialed (c : Conn) (network address : string)
| DialFailed (network address : string)
| DeadlineSet (c : Conn) (after : N)
| Wrote (c : Conn) (bytes : string)
| ReadLine (c : Conn)
| Closed (c : Conn)
| Printed (text : string).

Definition Log : Type := list Event.

(** A computation with effects: it reads the peer and extends the log. *)
Definition IO (A : Type) : Type := Peer -> Log -> A * Log.

Definition ret {A} (a : A) : IO A := fun _ log => (a, log).

Definition bind {A B} (m : IO A) (k : A -> IO B) : IO B :=
  fun peer log => let '(a, log') := m peer log in k a peer log'.

Definition emit (e : Event) : IO unit := fun _ log => (tt, log ++ [e]).

Definition is_dial (e : Event) : bool :=
  match e with Dialed _ _ _ => true | _ => false end.

Definition dials (log : Log) : nat := length (filter is_dial log).

(** The bytes written to [c] so far. *)
Fixpoint written (c : Conn) (log : Log) : string :=
  match log with
  | [] => EmptyString
  | Wrote c' bytes :: rest =>
    if Nat.eqb c c' then bytes +:+ written c rest else written c rest
  | _ :: rest => written c rest
  end.

(** [net.DialTimeout(network, address, timeout)]; whether the dial is
    accepted within [timeout] is the peer's to say. *)
Definition DialTimeout (network address : string) (timeout : N)
  : IO (Conn + error) :=
  fun peer log =>
    match accepts peer network address with
    | None =>
      let c := dials log in
      (inl c, log ++ [Dialed c network address])
    | Some err => (inr err, log ++ [DialFailed network address])
    end.

(** [conn.SetReadDeadline(time.Now().Add(d))]: the deadline is logged by
    its distance [d] from now, in nanoseconds. *)
Definition SetReadDeadline (c : Conn) (d : N) : IO unit :=
  emit (DeadlineSet c d).

(** [fmt.Fprintf(conn, format)]: one [Write] of the formatted bytes. *)
Definition Fprintf (c : Conn) (format : string) : IO unit :=
  emit (Wrote c (fmt.doPrintf format)).

(** The text up to and with the first [delim], when there is one. *)
Fixpoint up_to (delim : ascii) (s : string) : option string :=
  match s with
  | EmptyString => None
  | String ch r =>
    if Ascii.eqb ch delim then Some (String ch EmptyString)
    else String ch <$> up_to delim r
  end.

(** [bufio.NewReader(conn).ReadString(delim)]: the bytes up to and with the
    first [delim]; without one, the bytes read and the error met. *)
Definition ReadString (c : Conn) (delim : ascii) : IO (string * option error) :=
  fun peer log =>
    let incoming := answers peer (written c log) in
    (match up_to delim incoming with
     | Some line => (line, None)
     | None => (incoming, Some (at_end peer))
     end, log ++ [ReadLine c]).

(** [conn.Close()] *)
Definition Close (c : Conn) : IO unit := emit (Closed c).

(** [fmt.Println(text)] *)
Definition Println (text : string) : IO unit :=
  emit (Printed (text +:+ String LF EmptyString)).

End net.

Notation "'let*' x ':=' m 'in' k" := (net.bind m (fun x => k))
  (at level 10, x pattern, m at level 100, k at level 200, only parsing).

(** ** The package, as in [src/unnamed/part_000] *)
Module Part000.

Import net.

(** [timeout], in nanoseconds. *)
Definition timeout : N := 10 * 1000000000.

Record Yeelight : Type := { host : string; port : string }.

(** [Error]: the payload of an error response. *)
Record Error : Type := { Code : Z; Message : string }.

(** [ResponseOk]; [Result] is a [json.RawMessage], [None] the nil slice. *)
Record ResponseOk : Type := { ID : Z; Result : option string }.

(** [ResponseError]; its fields are [ID] and [Error] in the source. *)
Record ResponseError : Type := { ID' : Z; Error' : Error }.

Definition Error_zero : Error := {| Code := 0; Message := EmptyString |}.
Definition ResponseOk_zero : ResponseOk := {| ID := 0; Result := None |}.
Definition ResponseError_zero : ResponseError :=
  {| ID' := 0; Error' := Error_zero |}.

(** *** [json.Unmarshal] at the types of the package *)

(** One member of an object, stored into a [ResponseOk]. *)
Definition set_ResponseOk (res : ResponseOk)
    (m : string * string * json.Value) : ResponseOk :=
  let '(keylit, text, v) := m in
  match json.unquote keylit with
  | None => res
  | Some key =>
    if json.selects key "id"
    then {| ID := json.store_int v (ID res); Result := Result res |}
    else if json.selects key "result"
    then {| ID := ID res;
            Result := json.store_RawMessage text (Result res) |}
    else res
  end.

Definition Unmarshal_ResponseOk (data : string) (res : ResponseOk)
  : ResponseOk :=
  match json.parse data with
  | Some v => json.store_struct set_ResponseOk v res
  | None => res
  end.

Definition set_Error (e : Error) (m : string * string * json.Value) : Error :=
  let '(keylit, _, v) := m in
  match json.unquote keylit with
  | None => e
  | Some key =>
    if json.selects key "code"
    then {| Code := json.store_int v (Code e); Message := Message e |}
    else if json.selects key "message"
    then {| Code := Code e; Message := json.store_string v (Message e) |}
    else e
  end.

Definition set_ResponseError (res : ResponseError)
    (m : string * string * json.Value) : ResponseError :=
  let '(keylit, _, v) := m in
  match json.unquote keylit with
  | None => res
  | Some key =>
    if json.selects key "id"
    then {| ID' := json.store_int v (ID' res); Error' := Error' res |}
    else if json.selects key "error"
    then {| ID' := ID' res;
            Error' := json.store_struct set_Error v (Error' res) |}
    else res
  end.

Definition Unmarshal_ResponseError (data : string) (res : ResponseError)
  : ResponseError :=
  match json.parse data with
  | Some v => json.store_struct set_ResponseError v res
  | None => res
  end.

Definition Unmarshal_strings (data : string) (props : list string)
  : list string :=
  match json.parse data with
  | Some v => json.store_strings v props
  | None => props
  end.






(** *** The package *)

(** Handles the response *)
Definition response (data : string) : string * option error :=
  let res := Unmarshal_ResponseOk data ResponseOk_zero in
  match Result res with
  | None =>
    (* error *)
    let res := Unmarshal_ResponseError data ResponseError_zero in
    let err := errors_New (Message (Error' res)) in
    (EmptyString, Some err)
  | Some result =>
    (* okay *)
    (result, None)
  end.

(** Makes the request *)
Definition request (y : Yeelight) (cmd : string)
  : IO (string * option error) :=
  let* r := DialTimeout "tcp" (host y +:+ ":" +:+ port y) timeout in
  match r with
  | inr err => ret (EmptyString, Some err)
  | inl conn =>
    let* _ := SetReadDeadline conn timeout in
    let* _ := Fprintf conn (cmd +:+ CRLF) in
    let* (data, err) := ReadString conn LF in
    let* _ := Close conn in
    match err with
    | Some err => ret (EmptyString, Some err)
    | None => ret (response data)
    end
  end.

(** [New] returns a new Yeelight instance. *)
Definition New (host port : string) : Yeelight :=
  {| host := host; port := port |}.

(** The command that [GetProp] builds. *)
Definition GetProp_cmd (values : list string) : string :=
  let cmd := raw "{'id':1,'method':'get_prop','params':[" in
  let cmd :=
    fold_left (fun cmd value => cmd +:+ (raw "'" +:+ value +:+ raw "',"))
      values cmd in
  cmd +:+ "]}".

(** The loop [for i, prop := range props { m[values[i]] = prop }]; indexing
    [values] out of range panics. *)
Fixpoint fill (values : list string) (i : nat) (props : list string)
    (m : gmap string string) : outcome (gmap string string) :=
  match props with
  | [] => Returns m
  | prop :: rest =>
    match values !! i with
    | Some name => fill values (S i) rest (<[name := prop]> m)
    | None => Panics "index out of range"
    end
  end.

(** [GetProp] method is used to retrieve current property of smart LED. *)
Definition GetProp (y : Yeelight) (values : list string)
  : IO (outcome (option (gmap string string) * option error)) :=
  let cmd := GetProp_cmd values in
  let* (res, err) := request y cmd in
  match err with
  | Some err => ret (Returns (None, Some err))
  | None =>
    let props := Unmarshal_strings res [] in
    if negb (length props =? length values)%nat then
      let err := errors_New "Wrong response" in
      ret (Returns (None, Some err))
    else
      match fill values 0 props ∅ with
      | Returns m => ret (Returns (Some m, None))
      | Panics why => ret (Panics why)
      end
  end.

(** *** The command catalog

    Each method builds its command line [cmd] and hands it to [request];
    the line is given a name of its own, [<Method>_cmd]. *)

Definition SetCtAbx_cmd (value effect duration : string) : string :=
  raw "{'id':2,'method':'set_ct_abx','params':[" +:+ value +:+ raw ",'"
  +:+ effect +:+ raw "'," +:+ duration +:+ raw "]}".

(** [SetCtAbx] method is used to change the color temperature of a smart
    LED. *)
Definition SetCtAbx (y : Yeelight) (value effect duration : string)
  : IO (string * option error) :=
  request y (SetCtAbx_cmd value effect duration).

Definition SetRGB_cmd (value effect duration : string) : string :=
  raw "{'id':3,'method':'set_rgb','params':[" +:+ value +:+ raw ",'"
  +:+ effect +:+ raw "'," +:+ duration +:+ raw "]}".

(** [SetRGB] method is used to change the color RGB of a smart LED. *)
Definition SetRGB (y : Yeelight) (value effect duration : string)
  : IO (string * option error) :=
  request y (SetRGB_cmd value effect duration).

Definition SetHSV_cmd (hue sat effect duration : string) : string :=
  raw "{'id':4,'method':'set_hsv','params':[" +:+ hue +:+ raw "," +:+ sat
  +:+ raw ",'" +:+ effect +:+ raw "'," +:+ duration +:+ raw "]}".

(** [SetHSV] method is used to change the color of a smart LED. *)
Definition SetHSV (y : Yeelight) (hue sat effect duration : string)
  : IO (string * option error) :=
  request y (SetHSV_cmd hue sat effect duration).

Definition SetBright_cmd (brightness effect duration : string) : string :=
  raw "{'id':5,'method':'set_bright','params':[" +:+ brightness +:+ raw ",'"
  +:+ effect +:+ raw "'," +:+ duration +:+ raw "]}".

(** [SetBright] method is used to change the brightness of a smart LED. *)
Definition SetBright (y : Yeelight) (brightness effect duration : string)
  : IO (string * option error) :=
  request y (SetBright_cmd brightness effect duration).

Definition SetPower_cmd (power effect duration : string) : string :=
  raw "{'id':6,'method':'set_power','params':['" +:+ power +:+ raw "','"
  +:+ effect +:+ raw "'," +:+ duration +:+ raw "]}".

(** [SetPower] method is used to switch on or off the smart LED (software
    managed on/off). *)
Definition SetPower (y : Yeelight) (power effect duration : string)
  : IO (string * option error) :=
  request y (SetPower_cmd power effect duration).

Definition Toogle_cmd : string := raw "{'id':7,'method':'toggle','params':[]}".

(** [Toogle] method is used to toggle the smart LED. *)
Definition Toogle (y : Yeelight) : IO (string * option error) :=
  request y Toogle_cmd.

Definition SetDefault_cmd : string :=
  raw "{'id':8,'method':'set_default','params':[]}".

(** [SetDefault] method is used to save current state of smart LED in
    persistent memory. *)
Definition SetDefault (y : Yeelight) : IO (string * option error) :=
  request y SetDefault_cmd.

Definition StartCf_cmd (count action flowExpression : string) : string :=
  raw "{'id':9,'method':'start_cf','params':[" +:+ count +:+ raw ","
  +:+ action +:+ raw ",'" +:+ flowExpression +:+ raw "']}".

(** [StartCf] method is used to start a color flow. *)
Definition StartCf (y : Yeelight) (count action flowExpression : string)
  : IO (string * option error) :=
  request y (StartCf_cmd count action flowExpression).

Definition StopCf_cmd : string :=
  raw "{'id':10,'method':'stop_cf','params':[]}".

(** [StopCf] method is used to stop a running color flow. *)
Definition StopCf (y : Yeelight) : IO (string * option error) :=
  request y StopCf_cmd.

Definition SetScene_cmd (class values : string) : string :=
  raw "{'id':11,'method':'set_scene','params':['" +:+ class +:+ raw "',"
  +:+ values +:+ raw "]}".

(** [SetScene] method is used to set the smart LED directly to specified
    state.  The command is printed before it is sent. *)
Definition SetScene (y : Yeelight) (class values : string)
  : IO (string * option error) :=
  let cmd := SetScene_cmd class values in
  let* _ := Println cmd in
  request y cmd.

Definition CronAdd_cmd (t value : string) : string :=
  raw "{'id':12,'method':'cron_add','params':[" +:+ t +:+ raw "," +:+ value
  +:+ raw "]}".

(** [CronAdd] method is used to start a timer job on the smart LED. *)
Definition CronAdd (y : Yeelight) (t value : string)
  : IO (string * option error) :=
  request y (CronAdd_cmd t value).

Definition CronGet_cmd (t : string) : string :=
  raw "{'id':13,'method':'cron_get','params':[" +:+ t +:+ raw "]}".

(** [CronGet] method is used to retrieve the setting of the current cron
    job of the specified type. *)
Definition CronGet (y : Yeelight) (t : string) : IO (string * option error) :=
  request y (CronGet_cmd t).

Definition CronDel_cmd (t : string) : string :=
  raw "{'id':14,'method':'cron_del','params':[" +:+ t +:+ raw "]}".

(** [CronDel] method is used to stop the specified cron job. *)
Definition CronDel (y : Yeelight) (t : string) : IO (string * option error) :=
  request y (CronDel_cmd t).

Definition SetAdjust_cmd (action prop : string) : string :=
  raw "{'id':15,'method':'set_adjust','params':['" +:+ action +:+ raw "','"
  +:+ prop +:+ raw "']}".

(** [SetAdjust] method is used to change brightness, CT or color of a smart
    LED without knowing the current value. *)
Definition SetAdjust (y : Yeelight) (action prop : string)
  : IO (string * option error) :=
  request y (SetAdjust_cmd action prop).

Definition SetName_cmd (name : string) : string :=
  raw "{'id':16,'method':'set_name','params':['" +:+ name +:+ raw "']}".

(** [SetName] method is used to name the device. *)
Definition SetName (y : Yeelight) (name : string)
  : IO (string * option error) :=
  request y (SetName_cmd name).

(** [On] method is used to switch on the smart LED *)
Definition On (y : Yeelight) : IO (string * option error) :=
  SetPower y "on" "smooth" "1000".

(** [Off] method is used to switch off the smart LED *)
Definition Off (y : Yeelight) : IO (string * option error) :=
  SetPower y "off" "smooth" "1000".

End Part000.

(** ** The package, as in [src/goyeelight.go]

    In this revision every method returns a string: the JSON text that
    [result] makes of a [Result] record by [json.Marshal].  The model stops
    at the record; the text is a function of it. *)
Module GoyeelightGo.

Import net.

Definition timeout : N := 10 * 1000000000.

Record Yeelight : Type := { host : string; port : string }.

Record Error : Type := { Code : Z; Message : string }.

(** [ResponseOk]; [Result] is an [interface{}], [None] the nil interface. *)
Record ResponseOk : Type := { Id : Z; Result_ : option json.Value }.

Record ResponseError : Type := { Id' : Z; Error' : Error }.

(** The values that the package puts into an [interface{}]. *)
Inductive any : Type :=
| any_string (s : string)
| any_ResponseOk (res : ResponseOk)
| any_ResponseError (res : ResponseError).

(** [Result]: the standard response message. *)
Record Result : Type := { Status : bool; Data : any }.

Definition Error_zero : Error := {| Code := 0; Message := EmptyString |}.
Definition ResponseOk_zero : ResponseOk := {| Id := 0; Result_ := None |}.
Definition ResponseError_zero : ResponseError :=
  {| Id' := 0; Error' := Error_zero |}.

Definition set_ResponseOk (res : ResponseOk)
    (m : string * string * json.Value) : ResponseOk :=
  let '(keylit, _, v) := m in
  match json.unquote keylit with
  | None => res
  | Some key =>
    if json.selects key "id"
    then {| Id := json.store_int v (Id res); Result_ := Result_ res |}
    else if json.selects key "result"
    then {| Id := Id res;
            Result_ := json.store_interface v (Result_ res) |}
    else res
  end.

Definition Unmarshal_ResponseOk (data : string) (res : ResponseOk)
  : ResponseOk :=
  match json.parse data with
  | Some v => json.store_struct set_ResponseOk v res
  | None => res
  end.

Definition set_Error (e : Error) (m : string * string * json.Value) : Error :=
  let '(keylit, _, v) := m in
  match json.unquote keylit with
  | None => e
  | Some key =>
    if json.selects key "code"
    then {| Code := json.store_int v (Code e); Message := Message e |}
    else if json.selects key "message"
    then {| Code := Code e; Message := json.store_string v (Message e) |}
    else e
  end.

Definition set_ResponseError (res : ResponseError)
    (m : string * string * json.Value) : ResponseError :=
  let '(keylit, _, v) := m in
  match json.unquote keylit with
  | None => res
  | Some key =>
    if json.selects key "id"
    then {| Id' := json.store_int v (Id' res); Error' := Error' res |}
    else if json.selects key "error"
    then {| Id' := Id' res;
            Error' := json.store_struct set_Error v (Error' res) |}
    else res
  end.

Definition Unmarshal_ResponseError (data : string) (res : ResponseError)
  : ResponseError :=
  match json.parse data with
  | Some v => json.store_struct set_ResponseError v res
  | None => res
  end.

(** Creates a standard response message *)
Definition result (status : bool) (data : any) : Result :=
  {| Status := status; Data := data |}.

(** Handles the response *)
Definition response (data : string) : Result :=
  let res := Unmarshal_ResponseOk data ResponseOk_zero in
  match Result_ res with
  | None =>
    (* error *)
    let res := Unmarshal_ResponseError data ResponseError_zero in
    result false (any_ResponseError res)
  | Some _ =>
    (* okay *)
    result true (any_ResponseOk res)
  end.

(** Makes the request *)
Definition request (y : Yeelight) (cmd : string) : IO Result :=
  let* r := DialTimeout "tcp" (host y +:+ ":" +:+ port y) timeout in
  match r with
  | inr err => ret (result false (any_string (Error_text err)))
  | inl conn =>
    let* _ := SetReadDeadline conn timeout in
    let* _ := Fprintf conn (cmd +:+ CRLF) in
    let* (data, err) := ReadString conn LF in
    let* _ := Close conn in
    match err with
    | Some err => ret (result false (any_string (Error_text err)))
    | None => ret (response data)
    end
  end.

(** Returns a new Yeelight instance *)
Definition New (host port : string) : Yeelight :=
  {| host := host; port := port |}.

Definition GetProp_cmd (values : string) : string :=
  raw "{'id':1,'method':'get_prop','params':[" +:+ values +:+ raw "]}".

Definition GetProp (y : Yeelight) (values : string) : IO Result :=
  request y (GetProp_cmd values).

Definition SetCtAbx_cmd (value effect duration : string) : string :=
  raw "{'id':2,'method':'set_ct_abx','params':[" +:+ value +:+ raw ",'"
  +:+ effect +:+ raw "'," +:+ duration +:+ raw "]}".

Definition SetCtAbx (y : Yeelight) (value effect duration : string)
  : IO Result := request y (SetCtAbx_cmd value effect duration).

Definition SetRGB_cmd (value effect duration : string) : string :=
  raw "{'id':3,'method':'set_rgb','params':[" +:+ value +:+ raw ",'"
  +:+ effect +:+ raw "'," +:+ duration +:+ raw "]}".

Definition SetRGB (y : Yeelight) (value effect duration : string)
  : IO Result := request y (SetRGB_cmd value effect duration).

Definition SetHSV_cmd (hue sat effect duration : string) : string :=
  raw "{'id':4,'method':'set_hsv','params':[" +:+ hue +:+ raw "," +:+ sat
  +:+ raw ",'" +:+ effect +:+ raw "'," +:+ duration +:+ raw "]}".

Definition SetHSV (y : Yeelight) (hue sat effect duration : string)
  : IO Result := request y (SetHSV_cmd hue sat effect duration).

Definition SetBright_cmd (brightness effect duration : string) : string :=
  raw "{'id':5,'method':'set_bright','params':[" +:+ brightness +:+ raw ",'"
  +:+ effect +:+ raw "'," +:+ duration +:+ raw "]}".

Definition SetBright (y : Yeelight) (brightness effect duration : string)
  : IO Result := request y (SetBright_cmd brightness effect duration).

Definition SetPower_cmd (power effect duration : string) : string :=
  raw "{'id':6,'method':'set_power','params':['" +:+ power +:+ raw "','"
  +:+ effect +:+ raw "'," +:+ duration +:+ raw "]}".

Definition SetPower (y : Yeelight) (power effect duration : string)
  : IO Result := request y (SetPower_cmd power effect duration).

Definition Toogle_cmd : string := raw "{'id':7,'method':'toggle','params':[]}".

Definition Toogle (y : Yeelight) : IO Result := request y Toogle_cmd.

Definition SetDefault_cmd : string :=
  raw "{'id':8,'method':'set_default','params':[]}".

Definition SetDefault (y : Yeelight) : IO Result := request y SetDefault_cmd.

Definition StartCf_cmd (count action flowExpression : string) : string :=
  raw "{'id':9,'method':'start_cf','params':[" +:+ count +:+ raw ","
  +:+ action +:+ raw ",'" +:+ flowExpression +:+ raw "']}".

Definition StartCf (y : Yeelight) (count action flowExpression : string)
  : IO Result := request y (StartCf_cmd count action flowExpression).

Definition StopCf_cmd : string :=
  raw "{'id':10,'method':'stop_cf','params':[]}".

Definition StopCf (y : Yeelight) : IO Result := request y StopCf_cmd.

Definition SetScene_cmd (class val1 val2 : string) : string :=
  raw "{'id':11,'method':'set_scene','params':['" +:+ class +:+ raw "',"
  +:+ val1 +:+ raw "," +:+ val2 +:+ raw "]}".

Definition SetScene (y : Yeelight) (class val1 val2 : string) : IO Result :=
  request y (SetScene_cmd class val1 val2).

Definition CronAdd_cmd (t value : string) : string :=
  raw "{'id':12,'method':'cron_add','params':[" +:+ t +:+ raw "," +:+ value
  +:+ raw "]}".

Definition CronAdd (y : Yeelight) (t value : string) : IO Result :=
  request y (CronAdd_cmd t value).

Definition CronGet_cmd (t : string) : string :=
  raw "{'id':13,'method':'cron_get','params':[" +:+ t +:+ raw "]}".

Definition CronGet (y : Yeelight) (t : string) : IO Result :=
  request y (CronGet_cmd t).

Definition CronDel_cmd (t : string) : string :=
  raw "{'id':14,'method':'cron_del','params':[" +:+ t +:+ raw "]}".

Definition CronDel (y : Yeelight) (t : string) : IO Result :=
  request y (CronDel_cmd t).

(** The literal after [prop] is [`]}`]: the quote that should close [prop]
    is not in it. *)
Definition SetAdjust_cmd (action prop : string) : string :=
  raw "{'id':15,'method':'set_adjust','params':['" +:+ action +:+ raw "','"
  +:+ prop +:+ raw "]}".

Definition SetAdjust (y : Yeelight) (action prop : string) : IO Result :=
  request y (SetAdjust_cmd action prop).

Definition SetName_cmd (name : string) : string :=
  raw "{'id':16,'method':'set_name','params':['" +:+ name +:+ raw "']}".

Definition SetName (y : Yeelight) (name : string) : IO Result :=
  request y (SetName_cmd name).

Definition On (y : Yeelight) : IO Result := SetPower y "on" "smooth" "1000".

Definition Off (y : Yeelight) : IO Result := SetPower y "off" "smooth" "1000".

End GoyeelightGo.

(** ** The request encoder that the specification describes

    A request is [{"id": <int>, "method": "<verb>", "params": [...]}]; the
    parameters stand in the given order, a string parameter between double
    quotes, a number or an array literal as it is. *)

Inductive Param : Type :=
| quoted (s : string)
| bare (s : string).

Definition render (p : Param) : string :=
  match p with
  | quoted s => raw "'" +:+ s +:+ raw "'"
  | bare s => s
  end.

Fixpoint commas (l : list string) : string :=
  match l with
  | [] => EmptyString
  | [x] => x
  | x :: rest => x +:+ "," +:+ commas rest
  end.

Definition encode (id method : string) (params : list Param) : string :=
  raw "{'id':" +:+ id +:+ raw ",'method':'" +:+ method +:+ raw "','params':["
  +:+ commas (map render params) +:+ "]}".

(** The names of a property query as [GetProp] writes them: each between
    double quotes and followed by a comma. *)
Fixpoint names_with_commas (values : list string) : string :=
  match values with
  | [] => EmptyString
  | v :: rest => raw "'" +:+ v +:+ raw "'," +:+ names_with_commas rest
  end.

(** ** Reading a log *)

(** The connections that the log opens, in order. *)
Definition opened (log : net.Log) : list net.Conn :=
  omap (fun e => match e with net.Dialed c _ _ => Some c | _ => None end) log.

Definition is_close (c : net.Conn) (e : net.Event) : bool :=
  match e with net.Closed c' => Nat.eqb c c' | _ => false end.

(** How often the log closes [c]. *)
Fixpoint closes (c : net.Conn) (log : net.Log) : nat :=
  match log with
  | [] => 0
  | e :: rest => (if is_close c e then 1 else 0) + closes c rest
  end.

(** The connections that the log opens and does not close. *)
Definition left_open (log : net.Log) : list net.Conn :=
  List.filter (fun c => Nat.eqb (closes c log) 0) (opened log).

(** The writes of the log, in order. *)
Definition writes (log : net.Log) : list string :=
  omap (fun e => match e with net.Wrote _ bytes => Some bytes | _ => None end)
    log.

Fixpoint has_percent (s : string) : bool :=
  match s with
  | EmptyString => false
  | String c r => Ascii.eqb c "%" || has_percent r
  end.

(** A peer that accepts every dial, answers every request with the bytes
    [line] and then hangs up. *)
Definition bulb (line : string) : net.Peer :=
  {| net.accepts := fun _ _ => None;
     net.answers := fun _ => line;
     net.at_end := EOF |}.

(** A peer that refuses every dial. *)
Definition unreachable : net.Peer :=
  {| net.accepts := fun _ _ => Some (OpError "dial tcp" "i/o timeout");
     net.answers := fun _ => EmptyString;
     net.at_end := EOF |}.

(** A peer that accepts the dial and sends [sent], without a line end,
    until the read deadline passes. *)
Definition silent (sent : string) : net.Peer :=
  {| net.accepts := fun _ _ => None;
     net.answers := fun _ => sent;
     net.at_end := OpError "read tcp" "i/o timeout" |}.

(** The lamp of the README. *)
Definition lamp : Part000.Yeelight := Part000.New "192.168.0.27" "55443".
Definition lamp_go : GoyeelightGo.Yeelight :=
  GoyeelightGo.New "192.168.0.27" "55443".

(** The peer accepts a dial to [address]. *)
Definition accepted (peer : net.Peer) (network address : string) : bool :=
  match net.accepts peer network address with
  | None => true
  | Some _ => false
  end.

(** The last entry of the log closes [c]. *)
Definition ends_with_close (c : net.Conn) (log : net.Log) : bool :=
  match last log with
  | Some e => is_close c e
  | None => false
  end.

(** The log opens one connection at most, closes each connection that it
    opens exactly once, does so as its last step, and leaves none open. *)
Definition closes_what_it_opens (log : net.Log) : bool :=
  (length (opened log) <=? 1)
  && forallb (fun c => (closes c log =? 1) && ends_with_close c log)
       (opened log)
  && (length (left_open log) =? 0).

(** ** Reading a response line *)

(** The key of the member [m] selects the field tagged [name]. *)
Definition key_selects (name : string) (m : string * string * json.Value)
  : bool :=
  match json.unquote m.1.1 with
  | Some key => json.selects key name
  | None => false
  end.

(** The last member of [ms] whose key selects the field tagged [name]: the
    one whose value the field holds in the end. *)
Definition last_member (name : string)
    (ms : list (string * string * json.Value))
  : option (string * string * json.Value) :=
  last (List.filter (key_selects name) ms).


(** The line has neither of the two shapes: it is not a JSON text, or its
    value is no object, or it is an object with no member for [result] and
    none for [error]. *)
Definition neither_shape (data : string) : bool :=
  match json.parse data with
  | Some (json.VObject ms) =>
    negb (existsb (key_selects "result") ms)
    && negb (existsb (key_selects "error") ms)
  | _ => true
  end.

(** The line of an error response with the given code and message (the
    message as it stands between the quotes). *)
Definition error_line (code message : string) : string :=
  raw "{'id':1,'error':{'code':" +:+ code +:+ raw ",'message':'" +:+ message
  +:+ raw "'}}" +:+ CRLF.

(** ** The property map *)

(** [m[k] = v] *)
Definition assign (m : gmap string string) (kv : string * string)
  : gmap string string := <[kv.1 := kv.2]> m.

(** The names zipped with the values, each pair assigned in turn: a name
    that occurs again takes the later value. *)
Definition zip_map (values props : list string) : gmap string string :=
  foldl assign ∅ (zip values props).

(** ** String literals *)

(** The texts that the reader accepts between the quotes of a string: bytes
    from [0x20] on other than the quote and the backslash, the two-byte
    escapes, and [\u] with four hexadecimal digits. *)
Inductive scanned : string -> Prop :=
| scanned_nil : scanned EmptyString
| scanned_byte c lit :
    Ascii.eqb c dquote = false -> Ascii.eqb c "\" = false ->
    (byte c <? 32)%N = false ->
    scanned lit -> scanned (String c lit)
| scanned_escape e lit :
    json.is_escape e = true ->
    scanned lit -> scanned (String "\" (String e lit))
| scanned_u h1 h2 h3 h4 lit :
    json.is_hex h1 && json.is_hex h2 && json.is_hex h3 && json.is_hex h4 = true ->
    scanned lit ->
    scanned (String "\" (String "u" (String h1 (String h2 (String h3 (String h4 lit)))))).

(** ** Texts around a JSON value *)

(** Every byte of [s] is white space. *)
Fixpoint all_space (s : string) : bool :=
  match s with
  | EmptyString => true
  | String c r => json.is_space c && all_space r
  end.

(** A text that may stand after a number without becoming part of it: it
    is empty or starts with a byte that is no digit, point or exponent
    sign. *)
Definition boundary (t : string) : bool :=
  match t with
  | EmptyString => true
  | String c _ =>
    negb (is_digit (byte c) || Ascii.eqb c "." || Ascii.eqb c "e"
          || Ascii.eqb c "E")
  end.

(** The text is empty or starts with a byte that is no digit. *)
Definition nodigit (t : string) : bool :=
  match t with
  | EmptyString => true
  | String c _ => negb (is_digit (byte c))
  end.

(** The text is empty or starts with a byte that is no point. *)
Definition nodot (t : string) : bool :=
  match t with
  | EmptyString => true
  | String c _ => negb (Ascii.eqb c ".")
  end.

(** The bytes kept for a member are a JSON text of their own, with the
    member's value. *)
Definition text_ok (m : string * string * json.Value) : Prop :=
  json.parse m.1.2 = Some m.2.

(** [s] is one JSON value, with no space around it, that may stand inside
    [depth] arrays and objects. *)
Definition is_value (depth : N) (s : string) : bool :=
  match json.value (json.enough s) depth s with
  | json.Ok (_, EmptyString) => true
  | _ => false
  end.

(** [s] may stand between the quotes of a JSON string as it is. *)
Definition is_literal (s : string) : bool :=
  match json.string_body (s +:+ String dquote EmptyString) with
  | Some (lit, EmptyString) => String.eqb lit s
  | _ => false
  end.

(** [s] between double quotes. *)
Definition in_quotes (s : string) : string :=
  String dquote (s +:+ String dquote EmptyString).

(** With fuel from [fuel] on, the reader takes [text] for the value [v]
    whatever follows it that cannot be part of a number; [text] does not
    start with a space. *)
Definition reads (fuel : nat) (d : N) (text : string) (v : json.Value)
  : Prop :=
  (exists c r, text = String c r /\ json.is_space c = false)
  /\ forall n t, fuel <= n -> boundary t = true ->
       json.value n d (text +:+ t) = json.Ok (v, t).

(** The line of a success response with the given id and result. *)
Definition success_line (id payload : string) : string :=
  raw "{'id':" +:+ id +:+ raw ",'result':" +:+ payload +:+ raw "}" +:+ CRLF.

(** Every byte of [s] is a printable ASCII character ([0x20] to [0x7E])
    other than the double quote and the backslash. *)
Fixpoint plain (s : string) : bool :=
  match s with
  | EmptyString => true
  | String c r =>
    negb (Ascii.eqb c dquote) && negb (Ascii.eqb c "\")
    && (32 <=? byte c)%N && (byte c <? 127)%N && plain r
  end.

(** The JSON array of the strings [props], each between double quotes. *)
Definition string_array (props : list string) : string :=
  "[" +:+ commas (map in_quotes props) +:+ "]".

(** No byte of [s] is a line feed. *)
Fixpoint nolf (s : string) : bool :=
  match s with
  | EmptyString => true
  | String c r => negb (Ascii.eqb c LF) && nolf r
  end.

(** ** Logs over several calls *)

(** The connections of the log are named [0, 1, ...] in the order of
    their dials, so no name is used twice, and each of them is closed. *)
Definition tidy (log : net.Log) : Prop :=
  opened log = seq 0 (net.dials log) /\ left_open log = [].

(** ** Arrays of values *)

(** The text of an array with the given texts as its elements. *)
Definition array_text (items : list string) : string :=
  "[" +:+ commas items +:+ "]".

(** [json.Unmarshal] of [text] into a string that is empty. *)
Definition as_string (text : string) : string :=
  match json.parse text with
  | Some v => json.store_string v EmptyString
  | None => EmptyString
  end.

(** A parameter that is written as a JSON value: between the quotes a text
    that may stand there, and bare a JSON value (in an array in an
    object). *)
Definition param_ok (p : Param) : bool :=
  match p with
  | quoted s => is_literal s
  | bare s => is_value 2 s
  end.

(** No byte of [s] is the double quote. *)
Fixpoint noquote (s : string) : bool :=
  match s with
  | EmptyString => true
  | String c r => negb (Ascii.eqb c dquote) && noquote r
  end.

(** ** A directive in the command *)

(** A byte that ends a directive when it stands right after the percent
    sign: an ASCII byte that is no flag, no digit, and none of the bracket,
    the star and the point that start an index, a width or a precision. *)
Definition is_verb (c : ascii) : bool :=
  negb (fmt.is_flag c) && negb (is_digit (byte c))
  && negb (existsb (Ascii.eqb c) ["["; "*"; "."]%char)
  && (byte c <? 128)%N.

(** What [Fprintf] writes, without operands, for the percent sign and the
    verb [c]. *)
Definition verb_out (c : ascii) : string :=
  if Ascii.eqb c "%" then "%"
  else "%!" +:+ String c EmptyString +:+ "(MISSING)".

(** ** What an [interface{}] keeps *)

(** The value is a number that float64 does not hold; stored into an
    [interface{}] it is a type error and leaves the field as it was. *)
Definition beyond_float64 (v : json.Value) : bool :=
  match v with
  | json.VNumber lit => json.ParseFloat_overflows lit
  | _ => false
  end.

(** The last member of [ms] whose key selects the field tagged [name] and
    whose value is stored: the one that decides what an [interface{}]
    field holds in the end. *)
Definition last_stored (name : string)
    (ms : list (string * string * json.Value))
  : option (string * string * json.Value) :=
  last (List.filter
          (fun m => key_selects name m && negb (beyond_float64 m.2)) ms).

(** * Properties *)

(** ** Strings *)

Lemma app_cons (c : ascii) (s t : string) :
  String c s +:+ t = String c (s +:+ t).
Proof. reflexivity. Qed.

Lemma app_nil_l (s : string) : EmptyString +:+ s = s.
Proof. reflexivity. Qed.

Lemma app_nil_r (s : string) : s +:+ EmptyString = s.
Proof. induction s as [|c s IH]; [reflexivity|]. by rewrite app_cons, IH. Qed.

Lemma app_assoc (s t u : string) : (s +:+ t) +:+ u = s +:+ t +:+ u.
Proof.
  induction s as [|c s IH]; [reflexivity|]. by rewrite !app_cons, IH.
Qed.

Lemma length_app (s t : string) :
  String.length (s +:+ t) = String.length s + String.length t.
Proof.
  induction s as [|c s IH]; [reflexivity|].
  rewrite app_cons. simpl. by rewrite IH.
Qed.

(** ** The JSON reader does not run out of fuel *)

Lemma skip_space_length (s : string) :
  String.length (json.skip_space s) <= String.length s.
Proof.
  induction s as [|c s IH]; simpl; [lia|].
  destruct (json.is_space c); simpl; lia.
Qed.

Lemma cons_lit_length (l : list ascii) (o : option (string * string))
    (lit rest : string) :
  json.cons_lit l o = Some (lit, rest) ->
  exists lit', o = Some (lit', rest).
Proof.
  destruct o as [[lit' rest']|]; simpl; [|done].
  intros [= _ ->]. by eexists.
Qed.

Lemma string_body_length (s lit rest : string) :
  json.string_body s = Some (lit, rest) ->
  String.length rest < String.length s.
Proof.
  remember (String.length s) as n eqn:Hn.
  revert s lit rest Hn.
  induction n as [n IH] using lt_wf_ind. intros s lit rest -> H.
  destruct s as [|c s]; [done|]. simpl in H.
  destruct (Ascii.eqb c dquote).
  { injection H as _ <-. simpl. lia. }
  destruct (Ascii.eqb c "\").
  - destruct s as [|e s]; [done|].
    destruct (json.is_escape e).
    + apply cons_lit_length in H as [lit' H].
      apply (IH (String.length s)) in H; simpl; [lia..|done].
    + destruct (Ascii.eqb e "u"); [|done].
      destruct s as [|h1 [|h2 [|h3 [|h4 s]]]]; try done.
      destruct (_ && _); [|done].
      apply cons_lit_length in H as [lit' H].
      apply (IH (String.length s)) in H; simpl; [lia..|done].
  - destruct (_ <? _)%N; [done|].
    apply cons_lit_length in H as [lit' H].
    apply (IH (String.length s)) in H; simpl; [lia..|done].
Qed.

Lemma digits_length (s d rest : string) :
  json.digits s = (d, rest) -> String.length rest <= String.length s.
Proof.
  revert d rest. induction s as [|c s IH]; intros d rest; simpl.
  - intros [= _ <-]. simpl. lia.
  - destruct (is_digit (byte c)).
    + destruct (json.digits s) as [d' rest'] eqn:E. intros [= _ <-].
      specialize (IH _ _ eq_refl). lia.
    + intros [= _ <-]. simpl. lia.
Qed.

Lemma number_length (s lit rest : string) :
  json.number s = Some (lit, rest) -> String.length rest < String.length s.
Proof.
  unfold json.number.
  set (p := match s with
            | String c r => if Ascii.eqb c "-" then ("-", r) else (EmptyString, s)
            | EmptyString => (EmptyString, s)
            end).
  assert (String.length p.2 <= String.length s) as Hp.
  { subst p. destruct s as [|c r]; simpl; [lia|].
    destruct (Ascii.eqb c "-"); simpl; lia. }
  destruct p as [sign s0]. simpl in Hp.
  destruct (json.int_part s0) as [[i s1]|] eqn:Hi; [|done]. simpl.
  assert (String.length s1 < String.length s0) as H1.
  { unfold json.int_part in Hi. destruct s0 as [|c r]; [done|].
    destruct (Ascii.eqb c "0").
    - injection Hi as _ <-. simpl. lia.
    - destruct (is_digit (byte c)); [|done].
      destruct (json.digits r) as [d rest'] eqn:E. injection Hi as _ <-.
      apply digits_length in E. simpl. lia. }
  destruct (json.frac_part s1) as [[f s2]|] eqn:Hf; [|done]. simpl.
  assert (String.length s2 <= String.length s1) as H2.
  { unfold json.frac_part in Hf. destruct s1 as [|c r]; [by injection Hf as _ <-|].
    destruct (Ascii.eqb c ".").
    - destruct (json.digits r) as [d rest'] eqn:E.
      apply digits_length in E. destruct d; [done|].
      injection Hf as _ <-. simpl. lia.
    - by injection Hf as _ <-. }
  destruct (json.exp_part s2) as [[e s3]|] eqn:He; [|done]. simpl.
  assert (String.length s3 <= String.length s2) as H3.
  { unfold json.exp_part in He. destruct s2 as [|c r]; [by injection He as _ <-|].
    destruct (_ || _).
    - set (q := match r with
                | String g r' =>
                  if Ascii.eqb g "+" || Ascii.eqb g "-"
                  then (String g EmptyString, r') else (EmptyString, r)
                | EmptyString => (EmptyString, r)
                end) in He.
      assert (String.length q.2 <= String.length r) as Hq.
      { subst q. destruct r as [|g r']; simpl; [lia|].
        destruct (_ || _); simpl; lia. }
      destruct q as [sg r1]. simpl in Hq.
      destruct (json.digits r1) as [d rest'] eqn:E.
      apply digits_length in E. destruct d; [done|].
      injection He as _ <-. simpl. lia.
    - by injection He as _ <-. }
  intros [= _ <-]. lia.
Qed.

Lemma strip_prefix_length (p s rest : string) :
  json.strip_prefix p s = Some rest ->
  String.length rest + String.length p = String.length s.
Proof.
  revert s. induction p as [|a p IH]; intros s; simpl.
  - intros [= <-]. lia.
  - destruct s as [|b s]; [done|]. destruct (Ascii.eqb a b); [|done].
    intros H%IH. simpl. lia.
Qed.

Lemma close_or_cases {A} (c closing : ascii) (more done : json.res A)
    (P : json.res A -> Prop) :
  P more -> P done -> P json.SyntaxError -> P (json.close_or c closing more done).
Proof.
  intros. unfold json.close_or. by repeat destruct (Ascii.eqb _ _).
Qed.

Lemma value_S (fuel : nat) (depth : N) (c : ascii) (r : string) :
  json.value (S fuel) depth (String c r)
  = if Ascii.eqb c "{" then
      if (json.maxNestingDepth <? depth + 1)%N then json.SyntaxError
      else
        match json.skip_space r with
        | EmptyString => json.SyntaxError
        | String d r' as r0 =>
          if Ascii.eqb d "}" then json.Ok (json.VObject [], r')
          else json.members fuel (depth + 1)%N r0 []
        end
    else if Ascii.eqb c "[" then
      if (json.maxNestingDepth <? depth + 1)%N then json.SyntaxError
      else
        match json.skip_space r with
        | EmptyString => json.SyntaxError
        | String d r' as r0 =>
          if Ascii.eqb d "]" then json.Ok (json.VArray [], r')
          else json.elems fuel (depth + 1)%N r0 []
        end
    else if Ascii.eqb c dquote then
      match json.string_body r with
      | Some (lit, rest) => json.Ok (json.VString lit, rest)
      | None => json.SyntaxError
      end
    else if Ascii.eqb c "-" || is_digit (byte c) then
      match json.number (String c r) with
      | Some (lit, rest) => json.Ok (json.VNumber lit, rest)
      | None => json.SyntaxError
      end
    else
      match json.strip_prefix "true" (String c r),
            json.strip_prefix "false" (String c r),
            json.strip_prefix "null" (String c r) with
      | Some rest, _, _ => json.Ok (json.VBool true, rest)
      | _, Some rest, _ => json.Ok (json.VBool false, rest)
      | _, _, Some rest => json.Ok (json.VNull, rest)
      | _, _, _ => json.SyntaxError
      end.
Proof. reflexivity. Qed.

Lemma elems_S (fuel : nat) (depth : N) (s : string) (acc : list json.Value) :
  json.elems (S fuel) depth s acc
  = match json.value fuel depth s with
    | json.Ok (v, r) =>
      match json.skip_space r with
      | EmptyString => json.SyntaxError
      | String c r' =>
        json.close_or c "]"
          (json.elems fuel depth (json.skip_space r') (v :: acc))
          (json.Ok (json.VArray (rev (v :: acc)), r'))
      end
    | json.SyntaxError => json.SyntaxError
    | json.OutOfFuel => json.OutOfFuel
    end.
Proof. reflexivity. Qed.

Lemma members_S (fuel : nat) (depth : N) (s : string)
    (acc : list (string * string * json.Value)) :
  json.members (S fuel) depth s acc
  = match s with
    | EmptyString => json.SyntaxError
    | String q r =>
      if negb (Ascii.eqb q dquote) then json.SyntaxError
      else
        match json.string_body r with
        | None => json.SyntaxError
        | Some (key, r1) =>
          match json.skip_space r1 with
          | EmptyString => json.SyntaxError
          | String c r2 =>
            if negb (Ascii.eqb c ":") then json.SyntaxError
            else
              let r3 := json.skip_space r2 in
              match json.value fuel depth r3 with
              | json.Ok (v, r4) =>
                let text :=
                  json.take_str (String.length r3 - String.length r4) r3 in
                match json.skip_space r4 with
                | EmptyString => json.SyntaxError
                | String c' r5 =>
                  json.close_or c' "}"
                    (json.members fuel depth (json.skip_space r5)
                       ((key, text, v) :: acc))
                    (json.Ok (json.VObject (rev ((key, text, v) :: acc)), r5))
                end
              | json.SyntaxError => json.SyntaxError
              | json.OutOfFuel => json.OutOfFuel
              end
          end
        end
    end.
Proof. reflexivity. Qed.

(** What is read is taken off the text. *)
Lemma value_consumes (fuel : nat) :
  (forall depth s v r,
     json.value fuel depth s = json.Ok (v, r) ->
     String.length r < String.length s)
  /\ (forall depth s acc v r,
     json.elems fuel depth s acc = json.Ok (v, r) ->
     String.length r < String.length s)
  /\ (forall depth s acc v r,
     json.members fuel depth s acc = json.Ok (v, r) ->
     String.length r < String.length s).
Proof.
  induction fuel as [|fuel (IHv & IHe & IHm)]; [by repeat split|].
  split; [|split].
  - intros depth [|c s] v r; [done|]. rewrite value_S.
    pose proof (skip_space_length s) as Hsp.
    destruct (Ascii.eqb c "{").
    { destruct (_ <? _)%N; [done|].
      destruct (json.skip_space s) as [|d r'] eqn:E; [done|].
      destruct (Ascii.eqb d "}").
      - intros [= _ <-]. simpl in *. lia.
      - intros H%IHm. simpl in *. lia. }
    destruct (Ascii.eqb c "[").
    { destruct (_ <? _)%N; [done|].
      destruct (json.skip_space s) as [|d r'] eqn:E; [done|].
      destruct (Ascii.eqb d "]").
      - intros [= _ <-]. simpl in *. lia.
      - intros H%IHe. simpl in *. lia. }
    destruct (Ascii.eqb c dquote).
    { destruct (json.string_body s) as [[lit rest]|] eqn:E; [|done].
      intros [= _ <-]. apply string_body_length in E. simpl. lia. }
    destruct (_ || _).
    { destruct (json.number _) as [[lit rest]|] eqn:E; [|done].
      intros [= _ <-]. by apply number_length in E. }
    destruct (json.strip_prefix "true" _) as [rest|] eqn:E1.
    { intros [= _ <-]. apply strip_prefix_length in E1. simpl in *. lia. }
    destruct (json.strip_prefix "false" _) as [rest|] eqn:E2.
    { intros [= _ <-]. apply strip_prefix_length in E2. simpl in *. lia. }
    destruct (json.strip_prefix "null" _) as [rest|] eqn:E3; [|done].
    intros [= _ <-]. apply strip_prefix_length in E3. simpl in *. lia.
  - intros depth s acc v r. rewrite elems_S.
    destruct (json.value fuel depth s) as [[v1 r1]| |] eqn:E; [|done..].
    apply IHv in E. pose proof (skip_space_length r1) as Hsp.
    destruct (json.skip_space r1) as [|c r'] eqn:E'; [done|].
    pose proof (skip_space_length r') as Hsp'.
    apply close_or_cases; [|intros [= _ <-]|done]; simpl in *.
    + intros H%IHe. lia.
    + lia.
  - intros depth s acc v r. rewrite members_S.
    destruct s as [|q s]; [done|]. destruct (negb _); [done|].
    destruct (json.string_body s) as [[key r1]|] eqn:Ek; [|done].
    apply string_body_length in Ek.
    pose proof (skip_space_length r1) as Hsp1.
    destruct (json.skip_space r1) as [|c r2] eqn:E1; [done|].
    destruct (negb _); [done|]. cbv zeta.
    pose proof (skip_space_length r2) as Hsp2.
    destruct (json.value fuel depth _) as [[v1 r4]| |] eqn:E; [|done..].
    apply IHv in E. pose proof (skip_space_length r4) as Hsp4.
    destruct (json.skip_space r4) as [|c' r5] eqn:E4; [done|].
    pose proof (skip_space_length r5) as Hsp5.
    apply close_or_cases; [|intros [= _ <-]|done]; simpl in *.
    + intros H%IHm. lia.
    + lia.
Qed.

(** With fuel past twice the length of the text the reader does not run
    out of it. *)
Lemma value_has_fuel (fuel : nat) :
  (forall depth s,
     2 * String.length s < fuel ->
     json.value fuel depth s <> json.OutOfFuel)
  /\ (forall depth s acc,
     2 * String.length s + 1 < fuel ->
     json.elems fuel depth s acc <> json.OutOfFuel)
  /\ (forall depth s acc,
     2 * String.length s + 1 < fuel ->
     json.members fuel depth s acc <> json.OutOfFuel).
Proof.
  induction fuel as [|fuel (IHv & IHe & IHm)]; [repeat split; intros; lia|].
  split; [|split].
  - intros depth [|c s] Hfuel; [done|]. rewrite value_S.
    pose proof (skip_space_length s) as Hsp. simpl in Hfuel.
    destruct (Ascii.eqb c "{").
    { destruct (_ <? _)%N; [done|].
      destruct (json.skip_space s) as [|d r'] eqn:E; [done|].
      destruct (Ascii.eqb d "}"); [done|]. apply IHm. lia. }
    destruct (Ascii.eqb c "[").
    { destruct (_ <? _)%N; [done|].
      destruct (json.skip_space s) as [|d r'] eqn:E; [done|].
      destruct (Ascii.eqb d "]"); [done|]. apply IHe. lia. }
    destruct (Ascii.eqb c dquote).
    { by destruct (json.string_body s) as [[lit rest]|]. }
    destruct (_ || _).
    { by destruct (json.number _) as [[lit rest]|]. }
    by repeat destruct (json.strip_prefix _ _).
  - intros depth s acc Hfuel. rewrite elems_S.
    pose proof (IHv depth s ltac:(lia)) as Hv.
    destruct (json.value fuel depth s) as [[v1 r1]| |] eqn:E; [|done..].
    apply (proj1 (value_consumes fuel)) in E.
    pose proof (skip_space_length r1) as Hsp.
    destruct (json.skip_space r1) as [|c r'] eqn:E'; [done|].
    pose proof (skip_space_length r') as Hsp'.
    apply close_or_cases; [|done..]. apply IHe. simpl in *. lia.
  - intros depth s acc Hfuel. rewrite members_S.
    destruct s as [|q s]; [done|]. destruct (negb _); [done|].
    destruct (json.string_body s) as [[key r1]|] eqn:Ek; [|done].
    apply string_body_length in Ek.
    pose proof (skip_space_length r1) as Hsp1.
    destruct (json.skip_space r1) as [|c r2] eqn:E1; [done|].
    destruct (negb _); [done|]. cbv zeta.
    pose proof (skip_space_length r2) as Hsp2. simpl in *.
    pose proof (IHv depth (json.skip_space r2) ltac:(lia)) as Hv.
    destruct (json.value fuel depth _) as [[v1 r4]| |] eqn:E; [|done..].
    apply (proj1 (value_consumes fuel)) in E.
    pose proof (skip_space_length r4) as Hsp4.
    destruct (json.skip_space r4) as [|c' r5] eqn:E4; [done|].
    pose proof (skip_space_length r5) as Hsp5.
    apply close_or_cases; [|done..]. apply IHm. simpl in *. lia.
Qed.

(** Fuel that is not used up may be added to without effect. *)
Lemma value_more_fuel (fuel : nat) :
  (forall depth s k,
     json.value fuel depth s <> json.OutOfFuel ->
     json.value (fuel + k) depth s = json.value fuel depth s)
  /\ (forall depth s acc k,
     json.elems fuel depth s acc <> json.OutOfFuel ->
     json.elems (fuel + k) depth s acc = json.elems fuel depth s acc)
  /\ (forall depth s acc k,
     json.members fuel depth s acc <> json.OutOfFuel ->
     json.members (fuel + k) depth s acc = json.members fuel depth s acc).
Proof.
  induction fuel as [|fuel (IHv & IHe & IHm)]; [by repeat split|].
  split; [|split].
  - intros depth [|c s] k; [done|].
    replace (S fuel + k) with (S (fuel + k)) by lia. rewrite !value_S.
    destruct (Ascii.eqb c "{").
    { destruct (_ <? _)%N; [done|].
      destruct (json.skip_space s) as [|d r'] eqn:E; [done|].
      destruct (Ascii.eqb d "}"); [done|]. apply IHm. }
    destruct (Ascii.eqb c "["); [|done].
    destruct (_ <? _)%N; [done|].
    destruct (json.skip_space s) as [|d r'] eqn:E; [done|].
    destruct (Ascii.eqb d "]"); [done|]. apply IHe.
  - intros depth s acc k.
    replace (S fuel + k) with (S (fuel + k)) by lia. rewrite !elems_S.
    intros H. rewrite IHv by (intros E; by rewrite E in H).
    destruct (json.value fuel depth s) as [[v1 r1]| |]; [|done..].
    destruct (json.skip_space r1) as [|c r']; [done|].
    revert H. unfold json.close_or.
    destruct (Ascii.eqb c ","); [apply IHe|done].
  - intros depth s acc k.
    replace (S fuel + k) with (S (fuel + k)) by lia. rewrite !members_S.
    destruct s as [|q s]; [done|]. destruct (negb _); [done|].
    destruct (json.string_body s) as [[key r1]|]; [|done].
    destruct (json.skip_space r1) as [|c r2]; [done|].
    destruct (negb _); [done|]. cbv zeta.
    intros H. rewrite IHv by (intros E; by rewrite E in H).
    destruct (json.value fuel depth _) as [[v1 r4]| |]; [|done..].
    destruct (json.skip_space r4) as [|c' r5]; [done|].
    revert H. unfold json.close_or.
    destruct (Ascii.eqb c' ","); [apply IHm|done].
Qed.

(** The fuel that [parse] gives is enough: the reader does not run out of
    it, and with more fuel it reads the same. *)
Theorem parse_fuel_is_enough (data : string) (k : nat) :
  let s := json.skip_space data in
  json.value (json.enough s) 0 s <> json.OutOfFuel
  /\ json.value (json.enough s + k) 0 s = json.value (json.enough s) 0 s.
Proof.
  intros s.
  assert (json.value (json.enough s) 0 s <> json.OutOfFuel) as H.
  { apply value_has_fuel. unfold json.enough. lia. }
  split; [exact H|]. by apply value_more_fuel.
Qed.

(** ** [unquote] does not fail on what the reader accepts *)

Lemma string_body_scanned (s lit rest : string) :
  json.string_body s = Some (lit, rest) -> scanned lit.
Proof.
  remember (String.length s) as n eqn:Hn.
  revert s lit rest Hn.
  induction n as [n IH] using lt_wf_ind. intros s lit rest -> H.
  destruct s as [|c s]; [done|]. simpl in H.
  destruct (Ascii.eqb c dquote) eqn:Hq.
  { injection H as <- _. constructor. }
  destruct (Ascii.eqb c "\") eqn:Hb.
  - apply Ascii.eqb_eq in Hb as ->.
    destruct s as [|e s]; [done|].
    destruct (json.is_escape e) eqn:He.
    + destruct (json.string_body s) as [[lit' rest']|] eqn:E; [|done].
      injection H as <- _. simpl. apply scanned_escape; [done|].
      eapply (IH (String.length s)); [simpl; lia|done..].
    + destruct (Ascii.eqb e "u") eqn:Hu; [|done].
      apply Ascii.eqb_eq in Hu as ->.
      destruct s as [|h1 [|h2 [|h3 [|h4 s]]]]; try done.
      destruct (_ && _) eqn:Hhex; [|done].
      destruct (json.string_body s) as [[lit' rest']|] eqn:E; [|done].
      injection H as <- _. simpl. apply scanned_u; [done|].
      eapply (IH (String.length s)); [simpl; lia|done..].
  - destruct (_ <? _)%N eqn:Hlow; [done|].
    destruct (json.string_body s) as [[lit' rest']|] eqn:E; [|done].
    injection H as <- _. simpl. apply scanned_byte; [done..|].
    eapply (IH (String.length s)); [simpl; lia|done..].
Qed.

Lemma unquote_loop_skip (skip : nat) (s : string) :
  json.unquote_loop skip s = json.unquote_loop 0 (drop_str skip s).
Proof.
  revert s. induction skip as [|k IH]; intros s; [reflexivity|].
  destruct s as [|c s]; [reflexivity|]. simpl. by rewrite IH.
Qed.

Lemma drop_str_length (n : nat) (s : string) :
  String.length (drop_str n s) <= String.length s.
Proof.
  revert s. induction n as [|n IH]; intros s; simpl; [lia|].
  destruct s as [|c s]; simpl; [lia|]. specialize (IH s). lia.
Qed.

Lemma scanned_after_high_byte (c : ascii) (lit : string) :
  scanned (String c lit) -> (128 <=? byte c)%N = true -> scanned lit.
Proof. intros H Hc. inversion H; subst; done. Qed.

Lemma first_second_byte (b0 : N) (size : nat) (lo hi b1 : N) :
  utf8.first b0 = Some (size, lo, hi) -> utf8.between lo hi b1 = true ->
  (128 <=? b1)%N = true.
Proof.
  unfold utf8.first, utf8.between.
  repeat (destruct (_ : bool); [intros [= <- <- <-]; intros H;
    apply andb_true_iff in H as [H _]; apply N.leb_le in H;
    apply N.leb_le; lia|]).
  done.
Qed.

Lemma between_high (b : N) :
  utf8.between 128 191 b = true -> (128 <=? b)%N = true.
Proof. unfold utf8.between. by intros [H _]%andb_true_iff. Qed.

(** A rune that starts with a byte from [0x80] on is decoded from bytes
    that stand in the literal as they are. *)
Lemma DecodeRune_scanned (c : ascii) (lit : string) :
  scanned lit ->
  let '(rr, size) := utf8.DecodeRuneInString (String c lit) in
  1 <= size /\ scanned (drop_str size (String c lit)).
Proof.
  intros Hlit. unfold utf8.DecodeRuneInString.
  destruct (_ <? _)%N; [by split|].
  destruct (utf8.first (byte c)) as [[[size lo] hi]|] eqn:Hfirst; [|by split].
  destruct lit as [|c1 r1]; [by split|].
  destruct (utf8.between lo hi (byte c1)) eqn:H1; [|by split]. simpl negb.
  cbv iota.
  pose proof (scanned_after_high_byte _ _ Hlit
                (first_second_byte _ _ _ _ _ Hfirst H1)) as Hr1.
  destruct size as [|[|[|[|[|size]]]]]; try by split.
  - split; [lia|done].
  - destruct r1 as [|c2 r2]; [by split|].
    destruct (utf8.between 128 191 (byte c2)) eqn:H2; [|by split].
    split; [simpl; lia|]. simpl.
    exact (scanned_after_high_byte _ _ Hr1 (between_high _ H2)).
  - destruct r1 as [|c2 [|c3 r3]]; [by split..|].
    destruct (utf8.between 128 191 (byte c2)) eqn:H2; [|by split].
    destruct (utf8.between 128 191 (byte c3)) eqn:H3; [|by split].
    split; [simpl; lia|]. simpl.
    pose proof (scanned_after_high_byte _ _ Hr1 (between_high _ H2)) as Hr2.
    exact (scanned_after_high_byte _ _ Hr2 (between_high _ H3)).
Qed.

Lemma is_escape_simple (e : ascii) :
  json.is_escape e = true ->
  Ascii.eqb e "u" = false /\ exists d, json.simple_escape e = Some d.
Proof.
  unfold json.is_escape. simpl. rewrite orb_false_r.
  repeat (intros [H|H]%orb_true_iff; [apply Ascii.eqb_eq in H as ->;
    split; [reflexivity|by eexists]|revert H]).
  intros H. apply Ascii.eqb_eq in H as ->. split; [reflexivity|by eexists].
Qed.

Lemma getu4_scanned (lit : string) (r1 : N) :
  scanned lit -> json.getu4 lit = Some r1 -> scanned (drop_str 6 lit).
Proof.
  intros Hlit Hu. unfold json.getu4 in Hu.
  destruct lit as [|b [|u [|h1 [|h2 [|h3 [|h4 lit']]]]]]; try done.
  destruct (Ascii.eqb b "\") eqn:Hb; [|done].
  destruct (Ascii.eqb u "u") eqn:Hu'; [|done].
  apply Ascii.eqb_eq in Hb as ->. apply Ascii.eqb_eq in Hu' as ->.
  simpl. inversion Hlit; subst; done.
Qed.

(** One step of [unquote] on an accepted literal succeeds, reads at least
    one byte and stops where an accepted literal goes on. *)
Lemma unquote_step_scanned (c : ascii) (lit : string) :
  scanned (String c lit) ->
  exists out n,
    json.unquote_step (String c lit) = Some (out, n)
    /\ 1 <= n /\ scanned (drop_str n (String c lit)).
Proof.
  intros H. inversion H as [|c' lit' Hq Hb Hlow Hlit|e lit' He Hlit
                            |h1 h2 h3 h4 lit' Hhex Hlit]; subst.
  - unfold json.unquote_step. rewrite Hb, Hq, Hlow. simpl orb. cbv iota.
    destruct (byte c <? utf8.RuneSelf)%N.
    + eexists _, 1. split; [reflexivity|]. by split.
    + pose proof (DecodeRune_scanned c lit Hlit) as Hdec.
      destruct (utf8.DecodeRuneInString _) as [rr size].
      destruct Hdec as [Hsize Hrest]. by eexists _, size.
  - destruct (is_escape_simple _ He) as [Hu [d Hd]].
    unfold json.unquote_step. simpl. rewrite Hu, Hd.
    eexists _, 2. split; [reflexivity|]. split; [lia|done].
  - unfold json.unquote_step.
    change (Ascii.eqb "\" "\") with true. cbv iota.
    change (Ascii.eqb "u" "u") with true. cbv iota.
    assert (exists rr,
      json.getu4 (String "\" (String "u" (String h1 (String h2 (String h3
         (String h4 lit')))))) = Some rr) as [rr Hrr].
    { unfold json.getu4. simpl. simpl in Hhex. rewrite Hhex. by eexists. }
    rewrite Hrr. destruct (json.IsSurrogate rr).
    + change (drop_str 6 (String "\" (String "u" (String h1 (String h2
               (String h3 (String h4 lit'))))))) with lit'.
      destruct (json.getu4 lit') as [r1|] eqn:Hr1.
      * destruct (negb _).
        -- eexists _, 12. split; [reflexivity|]. split; [lia|].
           simpl. by eapply getu4_scanned.
        -- eexists _, 6. split; [reflexivity|]. split; [lia|done].
      * simpl. eexists _, 6. split; [reflexivity|]. split; [lia|done].
    + eexists _, 6. split; [reflexivity|]. split; [lia|done].
Qed.

Lemma unquote_scanned (lit : string) :
  scanned lit -> is_Some (json.unquote lit).
Proof.
  unfold json.unquote.
  remember (String.length lit) as n eqn:Hn. revert lit Hn.
  induction n as [n IH] using lt_wf_ind. intros lit -> Hlit.
  destruct lit as [|c lit]; [by eexists|].
  destruct (unquote_step_scanned c lit Hlit) as (out & k & Hstep & Hk & Hrest).
  change (json.unquote_loop 0 (String c lit))
    with ('(out, n) ← json.unquote_step (String c lit);
          rest ← json.unquote_loop (n - 1) lit; Some (out +:+ rest)).
  rewrite Hstep. simpl. rewrite unquote_loop_skip.
  destruct k as [|k]; [lia|]. simpl in Hrest.
  replace (S k - 1) with k by lia.
  destruct (IH (String.length (drop_str k lit))) with (lit := drop_str k lit)
    as [rest Hr]; [|done..|].
  - pose proof (drop_str_length k lit). simpl. lia.
  - rewrite Hr. by eexists.
Qed.

(** The strings and the keys that the reader yields can be unquoted, so
    [unquote] gives [None] for none of them. *)
Theorem unquote_of_read_string (s lit rest : string) :
  json.string_body s = Some (lit, rest) -> is_Some (json.unquote lit).
Proof. intros H. eapply unquote_scanned, string_body_scanned, H. Qed.

(** Literals are evaluated, appends are nested to the right. *)
Ltac eval_raw :=
  repeat match goal with
  | |- context [raw ?s] =>
    let v := eval vm_compute in (raw s) in change (raw s) with v
  end.

Ltac str_norm :=
  eval_raw; rewrite ?app_assoc; rewrite ?app_cons, ?app_nil_l, ?app_nil_r.

(** ** The command catalog *)

(** In [part_000] every method of the catalog but [GetProp] writes the
    request that the specification describes for its parameters. *)
Lemma Part000_catalog_encodes :
  (forall v e d, Part000.SetCtAbx_cmd v e d
     = encode "2" "set_ct_abx" [bare v; quoted e; bare d])
  /\ (forall v e d, Part000.SetRGB_cmd v e d
     = encode "3" "set_rgb" [bare v; quoted e; bare d])
  /\ (forall h s e d, Part000.SetHSV_cmd h s e d
     = encode "4" "set_hsv" [bare h; bare s; quoted e; bare d])
  /\ (forall b e d, Part000.SetBright_cmd b e d
     = encode "5" "set_bright" [bare b; quoted e; bare d])
  /\ (forall p e d, Part000.SetPower_cmd p e d
     = encode "6" "set_power" [quoted p; quoted e; bare d])
  /\ Part000.Toogle_cmd = encode "7" "toggle" []
  /\ Part000.SetDefault_cmd = encode "8" "set_default" []
  /\ (forall c a f, Part000.StartCf_cmd c a f
     = encode "9" "start_cf" [bare c; bare a; quoted f])
  /\ Part000.StopCf_cmd = encode "10" "stop_cf" []
  /\ (forall c v, Part000.SetScene_cmd c v
     = encode "11" "set_scene" [quoted c; bare v])
  /\ (forall t v, Part000.CronAdd_cmd t v
     = encode "12" "cron_add" [bare t; bare v])
  /\ (forall t, Part000.CronGet_cmd t = encode "13" "cron_get" [bare t])
  /\ (forall t, Part000.CronDel_cmd t = encode "14" "cron_del" [bare t])
  /\ (forall a p, Part000.SetAdjust_cmd a p
     = encode "15" "set_adjust" [quoted a; quoted p])
  /\ (forall n, Part000.SetName_cmd n = encode "16" "set_name" [quoted n]).
Proof.
  repeat apply conj; intros;
    cbv [Part000.SetCtAbx_cmd Part000.SetRGB_cmd Part000.SetHSV_cmd
         Part000.SetBright_cmd Part000.SetPower_cmd Part000.Toogle_cmd
         Part000.SetDefault_cmd Part000.StartCf_cmd Part000.StopCf_cmd
         Part000.SetScene_cmd Part000.CronAdd_cmd Part000.CronGet_cmd
         Part000.CronDel_cmd Part000.SetAdjust_cmd Part000.SetName_cmd
         encode commas map render];
    str_norm; reflexivity.
Qed.

(** In [goyeelight.go] [SetAdjust] is the one method of those that the two
    revisions share by signature whose line is not the request described:
    whatever the arguments, the text lacks the quote that closes [prop]. *)
Lemma GoyeelightGo_SetAdjust_never_encodes (action prop : string) :
  GoyeelightGo.SetAdjust_cmd action prop
  <> encode "15" "set_adjust" [quoted action; quoted prop].
Proof.
  intros H. apply (f_equal String.length) in H.
  cbv [GoyeelightGo.SetAdjust_cmd encode commas map render] in H.
  rewrite !length_app in H.
  generalize dependent (String.length action).
  generalize dependent (String.length prop).
  intros p a H. cbn in H. lia.
Qed.

(** C7 (the defect): in [goyeelight.go], [SetAdjust("increase", "bright")]
    encodes a line in which the second parameter has its opening quote
    only; the line is not the request that quotes both parameters, and it
    is not a JSON text. *)
Theorem C7_SetAdjust_prop_lacks_closing_quote :
  GoyeelightGo.SetAdjust_cmd "increase" "bright"
  = raw "{'id':15,'method':'set_adjust','params':['increase','bright]}"
  /\ GoyeelightGo.SetAdjust_cmd "increase" "bright"
     <> encode "15" "set_adjust" [quoted "increase"; quoted "bright"]
  /\ json.Valid (GoyeelightGo.SetAdjust_cmd "increase" "bright") = false
  /\ Part000.SetAdjust_cmd "increase" "bright"
     = raw "{'id':15,'method':'set_adjust','params':['increase','bright']}".
Proof.
  split; [reflexivity|]. split; [|split; reflexivity].
  apply GoyeelightGo_SetAdjust_never_encodes.
Qed.

Lemma fold_left_names (values : list string) (init : string) :
  fold_left (fun cmd value => cmd +:+ (raw "'" +:+ value +:+ raw "',"))
    values init
  = init +:+ names_with_commas values.
Proof.
  revert init. induction values as [|v values IH]; intros init; simpl.
  - by rewrite app_nil_r.
  - by rewrite IH, app_assoc, !app_assoc.
Qed.

Lemma names_with_commas_app (l1 l2 : list string) :
  names_with_commas (l1 ++ l2)
  = names_with_commas l1 +:+ names_with_commas l2.
Proof.
  induction l1 as [|v l1 IH]; [reflexivity|].
  simpl. by rewrite IH, !app_assoc.
Qed.

(** The command of [GetProp] is the fixed head, then each name between
    double quotes and followed by a comma, then the closing text. *)
Lemma Part000_GetProp_cmd_text (values : list string) :
  Part000.GetProp_cmd values
  = raw "{'id':1,'method':'get_prop','params':["
    +:+ names_with_commas values +:+ "]}".
Proof.
  unfold Part000.GetProp_cmd. by rewrite fold_left_names, app_assoc.
Qed.

(** With the comma before the bracket the command is no JSON text; for the
    empty list it is one. *)
Example GetProp_cmd_validity :
  json.Valid (Part000.GetProp_cmd ["power"; "bright"]) = false
  /\ json.Valid (Part000.GetProp_cmd []) = true.
Proof. by vm_compute. Qed.

(** ** The transport *)

Lemma doPrintf_plain (s : string) :
  has_percent s = false -> fmt.doPrintf s = s.
Proof.
  unfold fmt.doPrintf. induction s as [|c s IH]; [reflexivity|].
  simpl. intros [Hc Hs]%orb_false_elim. rewrite Hc. by rewrite IH.
Qed.

Lemma has_percent_app (s t : string) :
  has_percent (s +:+ t) = has_percent s || has_percent t.
Proof.
  induction s as [|c s IH]; [reflexivity|].
  rewrite app_cons. simpl. by rewrite IH, orb_assoc.
Qed.

(** What [request] does, step by step: a refused dial is logged and its
    error returned; on an accepted dial the deadline is set, the formatted
    command is written, one line is read, the connection is closed, and
    only then the outcome of the read is looked at. *)
Lemma Part000_request_steps (y : Part000.Yeelight) (cmd : string)
    (peer : net.Peer) (log : net.Log) :
  let address := Part000.host y +:+ ":" +:+ Part000.port y in
  let c := net.dials log in
  Part000.request y cmd peer log
  = match net.accepts peer "tcp" address with
    | Some err =>
      ((EmptyString, Some err), log ++ [net.DialFailed "tcp" address])
    | None =>
      let log1 :=
        (((log ++ [net.Dialed c "tcp" address]) ++ [net.DeadlineSet c Part000.timeout])
          ++ [net.Wrote c (fmt.doPrintf (cmd +:+ CRLF))]) in
      let incoming := net.answers peer (net.written c log1) in
      (match net.up_to LF incoming with
       | Some line => Part000.response line
       | None => (EmptyString, Some (net.at_end peer))
       end,
       ((log1 ++ [net.ReadLine c]) ++ [net.Closed c]))
    end.
Proof.
  cbv [Part000.request net.bind net.DialTimeout net.SetReadDeadline
       net.Fprintf net.ReadString net.Close net.emit net.ret].
  destruct (net.accepts peer "tcp" _); [reflexivity|].
  by destruct (net.up_to LF _).
Qed.

Lemma GoyeelightGo_request_steps (y : GoyeelightGo.Yeelight) (cmd : string)
    (peer : net.Peer) (log : net.Log) :
  let address := GoyeelightGo.host y +:+ ":" +:+ GoyeelightGo.port y in
  let c := net.dials log in
  GoyeelightGo.request y cmd peer log
  = match net.accepts peer "tcp" address with
    | Some err =>
      (GoyeelightGo.result false (GoyeelightGo.any_string (Error_text err)),
       log ++ [net.DialFailed "tcp" address])
    | None =>
      let log1 :=
        (((log ++ [net.Dialed c "tcp" address]) ++ [net.DeadlineSet c GoyeelightGo.timeout])
          ++ [net.Wrote c (fmt.doPrintf (cmd +:+ CRLF))]) in
      let incoming := net.answers peer (net.written c log1) in
      (match net.up_to LF incoming with
       | Some line => GoyeelightGo.response line
       | None =>
         GoyeelightGo.result false
           (GoyeelightGo.any_string (Error_text (net.at_end peer)))
       end,
       ((log1 ++ [net.ReadLine c]) ++ [net.Closed c]))
    end.
Proof.
  cbv [GoyeelightGo.request net.bind net.DialTimeout net.SetReadDeadline
       net.Fprintf net.ReadString net.Close net.emit net.ret].
  destruct (net.accepts peer "tcp" _); [reflexivity|].
  by destruct (net.up_to LF _).
Qed.

(** C8: whatever the peer does, [request] adds to the log at most one dial;
    when the dial is accepted it opens exactly one connection, closes it
    exactly once, and the close is its last step, whether the read fails,
    the response is an error or the call succeeds; when the dial is refused
    there is no connection.  This holds in both revisions. *)
Theorem C8_request_closes_the_connection_it_opens :
  (forall y cmd peer log, exists new,
     (Part000.request y cmd peer log).2 = log ++ new
     /\ closes_what_it_opens new = true
     /\ length (opened new)
        = if accepted peer "tcp" (Part000.host y +:+ ":" +:+ Part000.port y)
          then 1 else 0)
  /\ (forall y cmd peer log, exists new,
     (GoyeelightGo.request y cmd peer log).2 = log ++ new
     /\ closes_what_it_opens new = true
     /\ length (opened new)
        = if accepted peer "tcp"
               (GoyeelightGo.host y +:+ ":" +:+ GoyeelightGo.port y)
          then 1 else 0).
Proof.
  split; intros y cmd peer log.
  - rewrite Part000_request_steps. unfold accepted.
    destruct (net.accepts peer "tcp" _) as [err|].
    + eexists. split; [reflexivity|]. by split.
    + eexists. split; [simpl; by rewrite <- !(assoc_L (++))|].
      cbv [closes_what_it_opens left_open opened closes ends_with_close
           is_close omap list_omap forallb List.filter last length app].
      by rewrite !Nat.eqb_refl.
  - rewrite GoyeelightGo_request_steps. unfold accepted.
    destruct (net.accepts peer "tcp" _) as [err|].
    + eexists. split; [reflexivity|]. by split.
    + eexists. split; [simpl; by rewrite <- !(assoc_L (++))|].
      cbv [closes_what_it_opens left_open opened closes ends_with_close
           is_close omap list_omap forallb List.filter last length app].
      by rewrite !Nat.eqb_refl.
Qed.

(** The failure paths of [request]: a refused dial opens nothing; a read
    that meets its deadline closes the connection and returns the error of
    the read, without the bytes read. *)
Example request_unreachable :
  Part000.Toogle lamp unreachable []
  = ((EmptyString, Some (OpError "dial tcp" "i/o timeout")),
     [net.DialFailed "tcp" "192.168.0.27:55443"]).
Proof. reflexivity. Qed.

Example request_read_timeout :
  Part000.Toogle lamp (silent (raw "{'id':7,")) []
  = ((EmptyString, Some (OpError "read tcp" "i/o timeout")),
     [net.Dialed 0 "tcp" "192.168.0.27:55443";
      net.DeadlineSet 0 Part000.timeout;
      net.Wrote 0 (Part000.Toogle_cmd +:+ CRLF);
      net.ReadLine 0; net.Closed 0]).
Proof. reflexivity. Qed.

(** A command without a percent sign is written as it is, with CRLF after
    it, in one write. *)
Lemma Part000_request_writes_plain_command (y : Part000.Yeelight)
    (cmd : string) (peer : net.Peer) :
  has_percent cmd = false ->
  accepted peer "tcp" (Part000.host y +:+ ":" +:+ Part000.port y) = true ->
  writes (Part000.request y cmd peer []).2 = [cmd +:+ CRLF].
Proof.
  intros Hcmd Hacc. rewrite Part000_request_steps. unfold accepted in Hacc.
  destruct (net.accepts peer "tcp" _); [done|]. simpl.
  rewrite doPrintf_plain; [done|]. by rewrite has_percent_app, Hcmd.
Qed.

(** C5 (the defect): the command is passed to [Fprintf] as its format, so a
    percent sign in it is read as the start of a directive.  For
    [SetName("50%")] the bytes written are not the command line followed
    by CRLF: where the command has the percent sign and the closing quote,
    the bytes have [%!], the quote and [(MISSING)].  Both revisions do
    so. *)
Theorem C5_percent_sign_is_formatted_not_sent :
  writes (Part000.SetName lamp "50%"
            (bulb (raw "{'id':16,'result':['ok']}" +:+ CRLF)) []).2
  = [raw "{'id':16,'method':'set_name','params':['50%!'(MISSING)]}" +:+ CRLF]
  /\ writes (Part000.SetName lamp "50%"
               (bulb (raw "{'id':16,'result':['ok']}" +:+ CRLF)) []).2
     <> [Part000.SetName_cmd "50%" +:+ CRLF]
  /\ writes (GoyeelightGo.SetName lamp_go "50%"
               (bulb (raw "{'id':16,'result':['ok']}" +:+ CRLF)) []).2
     = [raw "{'id':16,'method':'set_name','params':['50%!'(MISSING)]}"
        +:+ CRLF].
Proof. by vm_compute. Qed.

(** ** The power wrappers *)

(** C6: [On] and [Off] are [SetPower] at ["on"] and ["off"] with
    ["smooth"] and ["1000"]: as computations they are equal, so for every
    peer they leave the same log, the command line in it included, and
    return the same result; the command is the line shown.  This holds in
    both revisions. *)
Theorem C6_On_Off_are_SetPower :
  (forall y, Part000.On y = Part000.SetPower y "on" "smooth" "1000")
  /\ (forall y, Part000.Off y = Part000.SetPower y "off" "smooth" "1000")
  /\ (forall y, Part000.On y
        = Part000.request y
            (raw "{'id':6,'method':'set_power','params':['on','smooth',1000]}"))
  /\ (forall y, Part000.Off y
        = Part000.request y
            (raw "{'id':6,'method':'set_power','params':['off','smooth',1000]}"))
  /\ (forall y, GoyeelightGo.On y
        = GoyeelightGo.SetPower y "on" "smooth" "1000")
  /\ (forall y, GoyeelightGo.Off y
        = GoyeelightGo.SetPower y "off" "smooth" "1000")
  /\ (forall y, GoyeelightGo.On y
        = GoyeelightGo.request y
            (raw "{'id':6,'method':'set_power','params':['on','smooth',1000]}"))
  /\ (forall y, GoyeelightGo.Off y
        = GoyeelightGo.request y
            (raw "{'id':6,'method':'set_power','params':['off','smooth',1000]}")).
Proof. repeat apply conj; intros y; reflexivity. Qed.

(** ** Decoding a response *)

Lemma selects_id_not_result (key : string) :
  json.selects key "id" = true -> json.selects key "result" = false.
Proof.
  unfold json.selects. intros [H|H]%orb_true_elim.
  - apply String.eqb_eq in H. by subst key.
  - apply String.eqb_eq in H. rewrite H.
    destruct (String.eqb key "result") eqn:E; [|reflexivity].
    apply String.eqb_eq in E. by subst key.
Qed.

Lemma last_member_cons (name : string) (m : string * string * json.Value)
    (ms : list (string * string * json.Value)) :
  last_member name (m :: ms)
  = match last_member name ms with
    | Some m' => Some m'
    | None => if key_selects name m then Some m else None
    end.
Proof.
  unfold last_member. simpl.
  destruct (key_selects name m).
  - rewrite last_cons. by destruct (last _).
  - by destruct (last _).
Qed.

Lemma last_member_none (name : string)
    (ms : list (string * string * json.Value)) :
  existsb (key_selects name) ms = false -> last_member name ms = None.
Proof.
  induction ms as [|m ms IH]; [reflexivity|].
  simpl. intros [Hm Hms]%orb_false_elim.
  by rewrite last_member_cons, IH, Hm.
Qed.

(** The [Result] that the members of an object leave in a [ResponseOk]:
    the bytes of the last member for [result], whatever its value; without
    such a member the field stays as it was. *)
Lemma Part000_Result_of_members (ms : list (string * string * json.Value))
    (res : Part000.ResponseOk) :
  Part000.Result (fold_left Part000.set_ResponseOk ms res)
  = match last_member "result" ms with
    | Some m => Some m.1.2
    | None => Part000.Result res
    end.
Proof.
  revert res. induction ms as [|m ms IH]; intros res; [reflexivity|].
  simpl. rewrite IH, last_member_cons.
  destruct (last_member "result" ms); [reflexivity|].
  destruct m as [[keylit text] v]. unfold Part000.set_ResponseOk, key_selects.
  simpl. destruct (json.unquote keylit) as [key|]; [|reflexivity].
  destruct (json.selects key "id") eqn:Hid.
  - by rewrite (selects_id_not_result _ Hid).
  - by destruct (json.selects key "result").
Qed.

(** Without a member for [error] the [Error] of a [ResponseError] stays as
    it was. *)
Lemma Part000_Error_without_member
    (ms : list (string * string * json.Value)) (res : Part000.ResponseError) :
  existsb (key_selects "error") ms = false ->
  Part000.Error' (fold_left Part000.set_ResponseError ms res)
  = Part000.Error' res.
Proof.
  revert res. induction ms as [|m ms IH]; intros res; [reflexivity|].
  simpl. intros [Hm Hms]%orb_false_elim. rewrite IH by done.
  destruct m as [[keylit text] v].
  unfold Part000.set_ResponseError, key_selects in *. simpl in *.
  destruct (json.unquote keylit) as [key|]; [|reflexivity].
  destruct (json.selects key "id"); [reflexivity|]. by rewrite Hm.
Qed.

(** How [response] reads a line.  A line that is an object with a member
    for [result] is a success, and the bytes of that member are returned
    as they are; want of such a member makes it an error with the message
    that the error shape holds; any other line is an error with the empty
    message. *)
Lemma Part000_response_cases (data : string) :
  Part000.response data
  = match json.parse data with
    | Some (json.VObject ms) =>
      match last_member "result" ms with
      | Some m => (m.1.2, None)
      | None =>
        (EmptyString,
         Some (errors_New
                 (Part000.Message
                    (Part000.Error'
                       (fold_left Part000.set_ResponseError ms
                          Part000.ResponseError_zero)))))
      end
    | _ => (EmptyString, Some (errors_New EmptyString))
    end.
Proof.
  unfold Part000.response, Part000.Unmarshal_ResponseOk,
    Part000.Unmarshal_ResponseError.
  destruct (json.parse data) as [v|]; [|reflexivity].
  destruct v; try reflexivity.
  unfold json.store_struct. rewrite Part000_Result_of_members.
  by destruct (last_member "result" members).
Qed.


Lemma Part000_response_neither_shape (data : string) :
  neither_shape data = true ->
  Part000.response data = (EmptyString, Some (errors_New EmptyString)).
Proof.
  rewrite Part000_response_cases. unfold neither_shape.
  destruct (json.parse data) as [v|]; [|reflexivity].
  destruct v; try reflexivity.
  intros [Hres Herr]%andb_true_iff.
  apply negb_true_iff in Hres, Herr.
  by rewrite last_member_none, Part000_Error_without_member.
Qed.

(** The examples of the specification. *)
Example response_of_a_success_line :
  Part000.response (raw "{'id':1,'result':['on','100']}" +:+ CRLF)
  = (raw "['on','100']", None).
Proof. reflexivity. Qed.

Example response_of_an_error_line :
  Part000.response
    (raw "{'id':1,'error':{'code':-1,'message':'unsupported method'}}")
  = (EmptyString, Some (errors_New "unsupported method")).
Proof. reflexivity. Qed.

(** In [goyeelight.go], where [Result] is an [interface{}], a line whose
    result is [null] takes the error path, as a line without result
    does. *)
Lemma GoyeelightGo_null_result_is_an_error :
  GoyeelightGo.Status
    (GoyeelightGo.response (raw "{'id':1,'result':null}" +:+ CRLF)) = false
  /\ GoyeelightGo.Status (GoyeelightGo.response (raw "{'id':1}" +:+ CRLF))
     = false
  /\ GoyeelightGo.Status
       (GoyeelightGo.response (raw "{'id':1,'result':['ok']}" +:+ CRLF))
     = true.
Proof. by vm_compute. Qed.

(** In [part_000] a line without a member for [result] takes the error
    path. *)
Lemma Part000_absent_result_is_an_error (data : string)
    (ms : list (string * string * json.Value)) :
  json.parse data = Some (json.VObject ms) ->
  existsb (key_selects "result") ms = false ->
  exists msg, Part000.response data = (EmptyString, Some (errors_New msg)).
Proof.
  intros Hparse Hnone. rewrite Part000_response_cases, Hparse.
  rewrite last_member_none by done. by eexists.
Qed.

(** C2 (the defect): a call whose response line carries [null] as its
    result succeeds and returns the text [null]; the line is not read
    again as the error shape and no error is returned.  The cause is the
    one of C4: [Result] is a [json.RawMessage], into which [Unmarshal]
    stores the bytes of the literal [null], so that [res.Result == nil]
    does not hold. *)
Theorem C2_call_with_null_result_succeeds :
  (Part000.Toogle lamp (bulb (raw "{'id':7,'result':null}" +:+ CRLF)) []).1
  = ("null", None).
Proof. reflexivity. Qed.

(** C4 (the defect): [response] treats a line whose result is [null] as a
    success with the payload [null]; a line without result is an error.
    In [goyeelight.go] both lines are errors. *)
Theorem C4_null_result_is_treated_as_success :
  Part000.response (raw "{'id':1,'result':null}" +:+ CRLF) = ("null", None)
  /\ Part000.Result
       (Part000.Unmarshal_ResponseOk (raw "{'id':1,'result':null}" +:+ CRLF)
          Part000.ResponseOk_zero) = Some "null"
  /\ Part000.response (raw "{'id':1}" +:+ CRLF)
     = (EmptyString, Some (errors_New EmptyString))
  /\ GoyeelightGo.Status
       (GoyeelightGo.response (raw "{'id':1,'result':null}" +:+ CRLF))
     = false.
Proof. by vm_compute. Qed.

(** C3 (as stated, refuted): the empty line has neither shape, and decoding
    it gives the very result that decoding a well-formed error response
    with an empty message gives: the two errors are equal. *)
Lemma C3_malformed_equals_device_error :
  neither_shape EmptyString = true
  /\ Part000.response EmptyString
     = (EmptyString, Some (errors_New EmptyString))
  /\ Part000.response (error_line "-1" EmptyString)
     = Part000.response EmptyString.
Proof. by vm_compute. Qed.

(** C3 (amended): decoding a line that is not a JSON text, or that has
    neither the success shape nor the error shape, is never a success: it
    fails with the error whose message is empty, the error that a
    well-formed error response with an empty message produces. *)
Theorem C3_malformed_line_is_an_error (data : string) :
  neither_shape data = true ->
  Part000.response data = (EmptyString, Some (errors_New EmptyString))
  /\ Part000.response data = Part000.response (error_line "-1" EmptyString).
Proof.
  intros H. by rewrite Part000_response_neither_shape.
Qed.

(** A truncated line, for C3. *)
Lemma C3_malformed_line_witness :
  neither_shape (raw "{'id':1,'res") = true
  /\ Part000.response (raw "{'id':1,'res")
     = (EmptyString, Some (errors_New EmptyString)).
Proof.
  split; [reflexivity|].
  exact (proj1 (C3_malformed_line_is_an_error (raw "{'id':1,'res") eq_refl)).
Defined.






(** ** The property map *)

(** The loop of [GetProp] does not panic when there is a name for each
    value, and assigns the pairs in turn. *)
Lemma fill_assigns (values props : list string) (i : nat)
    (m : gmap string string) :
  i + length props <= length values ->
  Part000.fill values i props m
  = Returns (foldl assign m (zip (drop i values) props)).
Proof.
  revert i m. induction props as [|prop props IH]; intros i m Hlen.
  - simpl. by destruct (drop i values).
  - simpl in Hlen. simpl.
    destruct (lookup_lt_is_Some_2 values i) as [name Hname]; [lia|].
    rewrite Hname, (drop_S _ _ _ Hname). simpl.
    rewrite IH by lia. reflexivity.
Qed.

Lemma foldl_assign_notin (l : list (string * string)) (m : gmap string string)
    (k : string) :
  k ∉ l.*1 -> foldl assign m l !! k = m !! k.
Proof.
  revert m. induction l as [|[k' v] l IH]; intros m Hk; [reflexivity|].
  simpl in *. apply not_elem_of_cons in Hk as [Hne Hk].
  rewrite IH by done. unfold assign. simpl. by rewrite lookup_insert_ne.
Qed.

Lemma foldl_assign_dom (l : list (string * string)) (m : gmap string string) :
  dom (foldl assign m l) = list_to_set l.*1 ∪ dom m.
Proof.
  revert m. induction l as [|[k v] l IH]; intros m; simpl.
  - set_solver.
  - rewrite IH. unfold assign. simpl. rewrite dom_insert_L. set_solver.
Qed.

Lemma foldl_assign_size (l : list (string * string)) (m : gmap string string) :
  NoDup l.*1 -> (forall k, k ∈ l.*1 -> m !! k = None) ->
  size (foldl assign m l) = length l + size m.
Proof.
  revert m. induction l as [|[k v] l IH]; intros m Hnd Hfresh; [reflexivity|].
  simpl in *. apply NoDup_cons in Hnd as [Hk Hnd].
  rewrite IH.
  - unfold assign. simpl. rewrite map_size_insert_None; [lia|].
    apply Hfresh. set_solver.
  - done.
  - intros k' Hk'. unfold assign. simpl. rewrite lookup_insert_ne.
    + apply Hfresh. set_solver.
    + intros ->. done.
Qed.

(** What [zip_map] holds when there are as many values as names: its keys
    are the names; a name is mapped to the value at the index of its last
    occurrence; names that are pairwise distinct give as many entries as
    there are names. *)
Section ZipMap.

Variables values props : list string.
Hypothesis same_length : length props = length values.

Lemma zip_map_dom : dom (zip_map values props) = list_to_set values.
Proof.
  unfold zip_map. rewrite foldl_assign_dom, fst_zip by lia. set_solver.
Qed.

Lemma zip_map_lookup (i : nat) (name v : string) :
  values !! i = Some name -> props !! i = Some v ->
  (forall j, i < j -> values !! j <> Some name) ->
  zip_map values props !! name = Some v.
Proof.
  intros Hname Hv Hlast. unfold zip_map.
  rewrite <- (take_drop_middle _ _ _ Hname), <- (take_drop_middle _ _ _ Hv).
  rewrite zip_with_app by (rewrite !length_take; lia).
  rewrite foldl_app. simpl. rewrite foldl_assign_notin.
  - unfold assign. simpl. by rewrite lookup_insert_eq.
  - rewrite fst_zip by (rewrite !length_drop; lia).
    intros [j Hj]%list_elem_of_lookup_1. rewrite lookup_drop in Hj.
    apply (Hlast (S i + j)); [lia|done].
Qed.

Lemma zip_map_size : NoDup values -> size (zip_map values props) = length values.
Proof.
  intros Hnd. unfold zip_map. rewrite foldl_assign_size.
  - rewrite map_size_empty, length_zip_with_l_eq by lia. lia.
  - by rewrite fst_zip by lia.
  - intros. apply lookup_empty.
Qed.

Lemma zip_map_positional (i : nat) (name v : string) :
  NoDup values -> values !! i = Some name -> props !! i = Some v ->
  zip_map values props !! name = Some v.
Proof.
  intros Hnd Hname Hv. apply (zip_map_lookup i); [done..|].
  intros j Hij Hj. pose proof (NoDup_lookup _ _ _ _ Hnd Hname Hj). lia.
Qed.

End ZipMap.

(** [GetProp], given what [request] returns. *)
Lemma Part000_GetProp_steps (y : Part000.Yeelight) (values : list string)
    (peer : net.Peer) (log : net.Log) :
  Part000.GetProp y values peer log
  = let '((res, err), log') :=
      Part000.request y (Part000.GetProp_cmd values) peer log in
    (match err with
     | Some err => Returns (None, Some err)
     | None =>
       let props := Part000.Unmarshal_strings res [] in
       if negb (length props =? length values) then
         Returns (None, Some (errors_New "Wrong response"))
       else
         match Part000.fill values 0 props ∅ with
         | Returns m => Returns (Some m, None)
         | Panics why => Panics why
         end
     end, log').
Proof.
  unfold Part000.GetProp, net.bind.
  destruct (Part000.request _ _ _ _) as [[res [err|]] log']; [reflexivity|].
  unfold net.ret. destruct (negb _); [reflexivity|].
  by destruct (Part000.fill _ _ _ _).
Qed.

(** [GetProp] returns: the loop over the values meets no index out of
    range, since it runs only when there are as many values as names. *)
Lemma Part000_GetProp_returns (y : Part000.Yeelight) (values : list string)
    (peer : net.Peer) (log : net.Log) :
  exists r, (Part000.GetProp y values peer log).1 = Returns r.
Proof.
  rewrite Part000_GetProp_steps.
  destruct (Part000.request _ _ _ _) as [[res [err|]] log']; [by eexists|].
  cbv zeta. simpl.
  destruct (length _ =? length values) eqn:Hlen; [|by eexists].
  apply Nat.eqb_eq in Hlen. simpl.
  rewrite fill_assigns by lia. by eexists.
Qed.

(** What [request] adds to the writes of the log: nothing when the dial is
    refused, else the one write of [Fprintf]. *)
Lemma Part000_request_writes (y : Part000.Yeelight) (cmd : string)
    (peer : net.Peer) (log : net.Log) :
  writes (Part000.request y cmd peer log).2
  = writes log
    ++ (if accepted peer "tcp" (Part000.host y +:+ ":" +:+ Part000.port y)
        then [fmt.doPrintf (cmd +:+ CRLF)] else []).
Proof.
  rewrite Part000_request_steps. unfold accepted, writes.
  destruct (net.accepts peer "tcp" _); simpl; rewrite !omap_app; simpl.
  - done.
  - by rewrite !List.app_nil_r.
Qed.

(** [GetProp] leaves the log that [request] leaves for its command. *)
Lemma Part000_GetProp_log (y : Part000.Yeelight) (values : list string)
    (peer : net.Peer) (log : net.Log) :
  (Part000.GetProp y values peer log).2
  = (Part000.request y (Part000.GetProp_cmd values) peer log).2.
Proof.
  rewrite Part000_GetProp_steps.
  by destruct (Part000.request _ _ _ _) as [[res err] log'].
Qed.

Lemma has_percent_names (values : list string) :
  has_percent (names_with_commas values) = existsb has_percent values.
Proof.
  induction values as [|v values IH]; [reflexivity|].
  simpl names_with_commas. rewrite !has_percent_app, IH. reflexivity.
Qed.

(** What [GetProp] writes to a device that accepts the dial, for names
    without a percent sign: its command and CRLF, in one write. *)
Lemma Part000_GetProp_writes (y : Part000.Yeelight) (values : list string)
    (peer : net.Peer) (log : net.Log) :
  existsb has_percent values = false ->
  accepted peer "tcp" (Part000.host y +:+ ":" +:+ Part000.port y) = true ->
  writes (Part000.GetProp y values peer log).2
  = writes log ++ [Part000.GetProp_cmd values +:+ CRLF].
Proof.
  intros Hnames Hacc.
  rewrite Part000_GetProp_log, Part000_request_writes, Hacc.
  rewrite doPrintf_plain; [done|].
  rewrite Part000_GetProp_cmd_text, !has_percent_app, has_percent_names,
    Hnames.
  reflexivity.
Qed.

(** C9: the command that [GetProp] encodes and hands to [request] is the
    fixed head, then each name between double quotes and followed by a
    comma, then the closing text.  So [GetProp] leaves the log that
    [request] leaves for that text; for a non-empty list a comma stands
    after the last name, before the closing bracket, and for the empty
    list the parameters are [[]].  The text is what [Fprintf] is given,
    and for names without a percent sign it is, with CRLF after it, the
    bytes that [GetProp] writes to a device that accepts the dial. *)
Theorem C9_GetProp_cmd_keeps_trailing_comma :
  (forall y values peer log,
     (Part000.GetProp y values peer log).2
     = (Part000.request y
          (raw "{'id':1,'method':'get_prop','params':["
           +:+ names_with_commas values +:+ "]}") peer log).2)
  /\ (forall y values n peer log,
     (Part000.GetProp y (values ++ [n]) peer log).2
     = (Part000.request y
          (raw "{'id':1,'method':'get_prop','params':["
           +:+ names_with_commas values +:+ raw "'" +:+ n +:+ raw "',]}")
          peer log).2)
  /\ (forall y peer log,
     (Part000.GetProp y [] peer log).2
     = (Part000.request y (raw "{'id':1,'method':'get_prop','params':[]}")
          peer log).2)
  /\ (forall y values peer log,
     writes (Part000.GetProp y values peer log).2
     = writes log
       ++ (if accepted peer "tcp" (Part000.host y +:+ ":" +:+ Part000.port y)
           then [fmt.doPrintf
                   ((raw "{'id':1,'method':'get_prop','params':["
                     +:+ names_with_commas values +:+ "]}") +:+ CRLF)]
           else []))
  /\ (forall y values peer log,
     existsb has_percent values = false ->
     accepted peer "tcp" (Part000.host y +:+ ":" +:+ Part000.port y) = true ->
     writes (Part000.GetProp y values peer log).2
     = writes log
       ++ [(raw "{'id':1,'method':'get_prop','params':["
            +:+ names_with_commas values +:+ "]}") +:+ CRLF])
  /\ (forall values,
     Part000.GetProp_cmd values
     = raw "{'id':1,'method':'get_prop','params':["
       +:+ names_with_commas values +:+ "]}")
  /\ (forall values n,
     Part000.GetProp_cmd (values ++ [n])
     = raw "{'id':1,'method':'get_prop','params':["
       +:+ names_with_commas values +:+ raw "'" +:+ n +:+ raw "',]}")
  /\ Part000.GetProp_cmd [] = raw "{'id':1,'method':'get_prop','params':[]}"
  /\ Part000.GetProp_cmd ["power"; "bright"]
     = raw "{'id':1,'method':'get_prop','params':['power','bright',]}".
Proof.
  assert (forall values n,
     Part000.GetProp_cmd (values ++ [n])
     = raw "{'id':1,'method':'get_prop','params':["
       +:+ names_with_commas values +:+ raw "'" +:+ n +:+ raw "',]}") as Hlast.
  { intros values n. rewrite Part000_GetProp_cmd_text, names_with_commas_app.
    simpl. by rewrite !app_assoc. }
  split; [|split; [|split; [|split; [|split]]]].
  - intros. by rewrite Part000_GetProp_log, Part000_GetProp_cmd_text.
  - intros. by rewrite Part000_GetProp_log, Hlast.
  - intros. by rewrite Part000_GetProp_log.
  - intros. by rewrite Part000_GetProp_log, Part000_request_writes,
      Part000_GetProp_cmd_text.
  - intros y values peer log Hnames Hacc.
    by rewrite (Part000_GetProp_writes _ _ _ _ Hnames Hacc),
      Part000_GetProp_cmd_text.
  - split; [exact Part000_GetProp_cmd_text|].
    split; [exact Hlast|]. split; reflexivity.
Qed.

(** The names of the README, for C9: the bytes that reach the device. *)
Lemma C9_GetProp_cmd_witness :
  writes (Part000.GetProp lamp ["power"; "bright"]
            (bulb (raw "{'id':1,'result':['on','100']}" +:+ CRLF)) []).2
  = [raw "{'id':1,'method':'get_prop','params':['power','bright',]}"
     +:+ CRLF].
Proof.
  exact (proj1 (proj2 (proj2 (proj2 (proj2
           C9_GetProp_cmd_keeps_trailing_comma))))
           lamp ["power"; "bright"]
           (bulb (raw "{'id':1,'result':['on','100']}" +:+ CRLF)) []
           eq_refl eq_refl).
Defined.

(** The example of the specification: the line decoded against the names
    ["power"] and ["bright"]. *)
Example GetProp_power_bright :
  (Part000.GetProp lamp ["power"; "bright"]
     (bulb (raw "{'id':1,'result':['on','100']}" +:+ CRLF)) []).1
  = Returns (Some (<["bright" := "100"]> (<["power" := "on"]> ∅)), None).
Proof. reflexivity. Qed.

(** One value for two names is an error. *)
Example GetProp_one_value_for_two_names :
  (Part000.GetProp lamp ["power"; "bright"]
     (bulb (raw "{'id':1,'result':['on']}" +:+ CRLF)) []).1
  = Returns (None, Some (errors_New "Wrong response")).
Proof. reflexivity. Qed.

(** C1 (as stated, refuted): asked for ["power"] twice and answered with
    two values, [GetProp] returns a map with one entry, not two, in which
    ["power"] is mapped to the second value, not to the value at its first
    index. *)
Lemma C1_repeated_name_gives_one_entry :
  length (Part000.Unmarshal_strings (raw "['on','off']") []) = 2
  /\ exists m,
    (Part000.GetProp lamp ["power"; "power"]
       (bulb (raw "{'id':1,'result':['on','off']}" +:+ CRLF)) []).1
    = Returns (Some m, None)
    /\ size m = 1
    /\ m !! "power" = Some "off".
Proof.
  split; [reflexivity|]. eexists. split; [reflexivity|].
  split; by vm_compute.
Qed.

(** C1 (amended): when the call succeeds at the transport and the result
    decodes as a string array [props] of the length of the request,
    [GetProp] returns the map [zip_map values props]: its keys are the
    requested names, each name is mapped to the value at the index of its
    last occurrence, and names that are pairwise distinct give exactly as
    many entries as names, each mapped to the value at its index.  When
    the lengths differ [GetProp] fails with the error [Wrong response].
    [GetProp] does not panic. *)
Theorem C1_GetProp_zips_names_with_values (y : Part000.Yeelight)
    (values : list string) (peer : net.Peer) (log log' : net.Log)
    (res : string) :
  Part000.request y (Part000.GetProp_cmd values) peer log
  = ((res, None), log') ->
  let props := Part000.Unmarshal_strings res [] in
  (length props = length values ->
     Part000.GetProp y values peer log
     = (Returns (Some (zip_map values props), None), log')
     /\ dom (zip_map values props) = list_to_set values
     /\ (forall i name v,
           values !! i = Some name -> props !! i = Some v ->
           (forall j, i < j -> values !! j <> Some name) ->
           zip_map values props !! name = Some v)
     /\ (NoDup values ->
           size (zip_map values props) = length values
           /\ forall i name v,
                values !! i = Some name -> props !! i = Some v ->
                zip_map values props !! name = Some v))
  /\ (length props <> length values ->
     Part000.GetProp y values peer log
     = (Returns (None, Some (errors_New "Wrong response")), log')).
Proof.
  intros Hreq props. rewrite Part000_GetProp_steps, Hreq. fold props.
  cbv zeta. split.
  - intros Hlen. rewrite Hlen, Nat.eqb_refl. simpl.
    rewrite fill_assigns by lia. rewrite drop_0. fold (zip_map values props).
    split; [reflexivity|]. split; [by apply zip_map_dom|].
    split; [intros; by eapply zip_map_lookup|].
    intros Hnd. split; [by apply zip_map_size|].
    intros i name v Hname Hv. by apply (zip_map_positional _ _ Hlen i).
  - intros Hlen. apply Nat.eqb_neq in Hlen. by rewrite Hlen.
Qed.

(** The example of the specification for C1, by the theorem. *)
Lemma C1_GetProp_witness :
  exists m log',
    Part000.GetProp lamp ["power"; "bright"]
      (bulb (raw "{'id':1,'result':['on','100']}" +:+ CRLF)) []
    = (Returns (Some m, None), log')
    /\ m !! "power" = Some "on"
    /\ m !! "bright" = Some "100"
    /\ size m = 2.
Proof.
  destruct (C1_GetProp_zips_names_with_values lamp ["power"; "bright"]
              (bulb (raw "{'id':1,'result':['on','100']}" +:+ CRLF)) []
              _ _ eq_refl) as [Hok _].
  destruct (Hok eq_refl) as (Hget & _ & _ & Hdistinct).
  destruct Hdistinct as [Hsize Hat].
  { repeat constructor; set_solver. }
  eexists _, _. split; [exact Hget|].
  split; [exact (Hat 0 "power" "on" eq_refl eq_refl)|].
  split; [exact (Hat 1 "bright" "100" eq_refl eq_refl)|exact Hsize].
Defined.

(** ** A value is read from its own bytes *)

Lemma skip_space_split (s : string) :
  exists sp, s = sp +:+ json.skip_space s /\ all_space sp = true.
Proof.
  induction s as [|c s (sp & Hs & Hsp)]; [by exists EmptyString|].
  simpl. destruct (json.is_space c) eqn:Hc.
  - exists (String c sp). rewrite app_cons, <- Hs. simpl. by rewrite Hc, Hsp.
  - by exists EmptyString.
Qed.

Lemma skip_space_head (s : string) (c : ascii) (r : string) :
  json.skip_space s = String c r -> json.is_space c = false.
Proof.
  induction s as [|d s IH]; [done|]. simpl.
  destruct (json.is_space d) eqn:Hd; [done|]. by intros [= <- _].
Qed.

Lemma skip_space_app (sp : string) (c : ascii) (x : string) :
  all_space sp = true -> json.is_space c = false ->
  json.skip_space (sp +:+ String c x) = String c x.
Proof.
  intros Hsp Hc. induction sp as [|d sp IH].
  - rewrite app_nil_l. simpl. by rewrite Hc.
  - simpl in Hsp. apply andb_true_iff in Hsp as [Hd Hsp].
    rewrite app_cons. simpl. rewrite Hd. by apply IH.
Qed.

Lemma boundary_after_space (sp : string) (c : ascii) (x : string) :
  all_space sp = true -> boundary (String c x) = true ->
  boundary (sp +:+ String c x) = true.
Proof.
  intros Hsp Hc. destruct sp as [|d sp]; [done|].
  simpl in Hsp. apply andb_true_iff in Hsp as [Hd _].
  rewrite app_cons. simpl. unfold json.is_space in Hd. simpl in Hd.
  rewrite orb_false_r in Hd.
  repeat (apply orb_true_iff in Hd as [Hd|Hd];
          [apply Ascii.eqb_eq in Hd as ->; reflexivity|]).
  apply Ascii.eqb_eq in Hd as ->. reflexivity.
Qed.

Lemma string_body_split (s lit r : string) :
  json.string_body s = Some (lit, r) ->
  exists p, s = p +:+ r /\ forall t, json.string_body (p +:+ t) = Some (lit, t).
Proof.
  remember (String.length s) as n eqn:Hn.
  revert s lit r Hn.
  induction n as [n IH] using lt_wf_ind. intros s lit r -> H.
  destruct s as [|c s]; [done|]. simpl in H.
  destruct (Ascii.eqb c dquote) eqn:Hq.
  { injection H as <- <-. exists (String c EmptyString). split; [done|].
    intros t. simpl. by rewrite Hq. }
  destruct (Ascii.eqb c "\") eqn:Hb.
  - destruct s as [|e s]; [done|].
    destruct (json.is_escape e) eqn:He.
    + destruct (json.string_body s) as [[lit' r']|] eqn:E; [|done].
      injection H as <- <-.
      destruct (IH (String.length s)) with (s := s) (lit := lit') (r := r')
        as (p & -> & Hp); [simpl; lia|done..|].
      exists (String c (String e p)). split; [done|].
      intros t. rewrite !app_cons. simpl. by rewrite Hq, Hb, He, Hp.
    + destruct (Ascii.eqb e "u") eqn:Hu; [|done].
      destruct s as [|h1 [|h2 [|h3 [|h4 s]]]]; try done.
      destruct (_ && _) eqn:Hhex; [|done].
      destruct (json.string_body s) as [[lit' r']|] eqn:E; [|done].
      injection H as <- <-.
      destruct (IH (String.length s)) with (s := s) (lit := lit') (r := r')
        as (p & -> & Hp); [simpl; lia|done..|].
      exists (String c (String e (String h1 (String h2 (String h3
                (String h4 p)))))).
      split; [done|].
      intros t. rewrite !app_cons. simpl. by rewrite Hq, Hb, He, Hu, Hhex, Hp.
  - destruct (byte c <? 32)%N eqn:Hlow; [done|].
    destruct (json.string_body s) as [[lit' r']|] eqn:E; [|done].
    injection H as <- <-.
    destruct (IH (String.length s)) with (s := s) (lit := lit') (r := r')
      as (p & -> & Hp); [simpl; lia|done..|].
    exists (String c p). split; [done|].
    intros t. rewrite !app_cons. simpl. by rewrite Hq, Hb, Hlow, Hp.
Qed.

Lemma digits_split (s d r : string) :
  json.digits s = (d, r) ->
  s = d +:+ r /\ forall t, nodigit t = true -> json.digits (d +:+ t) = (d, t).
Proof.
  revert d r. induction s as [|c s IH]; intros d r; simpl.
  - intros [= <- <-]. split; [done|]. intros [|c t] Ht; [done|].
    simpl in *. by destruct (is_digit (byte c)).
  - destruct (is_digit (byte c)) eqn:Hc.
    + destruct (json.digits s) as [d' r'] eqn:E. intros [= <- <-].
      destruct (IH _ _ eq_refl) as [-> Ht]. split; [done|].
      intros t Hnd. rewrite app_cons. simpl. by rewrite Hc, (Ht t Hnd).
    + intros [= <- <-]. split; [done|]. intros [|c' t] Ht; [done|].
      simpl in *. by destruct (is_digit (byte c')).
Qed.

Lemma boundary_nodigit (t : string) : boundary t = true -> nodigit t = true.
Proof.
  destruct t as [|c t]; [done|]. simpl.
  by destruct (is_digit (byte c)).
Qed.

Lemma int_part_split (s i r : string) :
  json.int_part s = Some (i, r) ->
  s = i +:+ r
  /\ (exists c i', i = String c i' /\ is_digit (byte c) = true)
  /\ forall t, nodigit t = true -> json.int_part (i +:+ t) = Some (i, t).
Proof.
  unfold json.int_part. destruct s as [|c s]; [done|].
  destruct (Ascii.eqb c "0") eqn:H0.
  - intros [= <- <-]. apply Ascii.eqb_eq in H0 as ->.
    split; [done|]. split; [by eexists _, _|]. by intros t _.
  - destruct (is_digit (byte c)) eqn:Hc; [|done].
    destruct (json.digits s) as [d r'] eqn:E. intros [= <- <-].
    destruct (digits_split _ _ _ E) as [-> Hd].
    split; [done|]. split; [by eexists _, _|].
    intros t Ht. rewrite app_cons. by rewrite H0, Hc, (Hd t Ht).
Qed.

Lemma frac_part_split (s f r : string) :
  json.frac_part s = Some (f, r) ->
  s = f +:+ r
  /\ (f = EmptyString \/ exists f', f = String "." f')
  /\ forall t, nodigit t = true ->
       (f = EmptyString -> nodot t = true) ->
       json.frac_part (f +:+ t) = Some (f, t).
Proof.
  assert (forall t, nodot t = true -> json.frac_part t = Some (EmptyString, t))
    as Hnone.
  { intros [|c t] Hb; [done|]. unfold json.frac_part. simpl in Hb.
    by destruct (Ascii.eqb c "."). }
  unfold json.frac_part. destruct s as [|c s].
  { intros [= <- <-]. split; [done|]. split; [by left|].
    intros t _ Hb. by apply Hnone, Hb. }
  destruct (Ascii.eqb c ".") eqn:Hc.
  - destruct (json.digits s) as [d r'] eqn:E.
    destruct (digits_split _ _ _ E) as [-> Hd].
    destruct d as [|d0 d]; [done|]. intros [= <- <-].
    apply Ascii.eqb_eq in Hc as ->.
    split; [done|]. split; [right; by eexists|].
    intros t Ht _. rewrite app_cons. cbn -[json.digits].
    by rewrite (Hd t Ht).
  - intros [= <- <-]. split; [done|]. split; [by left|].
    intros t _ Hb. by apply Hnone, Hb.
Qed.

Lemma exp_part_split (s e r : string) :
  json.exp_part s = Some (e, r) ->
  s = e +:+ r
  /\ (e = EmptyString
      \/ exists c e', e = String c e' /\ (Ascii.eqb c "e" || Ascii.eqb c "E") = true)
  /\ forall t, nodigit t = true ->
       (e = EmptyString -> boundary t = true) ->
       json.exp_part (e +:+ t) = Some (e, t).
Proof.
  assert (forall t, boundary t = true -> json.exp_part t = Some (EmptyString, t))
    as Hnone.
  { intros [|c t] Hb; [done|]. unfold json.exp_part. simpl in Hb.
    destruct (Ascii.eqb c "e" || Ascii.eqb c "E") eqn:Hc; [|done].
    apply negb_true_iff in Hb. rewrite <- !orb_assoc in Hb.
    apply orb_false_iff in Hb as [_ Hb]. apply orb_false_iff in Hb as [_ Hb].
    by rewrite Hb in Hc. }
  unfold json.exp_part. destruct s as [|c s].
  { intros [= <- <-]. split; [done|]. split; [by left|].
    intros t _ Hb. by apply Hnone, Hb. }
  destruct (Ascii.eqb c "e" || Ascii.eqb c "E") eqn:Hc.
  - destruct s as [|g s'].
    { simpl. done. }
    destruct (Ascii.eqb g "+" || Ascii.eqb g "-") eqn:Hg.
    + destruct (json.digits s') as [d r'] eqn:E.
      destruct (digits_split _ _ _ E) as [-> Hd].
      destruct d as [|d0 d]; [done|]. intros [= <- <-].
      split; [done|]. split; [right; by eexists _, _|].
      intros t Ht _. rewrite ?app_nil_l, !app_cons, Hc, Hg.
      cbn -[json.digits append]. rewrite ?app_cons, ?app_nil_l.
      change (String d0 (d +:+ t)) with (String d0 d +:+ t).
      rewrite (Hd t Ht). by rewrite ?app_cons, ?app_nil_l.
    + destruct (json.digits (String g s')) as [d r'] eqn:E.
      destruct (digits_split _ _ _ E) as [Heq Hd].
      destruct d as [|d0 d]; [done|]. intros [= <- <-].
      rewrite app_cons in Heq. injection Heq as -> ->.
      split; [done|]. split; [right; by eexists _, _|].
      intros t Ht _. rewrite ?app_nil_l, !app_cons, Hc, Hg.
      cbn -[json.digits append]. rewrite ?app_cons, ?app_nil_l.
      change (String d0 (d +:+ t)) with (String d0 d +:+ t).
      rewrite (Hd t Ht). by rewrite ?app_cons, ?app_nil_l.
  - intros [= <- <-]. split; [done|]. split; [by left|].
    intros t _ Hb. by apply Hnone, Hb.
Qed.

Lemma digit_not_minus (c : ascii) :
  is_digit (byte c) = true -> Ascii.eqb c "-" = false.
Proof.
  intros Hc. destruct (Ascii.eqb c "-") eqn:E; [|done].
  apply Ascii.eqb_eq in E as ->. done.
Qed.

Lemma exponent_head (e t : string) :
  (e = EmptyString
   \/ exists c e', e = String c e' /\ (Ascii.eqb c "e" || Ascii.eqb c "E") = true) ->
  boundary t = true ->
  nodigit (e +:+ t) = true /\ nodot (e +:+ t) = true.
Proof.
  intros [->|(c & e' & -> & Hc)] Hb.
  - rewrite app_nil_l. split; [by apply boundary_nodigit|].
    destruct t as [|c t]; [done|]. simpl in *.
    destruct (Ascii.eqb c "."); [|done]. by rewrite !orb_true_r in Hb.
  - rewrite app_cons. simpl.
    apply orb_true_iff in Hc as [Hc|Hc]; apply Ascii.eqb_eq in Hc as ->; done.
Qed.

(** A number is read from its own bytes, whatever follows it that cannot
    be part of a number. *)
Lemma number_split (s lit r : string) :
  json.number s = Some (lit, r) ->
  s = lit +:+ r
  /\ forall t, boundary t = true -> json.number (lit +:+ t) = Some (lit, t).
Proof.
  unfold json.number.
  set (sg := match s with
             | String c r0 => if Ascii.eqb c "-" then ("-", r0) else (EmptyString, s)
             | EmptyString => (EmptyString, s)
             end).
  destruct sg as [sign s0] eqn:Hsg.
  destruct (json.int_part s0) as [[i s1]|] eqn:Hi; [|done]. simpl.
  destruct (json.frac_part s1) as [[f s2]|] eqn:Hf; [|done]. simpl.
  destruct (json.exp_part s2) as [[e s3]|] eqn:He; [|done]. simpl.
  intros [= <- <-].
  destruct (int_part_split _ _ _ Hi) as (-> & (c & i' & -> & Hc) & Hint).
  destruct (frac_part_split _ _ _ Hf) as (-> & Hfh & Hfrac).
  destruct (exp_part_split _ _ _ He) as (-> & Heh & Hexp).
  assert (s = sign +:+ String c i' +:+ f +:+ e +:+ s3
          /\ (sign = "-" \/ sign = EmptyString)) as [Hs Hsign].
  { subst sg. rewrite app_cons in Hsg.
    destruct s as [|c0 s']; [done|].
    destruct (Ascii.eqb c0 "-") eqn:E.
    - apply Ascii.eqb_eq in E as ->. injection Hsg as <- ->.
      split; [by rewrite app_cons|by left].
    - injection Hsg as <- -> ->. split; [by rewrite app_cons|by right]. }
  split; [by rewrite Hs, !app_assoc|].
  intros t Hb.
  destruct (exponent_head e t Heh Hb) as [Hnd Hdot].
  assert (nodigit (f +:+ e +:+ t) = true) as Hndf.
  { destruct Hfh as [->|[f' ->]]; [by rewrite app_nil_l|done]. }
  assert (match sign +:+ String c i' +:+ f +:+ e +:+ t with
          | String c0 r0 =>
            if Ascii.eqb c0 "-" then ("-", r0)
            else (EmptyString, sign +:+ String c i' +:+ f +:+ e +:+ t)
          | EmptyString => (EmptyString, sign +:+ String c i' +:+ f +:+ e +:+ t)
          end = (sign, String c i' +:+ f +:+ e +:+ t)) as Hhead.
  { destruct Hsign as [->| ->].
    - reflexivity.
    - rewrite app_nil_l, app_cons. by rewrite (digit_not_minus _ Hc). }
  rewrite !app_assoc, Hhead. cbv beta iota zeta.
  rewrite (Hint _ Hndf). simpl.
  rewrite (Hfrac _ Hnd (fun _ => Hdot)). simpl.
  rewrite (Hexp _ (boundary_nodigit _ Hb) (fun _ => Hb)). simpl.
  by rewrite ?app_assoc.
Qed.

Lemma strip_prefix_split (p s r : string) :
  json.strip_prefix p s = Some r -> s = p +:+ r.
Proof.
  revert s. induction p as [|a p IH]; intros s; simpl.
  - by intros [= <-].
  - destruct s as [|b s]; [done|]. destruct (Ascii.eqb a b) eqn:E; [|done].
    apply Ascii.eqb_eq in E as ->. intros H%IH. by rewrite H.
Qed.

Lemma strip_prefix_app (p t : string) : json.strip_prefix p (p +:+ t) = Some t.
Proof.
  induction p as [|a p IH]; [by destruct t|].
  rewrite app_cons. simpl. by rewrite Ascii.eqb_refl.
Qed.

Ltac app_norm :=
  repeat first [rewrite app_assoc | rewrite app_cons | rewrite app_nil_l].
Ltac app_norm_in H :=
  repeat first [rewrite app_assoc in H | rewrite app_cons in H
               | rewrite app_nil_l in H].

Lemma prefix_head (p r x : string) (d : ascii) :
  p +:+ r = String d x -> String.length r < String.length (String d x) ->
  exists p', p = String d p'.
Proof.
  destruct p as [|c p]; simpl.
  - rewrite app_nil_l. intros ->. simpl. lia.
  - rewrite app_cons. intros [= -> _] _. by eexists.
Qed.

Lemma take_str_app (p x : string) :
  json.take_str (String.length (p +:+ x) - String.length x) (p +:+ x) = p.
Proof.
  rewrite length_app. replace (_ + _ - _) with (String.length p) by lia.
  induction p as [|c p IH].
  - reflexivity.
  - rewrite app_cons. simpl. by rewrite IH.
Qed.

Lemma is_space_comma_close (c closing : ascii) (A : Type)
    (more done : json.res A) (x : A) :
  json.close_or c closing more done = json.Ok x ->
  (closing = "]"%char \/ closing = "}"%char) ->
  json.is_space c = false /\ (forall y, boundary (String c y) = true)
  /\ ((Ascii.eqb c "," = true /\ more = json.Ok x)
      \/ (Ascii.eqb c "," = false /\ Ascii.eqb c closing = true
          /\ done = json.Ok x)).
Proof.
  unfold json.close_or. intros H Hcl.
  destruct (Ascii.eqb c ",") eqn:Hc.
  - apply Ascii.eqb_eq in Hc as ->. split; [done|]. split; [done|]. by left.
  - destruct (Ascii.eqb c closing) eqn:Hc'; [|done].
    apply Ascii.eqb_eq in Hc' as ->.
    split; [by destruct Hcl as [->| ->]|].
    split; [by destruct Hcl as [->| ->]|]. by right.
Qed.

(** A value is read from its own bytes: reading it from a text gives the
    same value when what follows the value is replaced, as long as the
    replacement cannot be taken for a part of a number. *)
Lemma value_local (fuel : nat) :
  (forall depth s v r,
     json.value fuel depth s = json.Ok (v, r) ->
     exists p, s = p +:+ r
       /\ forall t, boundary t = true ->
            json.value fuel depth (p +:+ t) = json.Ok (v, t))
  /\ (forall depth s acc v r,
     json.elems fuel depth s acc = json.Ok (v, r) ->
     exists p, s = p +:+ r
       /\ forall t, json.elems fuel depth (p +:+ t) acc = json.Ok (v, t))
  /\ (forall depth s acc v r,
     json.members fuel depth s acc = json.Ok (v, r) ->
     exists p, s = p +:+ r
       /\ forall t, json.members fuel depth (p +:+ t) acc = json.Ok (v, t)).
Proof.
  induction fuel as [|fuel (IHv & IHe & IHm)]; [by repeat split|].
  split; [|split].
  - intros depth [|c s] v r; [done|]. rewrite value_S.
    destruct (skip_space_split s) as (sp & Hs & Hsp).
    destruct (Ascii.eqb c "{") eqn:Hobj.
    { destruct (_ <? _)%N eqn:Hdepth; [done|].
      destruct (json.skip_space s) as [|d r'] eqn:E; [done|].
      pose proof (skip_space_head _ _ _ E) as Hd.
      destruct (Ascii.eqb d "}") eqn:Hclose.
      - intros [= <- <-]. exists (String c (sp +:+ String d EmptyString)).
        split; [rewrite Hs; by app_norm|].
        intros t _. app_norm. rewrite value_S, Hobj, Hdepth.
        by rewrite (skip_space_app _ _ _ Hsp Hd), Hclose.
      - intros H.
        pose proof (proj2 (proj2 (value_consumes fuel)) _ _ _ _ _ H) as Hlen.
        destruct (IHm _ _ _ _ _ H) as (p0 & Hp0 & Hm).
        destruct (prefix_head _ _ _ _ (eq_sym Hp0) Hlen) as [p0' ->].
        exists (String c (sp +:+ String d p0')).
        split; [rewrite Hs, Hp0; by app_norm|].
        intros t _. app_norm. rewrite value_S, Hobj, Hdepth.
        rewrite (skip_space_app _ _ _ Hsp Hd), Hclose.
        specialize (Hm t). by app_norm_in Hm. }
    destruct (Ascii.eqb c "[") eqn:Harr.
    { destruct (_ <? _)%N eqn:Hdepth; [done|].
      destruct (json.skip_space s) as [|d r'] eqn:E; [done|].
      pose proof (skip_space_head _ _ _ E) as Hd.
      destruct (Ascii.eqb d "]") eqn:Hclose.
      - intros [= <- <-]. exists (String c (sp +:+ String d EmptyString)).
        split; [rewrite Hs; by app_norm|].
        intros t _. app_norm. rewrite value_S, Hobj, Harr, Hdepth.
        by rewrite (skip_space_app _ _ _ Hsp Hd), Hclose.
      - intros H.
        pose proof (proj1 (proj2 (value_consumes fuel)) _ _ _ _ _ H) as Hlen.
        destruct (IHe _ _ _ _ _ H) as (p0 & Hp0 & Hm).
        destruct (prefix_head _ _ _ _ (eq_sym Hp0) Hlen) as [p0' ->].
        exists (String c (sp +:+ String d p0')).
        split; [rewrite Hs, Hp0; by app_norm|].
        intros t _. app_norm. rewrite value_S, Hobj, Harr, Hdepth.
        rewrite (skip_space_app _ _ _ Hsp Hd), Hclose.
        specialize (Hm t). by app_norm_in Hm. }
    destruct (Ascii.eqb c dquote) eqn:Hstr.
    { destruct (json.string_body s) as [[lit rest]|] eqn:E; [|done].
      intros [= <- <-]. destruct (string_body_split _ _ _ E) as (p & -> & Hp).
      exists (String c p). split; [by app_norm|].
      intros t _. app_norm. by rewrite value_S, Hobj, Harr, Hstr, Hp. }
    destruct (Ascii.eqb c "-" || is_digit (byte c)) eqn:Hnum.
    { destruct (json.number _) as [[lit rest]|] eqn:E; [|done].
      intros [= <- <-]. destruct (number_split _ _ _ E) as (Heq & Hp).
      exists lit. split; [done|].
      intros t Ht. destruct lit as [|c' lit'].
      { rewrite app_nil_l in Heq. subst rest.
        apply number_length in E. lia. }
      rewrite app_cons in Heq. injection Heq as <- _.
      specialize (Hp t Ht). rewrite app_cons in *.
      by rewrite value_S, Hobj, Harr, Hstr, Hnum, Hp. }
    destruct (json.strip_prefix "true" _) as [rest|] eqn:E1.
    { intros [= <- <-]. apply strip_prefix_split in E1.
      rewrite app_cons in E1. injection E1 as -> ->.
      exists "true". split; [done|]. intros t _. reflexivity. }
    destruct (json.strip_prefix "false" _) as [rest|] eqn:E2.
    { intros [= <- <-]. apply strip_prefix_split in E2.
      rewrite app_cons in E2. injection E2 as -> ->.
      exists "false". split; [done|]. intros t _. reflexivity. }
    destruct (json.strip_prefix "null" _) as [rest|] eqn:E3; [|done].
    intros [= <- <-]. apply strip_prefix_split in E3.
    rewrite app_cons in E3. injection E3 as -> ->.
    exists "null". split; [done|]. intros t _. reflexivity.
  - intros depth s acc v r. rewrite elems_S.
    destruct (json.value fuel depth s) as [[v1 r1]| |] eqn:E; [|done..].
    destruct (IHv _ _ _ _ E) as (p1 & -> & Hp1).
    destruct (skip_space_split r1) as (sp1 & Hr1 & Hsp1).
    destruct (json.skip_space r1) as [|c1 r'] eqn:E1; [done|].
    intros H.
    destruct (is_space_comma_close _ _ _ _ _ _ H (or_introl eq_refl))
      as (Hc1 & Hb1 & [[Hcomma Hmore]|(Hcomma & Hclose & Hdone)]).
    + pose proof (proj1 (proj2 (value_consumes fuel)) _ _ _ _ _ Hmore) as Hlen.
      destruct (IHe _ _ _ _ _ Hmore) as (p2 & Hp2 & Hrest).
      destruct (skip_space_split r') as (sp2 & Hr' & Hsp2).
      destruct (json.skip_space r') as [|e x] eqn:E2; [simpl in Hlen; lia|].
      pose proof (skip_space_head _ _ _ E2) as He.
      destruct (prefix_head _ _ _ _ (eq_sym Hp2) Hlen) as [p2' ->].
      exists (p1 +:+ sp1 +:+ String c1 (sp2 +:+ String e p2')).
      split; [rewrite Hr1, Hr', Hp2; by app_norm|].
      intros t. app_norm. rewrite elems_S.
      rewrite Hp1 by (by apply boundary_after_space).
      rewrite (skip_space_app _ _ _ Hsp1 Hc1).
      unfold json.close_or. rewrite Hcomma.
      rewrite (skip_space_app _ _ _ Hsp2 He).
      specialize (Hrest t). by app_norm_in Hrest.
    + injection Hdone as <- <-.
      exists (p1 +:+ sp1 +:+ String c1 EmptyString).
      split; [rewrite Hr1; by app_norm|].
      intros t. app_norm. rewrite elems_S.
      rewrite Hp1 by (by apply boundary_after_space).
      rewrite (skip_space_app _ _ _ Hsp1 Hc1).
      unfold json.close_or. by rewrite Hcomma, Hclose.
  - intros depth s acc v r. rewrite members_S.
    destruct s as [|q s]; [done|].
    destruct (negb (Ascii.eqb q dquote)) eqn:Hq; [done|].
    destruct (json.string_body s) as [[key r1]|] eqn:Ek; [|done].
    destruct (string_body_split _ _ _ Ek) as (pk & -> & Hpk).
    destruct (skip_space_split r1) as (sp1 & Hr1 & Hsp1).
    destruct (json.skip_space r1) as [|c r2] eqn:E1; [done|].
    pose proof (skip_space_head _ _ _ E1) as Hc.
    destruct (negb (Ascii.eqb c ":")) eqn:Hcolon; [done|]. cbv zeta.
    destruct (skip_space_split r2) as (sp2 & Hr2 & Hsp2).
    destruct (json.value fuel depth (json.skip_space r2))
      as [[v1 r4]| |] eqn:E; [|done..].
    pose proof (proj1 (value_consumes fuel) _ _ _ _ E) as Hlen3.
    destruct (IHv _ _ _ _ E) as (p3 & Hp3 & Hval).
    destruct (json.skip_space r2) as [|e3 x3] eqn:E3; [simpl in Hlen3; lia|].
    pose proof (skip_space_head _ _ _ E3) as He3.
    destruct (prefix_head _ _ _ _ (eq_sym Hp3) Hlen3) as [p3' ->].
    rewrite Hp3, take_str_app.
    destruct (skip_space_split r4) as (sp4 & Hr4 & Hsp4).
    destruct (json.skip_space r4) as [|c' r5] eqn:E4; [done|].
    intros H.
    destruct (is_space_comma_close _ _ _ _ _ _ H (or_intror eq_refl))
      as (Hc' & Hb' & [[Hcomma Hmore]|(Hcomma & Hclose & Hdone)]).
    + pose proof (proj2 (proj2 (value_consumes fuel)) _ _ _ _ _ Hmore) as Hlen.
      destruct (IHm _ _ _ _ _ Hmore) as (p5 & Hp5 & Hrest).
      destruct (skip_space_split r5) as (sp5 & Hr5 & Hsp5).
      destruct (json.skip_space r5) as [|e5 x5] eqn:E5; [simpl in Hlen; lia|].
      pose proof (skip_space_head _ _ _ E5) as He5.
      destruct (prefix_head _ _ _ _ (eq_sym Hp5) Hlen) as [p5' ->].
      exists (String q (pk +:+ sp1 +:+ String c (sp2 +:+ String e3 p3' +:+ sp4
                +:+ String c' (sp5 +:+ String e5 p5')))).
      split; [rewrite Hr1, Hr2, Hp3, Hr4, Hr5, Hp5; by app_norm|].
      intros t. app_norm. rewrite members_S, Hq, Hpk.
      rewrite (skip_space_app _ _ _ Hsp1 Hc), Hcolon. cbv zeta.
      rewrite (skip_space_app _ _ _ Hsp2 He3).
      change (String e3 (p3' +:+ ?x)) with (String e3 p3' +:+ x).
      rewrite Hval by (by apply boundary_after_space).
      rewrite take_str_app.
      rewrite (skip_space_app _ _ _ Hsp4 Hc').
      unfold json.close_or. rewrite Hcomma.
      rewrite (skip_space_app _ _ _ Hsp5 He5).
      specialize (Hrest t). by app_norm_in Hrest.
    + injection Hdone as <- <-.
      exists (String q (pk +:+ sp1 +:+ String c (sp2 +:+ String e3 p3' +:+ sp4
                +:+ String c' EmptyString))).
      split; [rewrite Hr1, Hr2, Hp3, Hr4; by app_norm|].
      intros t. app_norm. rewrite members_S, Hq, Hpk.
      rewrite (skip_space_app _ _ _ Hsp1 Hc), Hcolon. cbv zeta.
      rewrite (skip_space_app _ _ _ Hsp2 He3).
      change (String e3 (p3' +:+ ?x)) with (String e3 p3' +:+ x).
      rewrite Hval by (by apply boundary_after_space).
      rewrite take_str_app.
      rewrite (skip_space_app _ _ _ Hsp4 Hc').
      unfold json.close_or. by rewrite Hcomma, Hclose.
Qed.

(** Fewer open arrays and objects around a value do not hurt. *)
Lemma value_shallower (fuel : nat) :
  (forall d d' s x, (d' <= d)%N ->
     json.value fuel d s = json.Ok x -> json.value fuel d' s = json.Ok x)
  /\ (forall d d' s acc x, (d' <= d)%N ->
     json.elems fuel d s acc = json.Ok x -> json.elems fuel d' s acc = json.Ok x)
  /\ (forall d d' s acc x, (d' <= d)%N ->
     json.members fuel d s acc = json.Ok x ->
     json.members fuel d' s acc = json.Ok x).
Proof.
  induction fuel as [|fuel (IHv & IHe & IHm)]; [by repeat split|].
  split; [|split].
  - intros d d' [|c s] x Hd; [done|]. rewrite !value_S.
    assert (forall b, (json.maxNestingDepth <? d + 1)%N = false ->
              (json.maxNestingDepth <? d' + 1)%N = b -> b = false) as Hdepth.
    { intros b H1 H2. apply N.ltb_ge in H1. subst b. apply N.ltb_ge. lia. }
    destruct (Ascii.eqb c "{").
    { destruct (json.maxNestingDepth <? d + 1)%N eqn:H1; [done|].
      rewrite (Hdepth _ eq_refl eq_refl).
      destruct (json.skip_space s) as [|e r']; [done|].
      destruct (Ascii.eqb e "}"); [done|]. apply IHm. lia. }
    destruct (Ascii.eqb c "["); [|done].
    destruct (json.maxNestingDepth <? d + 1)%N eqn:H1; [done|].
    rewrite (Hdepth _ eq_refl eq_refl).
    destruct (json.skip_space s) as [|e r']; [done|].
    destruct (Ascii.eqb e "]"); [done|]. apply IHe. lia.
  - intros d d' s acc x Hd. rewrite !elems_S.
    destruct (json.value fuel d s) as [[v1 r1]| |] eqn:E; [|done..].
    rewrite (IHv _ _ _ _ Hd E).
    destruct (json.skip_space r1) as [|c r']; [done|].
    unfold json.close_or. destruct (Ascii.eqb c ","); [by apply IHe|done].
  - intros d d' s acc x Hd. rewrite !members_S.
    destruct s as [|q s]; [done|]. destruct (negb _); [done|].
    destruct (json.string_body s) as [[key r1]|]; [|done].
    destruct (json.skip_space r1) as [|c r2]; [done|].
    destruct (negb _); [done|]. cbv zeta.
    destruct (json.value fuel d _) as [[v1 r4]| |] eqn:E; [|done..].
    rewrite (IHv _ _ _ _ Hd E).
    destruct (json.skip_space r4) as [|c' r5]; [done|].
    unfold json.close_or. destruct (Ascii.eqb c' ","); [by apply IHm|done].
Qed.

(** A result reached with some fuel is the result with any fuel that is
    not less, and the result with the fuel that [parse] gives. *)
Lemma value_fuel_ge (n m : nat) (d : N) (s : string) :
  n <= m -> json.value n d s <> json.OutOfFuel ->
  json.value m d s = json.value n d s.
Proof.
  intros Hnm H. replace m with (n + (m - n)) by lia.
  by apply value_more_fuel.
Qed.

Lemma elems_fuel_ge (n m : nat) (d : N) (s : string) (acc : list json.Value) :
  n <= m -> json.elems n d s acc <> json.OutOfFuel ->
  json.elems m d s acc = json.elems n d s acc.
Proof.
  intros Hnm H. replace m with (n + (m - n)) by lia.
  by apply value_more_fuel.
Qed.

Lemma value_enough (n : nat) (d : N) (s : string) :
  json.value n d s <> json.OutOfFuel ->
  json.value (json.enough s) d s = json.value n d s.
Proof.
  intros H.
  assert (json.value (json.enough s) d s <> json.OutOfFuel) as He.
  { apply value_has_fuel. unfold json.enough. lia. }
  rewrite <- (value_fuel_ge n (n + json.enough s) d s ltac:(lia) H).
  by rewrite (value_fuel_ge (json.enough s) (n + json.enough s) d s
                 ltac:(lia) He).
Qed.

Lemma value_head (fuel : nat) (d : N) (c : ascii) (s : string)
    (x : json.Value * string) :
  json.value fuel d (String c s) = json.Ok x -> json.is_space c = false.
Proof.
  destruct fuel as [|fuel]; [done|].
  destruct (json.is_space c) eqn:Hc; [|done].
  unfold json.is_space in Hc. simpl in Hc. rewrite orb_false_r in Hc.
  rewrite value_S.
  repeat (apply orb_true_iff in Hc as [Hc|Hc];
          [apply Ascii.eqb_eq in Hc as ->; by cbn|]).
  apply Ascii.eqb_eq in Hc as ->. by cbn.
Qed.

(** What the reader takes for one value, read alone, is a JSON text with
    that value. *)
Lemma parse_of_value (fuel : nat) (d : N) (s : string) (v : json.Value) :
  json.value fuel d s = json.Ok (v, EmptyString) -> json.parse s = Some v.
Proof.
  intros H. unfold json.parse.
  assert (json.skip_space s = s) as ->.
  { destruct s as [|c s]; [done|]. simpl. by rewrite (value_head _ _ _ _ _ H). }
  apply (proj1 (value_shallower fuel) d 0%N) in H; [|lia].
  rewrite (value_enough fuel) by (by rewrite H). by rewrite H.
Qed.

Lemma members_texts (fuel : nat) :
  (forall d s acc v r,
     json.elems fuel d s acc = json.Ok (v, r) -> exists es, v = json.VArray es)
  /\ (forall d s acc v r,
     json.members fuel d s acc = json.Ok (v, r) ->
     exists ms, v = json.VObject ms /\ (Forall text_ok acc -> Forall text_ok ms)).
Proof.
  induction fuel as [|fuel (IHe & IHm)]; [by split|].
  split.
  - intros d s acc v r. rewrite elems_S.
    destruct (json.value fuel d s) as [[v1 r1]| |]; [|done..].
    destruct (json.skip_space r1) as [|c r']; [done|].
    unfold json.close_or. destruct (Ascii.eqb c ","); [apply IHe|].
    destruct (Ascii.eqb c "]"); [|done]. intros [= <- _]. by eexists.
  - intros d s acc v r. rewrite members_S.
    destruct s as [|q s]; [done|]. destruct (negb _); [done|].
    destruct (json.string_body s) as [[key r1]|]; [|done].
    destruct (json.skip_space r1) as [|c r2]; [done|].
    destruct (negb _); [done|]. cbv zeta.
    destruct (json.value fuel d _) as [[v1 r4]| |] eqn:E; [|done..].
    destruct (proj1 (value_local fuel) _ _ _ _ E) as (p3 & Hp3 & Hval).
    rewrite Hp3, take_str_app.
    assert (text_ok (key, p3, v1)) as Hok.
    { specialize (Hval EmptyString eq_refl). rewrite app_nil_r in Hval.
      by apply parse_of_value in Hval. }
    destruct (json.skip_space r4) as [|c' r5]; [done|].
    unfold json.close_or. destruct (Ascii.eqb c' ",").
    + intros H. destruct (IHm _ _ _ _ _ H) as (ms & -> & Hms).
      exists ms. split; [done|]. intros Hacc. apply Hms. by constructor.
    + destruct (Ascii.eqb c' "}"); [|done]. intros [= <- _].
      eexists. split; [done|]. intros Hacc. simpl.
      apply Forall_app. split; [|by repeat constructor].
      by apply List.Forall_rev.
Qed.

(** In a line that is read as an object, the bytes kept for each member
    are a JSON text with the value of the member. *)
Lemma parse_object_texts (data : string)
    (ms : list (string * string * json.Value)) :
  json.parse data = Some (json.VObject ms) -> Forall text_ok ms.
Proof.
  unfold json.parse.
  destruct (json.value _ _ _) as [[v rest]| |] eqn:E; [|done..].
  destruct (json.skip_space rest); [|done]. intros [= ->].
  destruct (json.enough _) as [|fuel]; [done|].
  destruct (json.skip_space data) as [|c s]; [done|].
  rewrite value_S in E.
  destruct (Ascii.eqb c "{").
  { destruct (_ <? _)%N; [done|].
    destruct (json.skip_space s) as [|e r']; [done|].
    destruct (Ascii.eqb e "}"); [by injection E as <- _|].
    destruct (proj2 (members_texts fuel) _ _ _ _ _ E) as (ms' & [= ->] & Hms).
    by apply Hms. }
  destruct (Ascii.eqb c "[").
  { destruct (_ <? _)%N; [done|].
    destruct (json.skip_space s) as [|e r']; [done|].
    destruct (Ascii.eqb e "]"); [done|].
    by destruct (proj1 (members_texts fuel) _ _ _ _ _ E) as (es & [=]). }
  destruct (Ascii.eqb c dquote).
  { by destruct (json.string_body s) as [[? ?]|]. }
  destruct (_ || _).
  { by destruct (json.number _) as [[? ?]|]. }
  by repeat destruct (json.strip_prefix _ _).
Qed.

Lemma last_member_elem (name : string)
    (ms : list (string * string * json.Value)) (m : string * string * json.Value) :
  last_member name ms = Some m -> m ∈ ms /\ key_selects name m = true.
Proof.
  unfold last_member. intros H%last_Some_elem_of.
  apply list_elem_of_In, filter_In in H as [H1 H2].
  by apply list_elem_of_In in H1.
Qed.

(** ** Reading a text that is built from parts *)

Lemma is_value_reads (d : N) (text : string) :
  is_value d text = true -> exists fuel v, reads fuel d text v.
Proof.
  unfold is_value.
  destruct (json.value _ _ _) as [[v [|? ?]]| |] eqn:E; [|done..]. intros _.
  destruct (proj1 (value_local _) _ _ _ _ E) as (p & Hp & Hval).
  rewrite app_nil_r in Hp. subst p.
  exists (json.enough text), v. split.
  - destruct text as [|c r]; [by destruct (json.enough _)|].
    exists c, r. split; [done|]. by eapply value_head.
  - intros n t Hn Ht. rewrite (value_fuel_ge (json.enough text) n) by
      (try done; by rewrite (Hval t Ht)).
    by apply Hval.
Qed.

Lemma is_literal_body (s : string) :
  is_literal s = true ->
  forall t, json.string_body (s +:+ String dquote t) = Some (s, t).
Proof.
  unfold is_literal.
  destruct (json.string_body _) as [[lit [|? ?]]|] eqn:E; [|done..].
  intros ->%String.eqb_eq t.
  destruct (string_body_split _ _ _ E) as (p & Hp & Hbody).
  rewrite app_nil_r in Hp. subst p. specialize (Hbody t).
  by rewrite app_assoc, app_cons, app_nil_l in Hbody.
Qed.

Lemma literal_reads (d : N) (s : string) :
  is_literal s = true -> reads 1 d (in_quotes s) (json.VString s).
Proof.
  intros Hs. split; [by eexists _, _|].
  intros [|n] t Hn _; [lia|]. unfold in_quotes.
  rewrite app_cons, app_assoc, app_cons, app_nil_l, value_S.
  change (Ascii.eqb dquote "{") with false.
  change (Ascii.eqb dquote "[") with false.
  change (Ascii.eqb dquote dquote) with true. cbv iota.
  by rewrite (is_literal_body _ Hs).
Qed.

Lemma reads_more (fuel fuel' : nat) (d : N) (text : string) (v : json.Value) :
  fuel <= fuel' -> reads fuel d text v -> reads fuel' d text v.
Proof.
  intros Hle [Hhead Hval]. split; [done|].
  intros n t Hn Ht. apply Hval; [lia|done].
Qed.

Lemma reads_skip_space (fuel : nat) (d : N) (text : string) (v : json.Value)
    (t : string) :
  reads fuel d text v -> json.skip_space (text +:+ t) = text +:+ t.
Proof.
  intros [(c & r & -> & Hc) _]. rewrite app_cons. simpl. by rewrite Hc.
Qed.

(** One element of an array, followed by a comma or by the closing
    bracket. *)
Lemma elems_comma (fuel n : nat) (d : N) (text rest : string)
    (v : json.Value) (acc : list json.Value) :
  reads fuel d text v -> fuel <= n ->
  json.elems (S n) d (text +:+ String "," rest) acc
  = json.elems n d (json.skip_space rest) (v :: acc).
Proof.
  intros [_ Hval] Hn. rewrite elems_S, Hval by done. reflexivity.
Qed.

Lemma elems_close (fuel n : nat) (d : N) (text rest : string)
    (v : json.Value) (acc : list json.Value) :
  reads fuel d text v -> fuel <= n ->
  json.elems (S n) d (text +:+ String "]" rest) acc
  = json.Ok (json.VArray (rev (v :: acc)), rest).
Proof.
  intros [_ Hval] Hn. rewrite elems_S, Hval by done. reflexivity.
Qed.

(** One member of an object, followed by a comma or by the closing
    brace. *)
Lemma members_comma (fuel n : nat) (d : N) (key text rest : string)
    (v : json.Value) (acc : list (string * string * json.Value)) :
  is_literal key = true -> reads fuel d text v -> fuel <= n ->
  json.members (S n) d
    (in_quotes key +:+ String ":" (text +:+ String "," rest)) acc
  = json.members n d (json.skip_space rest) ((key, text, v) :: acc).
Proof.
  intros Hkey Hreads Hn. unfold in_quotes.
  rewrite app_cons, app_assoc, app_cons, app_nil_l, members_S.
  change (negb (Ascii.eqb dquote dquote)) with false. cbv iota.
  rewrite (is_literal_body _ Hkey). cbn [json.skip_space json.is_space existsb
    Ascii.eqb Bool.eqb orb negb CR LF].
  cbv zeta. rewrite (reads_skip_space _ _ _ _ _ Hreads).
  destruct Hreads as [_ Hval]. rewrite Hval by done.
  rewrite take_str_app. reflexivity.
Qed.

Lemma members_close (fuel n : nat) (d : N) (key text rest : string)
    (v : json.Value) (acc : list (string * string * json.Value)) :
  is_literal key = true -> reads fuel d text v -> fuel <= n ->
  json.members (S n) d
    (in_quotes key +:+ String ":" (text +:+ String "}" rest)) acc
  = json.Ok (json.VObject (rev ((key, text, v) :: acc)), rest).
Proof.
  intros Hkey Hreads Hn. unfold in_quotes.
  rewrite app_cons, app_assoc, app_cons, app_nil_l, members_S.
  change (negb (Ascii.eqb dquote dquote)) with false. cbv iota.
  rewrite (is_literal_body _ Hkey). cbn [json.skip_space json.is_space existsb
    Ascii.eqb Bool.eqb orb negb CR LF].
  cbv zeta. rewrite (reads_skip_space _ _ _ _ _ Hreads).
  destruct Hreads as [_ Hval]. rewrite Hval by done.
  rewrite take_str_app. reflexivity.
Qed.

(** An object and an array that hold something. *)
Lemma value_object (n : nat) (d : N) (key rest : string) :
  (json.maxNestingDepth <? d + 1)%N = false ->
  json.value (S n) d (String "{" (in_quotes key +:+ rest))
  = json.members n (d + 1) (in_quotes key +:+ rest) [].
Proof. intros Hd. unfold in_quotes. by rewrite app_cons, value_S, Hd. Qed.

Lemma value_array (fuel n : nat) (d : N) (text rest : string) (v : json.Value) :
  (json.maxNestingDepth <? d + 1)%N = false ->
  reads fuel (d + 1) text v ->
  json.value (S n) d (String "[" (text +:+ rest))
  = json.elems n (d + 1) (text +:+ rest) [].
Proof.
  intros Hd Hreads. rewrite value_S, Hd.
  change (Ascii.eqb "[" "{") with false. change (Ascii.eqb "[" "[") with true.
  cbv iota. rewrite (reads_skip_space _ _ _ _ _ Hreads).
  destruct Hreads as [(c & r & -> & Hc) Hval]. rewrite app_cons.
  destruct (Ascii.eqb c "]") eqn:E; [|done].
  apply Ascii.eqb_eq in E as ->.
  specialize (Hval fuel EmptyString (le_n _) eq_refl).
  rewrite app_cons in Hval. destruct fuel; [done|]. by rewrite value_S in Hval.
Qed.

Lemma plain_cons (c : ascii) (s : string) :
  plain (String c s) = true ->
  Ascii.eqb c dquote = false /\ Ascii.eqb c "\" = false
  /\ (byte c <? 32)%N = false /\ (byte c <? utf8.RuneSelf)%N = true
  /\ plain s = true.
Proof.
  simpl. intros H. repeat (apply andb_true_iff in H as [H ?]).
  repeat split; try by apply negb_true_iff.
  - apply N.ltb_ge. by apply N.leb_le.
  - apply N.ltb_lt. unfold utf8.RuneSelf.
    match goal with H : (_ <? 127)%N = true |- _ => apply N.ltb_lt in H end.
    lia.
  - done.
Qed.

Lemma plain_is_literal (s : string) : plain s = true -> is_literal s = true.
Proof.
  intros Hs. unfold is_literal.
  assert (json.string_body (s +:+ String dquote EmptyString)
          = Some (s, EmptyString)) as ->; [|by rewrite String.eqb_refl].
  induction s as [|c s IH]; [reflexivity|].
  destruct (plain_cons _ _ Hs) as (Hq & Hb & Hlow & _ & Hs').
  rewrite app_cons. simpl. by rewrite Hq, Hb, Hlow, (IH Hs').
Qed.

Lemma plain_unquote (s : string) : plain s = true -> json.unquote s = Some s.
Proof.
  unfold json.unquote. induction s as [|c s IH]; [reflexivity|]. intros Hs.
  destruct (plain_cons _ _ Hs) as (Hq & Hb & Hlow & Hascii & Hs').
  change (json.unquote_loop 0 (String c s))
    with ('(out, n) ← json.unquote_step (String c s);
          rest ← json.unquote_loop (n - 1) s; Some (out +:+ rest)).
  unfold json.unquote_step. rewrite Hb, Hq, Hlow, Hascii. simpl.
  by rewrite (IH Hs').
Qed.

Lemma is_literal_unquote (s : string) :
  is_literal s = true -> is_Some (json.unquote s).
Proof.
  intros Hs. eapply unquote_of_read_string.
  apply (is_literal_body _ Hs EmptyString).
Qed.

(** ** [response]: what it accepts and what it returns *)

(** X1: [response] succeeds exactly on the lines that are a JSON object
    with a member for [result], and then returns the bytes of the last
    such member, as they stand in the line. *)
Theorem X1_response_succeeds_iff (data payload : string) :
  Part000.response data = (payload, None)
  <-> exists ms m,
        json.parse data = Some (json.VObject ms)
        /\ last_member "result" ms = Some m /\ payload = m.1.2.
Proof.
  rewrite Part000_response_cases. split.
  - destruct (json.parse data) as [v|]; [|done]. destruct v; try done.
    destruct (last_member "result" members) as [m|] eqn:E; [|done].
    intros [= <-]. by eexists _, _.
  - intros (ms & m & -> & -> & ->). reflexivity.
Qed.

(** X2: the payload of a success is itself a JSON text, so the caller can
    decode it. *)
Theorem X2_response_payload_is_json (data payload : string) :
  Part000.response data = (payload, None) -> json.Valid payload = true.
Proof.
  rewrite Part000_response_cases.
  destruct (json.parse data) as [v|] eqn:Hparse; [|done].
  destruct v as [| | | | |ms]; try done.
  destruct (last_member "result" ms) as [m|] eqn:Hlast; [|done].
  intros [= <-]. apply parse_object_texts in Hparse.
  apply last_member_elem in Hlast as [Hm _].
  rewrite Forall_forall in Hparse. specialize (Hparse m Hm).
  unfold json.Valid. unfold text_ok in Hparse. by rewrite Hparse.
Qed.

(** A success line, for X2. *)
Lemma X2_response_payload_witness :
  Part000.response (raw "{'id':1,'result':['on','100']}" +:+ CRLF)
  = (raw "['on','100']", None)
  /\ json.Valid (raw "['on','100']") = true.
Proof.
  split; [reflexivity|].
  exact (X2_response_payload_is_json
           (raw "{'id':1,'result':['on','100']}" +:+ CRLF) _ eq_refl).
Defined.

Lemma Part000_response_success_line (id payload : string) :
  is_value 1 id = true -> is_value 1 payload = true ->
  Part000.response (success_line id payload) = (payload, None).
Proof.
  intros (f1 & v1 & Hid)%is_value_reads (f2 & v2 & Hpay)%is_value_reads.
  assert (json.parse (success_line id payload)
          = Some (json.VObject [("id", id, v1); ("result", payload, v2)]))
    as Hparse.
  { assert (success_line id payload
            = String "{" (in_quotes "id" +:+ String ":" (id +:+ String ","
                (in_quotes "result" +:+ String ":" (payload +:+ String "}"
                   CRLF))))) as ->.
    { unfold success_line, in_quotes. eval_raw. by app_norm. }
    unfold json.parse.
    change (json.skip_space (String "{" ?x)) with (String "{" x).
    rewrite (value_enough (S (S (S (f1 + f2))))).
    - rewrite value_object by done. change (0 + 1)%N with 1%N.
      rewrite (members_comma f1 _ 1 "id" id _ v1 _ eq_refl Hid) by lia.
      change (json.skip_space (in_quotes "result" +:+ ?x))
        with (in_quotes "result" +:+ x).
      by rewrite (members_close f2 _ 1 "result" payload _ v2 _ eq_refl Hpay)
        by lia.
    - rewrite value_object by done. change (0 + 1)%N with 1%N.
      rewrite (members_comma f1 _ 1 "id" id _ v1 _ eq_refl Hid) by lia.
      change (json.skip_space (in_quotes "result" +:+ ?x))
        with (in_quotes "result" +:+ x).
      by rewrite (members_close f2 _ 1 "result" payload _ v2 _ eq_refl Hpay)
        by lia. }
  rewrite Part000_response_cases, Hparse. reflexivity.
Qed.

(** X3: a success response is decoded to the bytes of its result.  For
    every id and every result that are JSON values, the line
    [{"id":<id>,"result":<result>}] followed by CRLF gives the text of the
    result, unchanged, and no error. *)
Theorem X3_response_returns_the_result (id payload : string) :
  is_value 1 id = true -> is_value 1 payload = true ->
  Part000.response (success_line id payload) = (payload, None).
Proof. apply Part000_response_success_line. Qed.

(** The example of the package's README, for X3. *)
Lemma X3_response_returns_witness :
  Part000.response (success_line "1" (raw "['on','100']"))
  = (raw "['on','100']", None).
Proof.
  exact (X3_response_returns_the_result "1" (raw "['on','100']")
           eq_refl eq_refl).
Defined.

(** The line of an error response, decoded: the unquoted message is the
    text of the error. *)
Lemma Part000_response_error_line (code message : string) :
  is_value 2 code = true -> is_literal message = true ->
  exists text,
    json.unquote message = Some text
    /\ Part000.response (error_line code message)
       = (EmptyString, Some (errors_New text))
    /\ (plain message = true -> text = message).
Proof.
  intros (fc & vc & Hcode)%is_value_reads Hmsg.
  destruct (is_literal_unquote _ Hmsg) as [text Htext].
  exists text. split; [done|].
  split; [|intros H%plain_unquote; rewrite H in Htext; by injection Htext].
  set (errtext := String "{" (in_quotes "code" +:+ String ":" (code +:+
         String "," (in_quotes "message" +:+ String ":"
           (in_quotes message +:+ String "}" EmptyString))))).
  set (verr := json.VObject [("code", code, vc);
                 ("message", in_quotes message, json.VString message)]).
  assert (reads (fc + 4) 1 errtext verr) as Herr.
  { split; [by eexists _, _|]. intros n t Hn _.
    destruct n as [|[|[|n]]]; try lia. subst errtext. app_norm.
    change (String dquote (?k +:+ String dquote ?x)) with (in_quotes k +:+ x).
    rewrite value_object by done. change (1 + 1)%N with 2%N.
    rewrite (members_comma fc _ 2 "code" code _ vc _ eq_refl Hcode) by lia.
    change (json.skip_space (in_quotes "message" +:+ ?x))
      with (in_quotes "message" +:+ x).
    change (String dquote (message +:+ String dquote (String "}" t)))
      with (in_quotes message +:+ String "}" t).
    by rewrite (members_close 1 _ 2 "message" (in_quotes message) _
                  (json.VString message) _ eq_refl (literal_reads 2 _ Hmsg))
      by lia. }
  destruct (is_value_reads 1 "1" eq_refl) as (f1 & v1 & Hid).
  assert (json.parse (error_line code message)
          = Some (json.VObject [("id", "1", v1); ("error", errtext, verr)]))
    as Hparse.
  { assert (error_line code message
            = String "{" (in_quotes "id" +:+ String ":" ("1" +:+ String ","
                (in_quotes "error" +:+ String ":" (errtext +:+ String "}"
                   CRLF))))) as ->.
    { unfold error_line, errtext, in_quotes. eval_raw. by app_norm. }
    unfold json.parse.
    change (json.skip_space (String "{" ?x)) with (String "{" x).
    rewrite (value_enough (S (S (S (f1 + (fc + 4)))))).
    - rewrite value_object by done. change (0 + 1)%N with 1%N.
      rewrite (members_comma f1 _ 1 "id" "1" _ v1 _ eq_refl Hid) by lia.
      change (json.skip_space (in_quotes "error" +:+ ?x))
        with (in_quotes "error" +:+ x).
      by rewrite (members_close (fc + 4) _ 1 "error" errtext _ verr _
                    eq_refl Herr) by lia.
    - rewrite value_object by done. change (0 + 1)%N with 1%N.
      rewrite (members_comma f1 _ 1 "id" "1" _ v1 _ eq_refl Hid) by lia.
      change (json.skip_space (in_quotes "error" +:+ ?x))
        with (in_quotes "error" +:+ x).
      by rewrite (members_close (fc + 4) _ 1 "error" errtext _ verr _
                    eq_refl Herr) by lia. }
  rewrite Part000_response_cases, Hparse.
  change (last_member "result" _) with (@None (string * string * json.Value)).
  cbv iota. do 3 f_equal. subst verr.
  cbn -[json.unquote json.store_int]. unfold json.store_string.
  by rewrite Htext.
Qed.

(** X4: an error response is decoded to the error with its message.  For
    every code that is a JSON value and every message that may stand
    between quotes, the line of the error response gives the unquoted
    message as the text of the error and no payload; a message of plain
    characters is returned as it is. *)
Theorem X4_response_returns_the_message (code message : string) :
  is_value 2 code = true -> is_literal message = true ->
  exists text,
    json.unquote message = Some text
    /\ Part000.response (error_line code message)
       = (EmptyString, Some (errors_New text))
    /\ (plain message = true -> text = message).
Proof. apply Part000_response_error_line. Qed.

(** The example of the specification, for X4. *)
Lemma X4_response_returns_the_message_witness :
  Part000.response (error_line "-1" "unsupported method")
  = (EmptyString, Some (errors_New "unsupported method")).
Proof.
  destruct (X4_response_returns_the_message "-1" "unsupported method"
              eq_refl eq_refl) as (text & Htext & Hresp & Hplain).
  rewrite (Hplain eq_refl) in Hresp. exact Hresp.
Defined.

(** ** [GetProp], from the answer of the device to the map *)

Lemma reads_is_value (fuel : nat) (d : N) (text : string) (v : json.Value) :
  reads fuel d text v ->
  is_value d text = true /\ json.parse text = Some v.
Proof.
  intros [_ Hval]. specialize (Hval fuel EmptyString (le_n _) eq_refl).
  rewrite app_nil_r in Hval. split; [|by eapply parse_of_value].
  unfold is_value. rewrite (value_enough fuel) by (by rewrite Hval).
  by rewrite Hval.
Qed.

Lemma commas_in_quotes_head (p : string) (ps : list string) (x : string) :
  json.skip_space (commas (map in_quotes (p :: ps)) +:+ x)
  = commas (map in_quotes (p :: ps)) +:+ x.
Proof. by destruct ps. Qed.

Lemma elems_strings (d : N) (ps : list string) :
  forall p acc n t,
    forallb is_literal (p :: ps) = true -> length ps + 2 <= n ->
    json.elems n d (commas (map in_quotes (p :: ps)) +:+ String "]" t) acc
    = json.Ok (json.VArray (rev acc ++ map json.VString (p :: ps)), t).
Proof.
  induction ps as [|q ps IH]; intros p acc n t Hlit Hn.
  - simpl in Hlit. rewrite andb_true_r in Hlit.
    destruct n as [|n]; [lia|]. simpl commas.
    rewrite (elems_close 1 _ _ _ _ _ _ (literal_reads d _ Hlit)) by (simpl in Hn; lia).
    done.
  - change (forallb is_literal (p :: q :: ps))
      with (is_literal p && forallb is_literal (q :: ps)) in Hlit.
    apply andb_true_iff in Hlit as [Hp Hlit].
    destruct n as [|n]; [lia|].
    change (commas (map in_quotes (p :: q :: ps)))
      with (in_quotes p +:+ "," +:+ commas (map in_quotes (q :: ps))).
    rewrite !app_assoc.
    change ("," +:+ ?y) with (String "," y).
    rewrite (elems_comma 1 _ _ _ _ _ _ (literal_reads d _ Hp))
      by (simpl in Hn; lia).
    rewrite commas_in_quotes_head, IH by (done || simpl in *; lia).
    simpl. by rewrite <- List.app_assoc.
Qed.

(** An array of strings is read as the list of its strings. *)
Lemma string_array_reads (d : N) (props : list string) :
  (json.maxNestingDepth <? d + 1)%N = false ->
  forallb is_literal props = true ->
  reads (length props + 2) d (string_array props)
    (json.VArray (map json.VString props)).
Proof.
  intros Hd Hlit. split; [by eexists _, _|]. intros n t Hn _.
  destruct n as [|n]; [lia|]. unfold string_array.
  destruct props as [|p ps].
  - app_norm. by rewrite value_S, Hd.
  - rewrite !app_assoc.
    change ("[" +:+ ?y) with (String "[" y).
    change ("]" +:+ t) with (String "]" t).
    assert (exists r, commas (map in_quotes (p :: ps)) = in_quotes p +:+ r)
      as [r Hr].
    { destruct ps; [exists EmptyString; by rewrite app_nil_r|by eexists]. }
    assert (is_literal p = true) as Hp.
    { simpl in Hlit. by apply andb_true_iff in Hlit as [? _]. }
    rewrite Hr, app_assoc.
    rewrite (value_array 1 _ _ _ _ _ Hd (literal_reads _ _ Hp)).
    rewrite <- app_assoc, <- Hr.
    by rewrite elems_strings by (done || simpl in *; lia).
Qed.

Lemma plain_all_literal (props : list string) :
  forallb plain props = true -> forallb is_literal props = true.
Proof.
  induction props as [|p ps IH]; [done|]. simpl.
  intros [Hp Hps]%andb_true_iff. by rewrite (plain_is_literal _ Hp), IH.
Qed.

(** Decoded as a list of strings, an array of plain strings gives the
    strings. *)
Lemma Unmarshal_string_array (props : list string) :
  forallb plain props = true ->
  Part000.Unmarshal_strings (string_array props) [] = props.
Proof.
  intros Hplain. unfold Part000.Unmarshal_strings.
  destruct (reads_is_value _ _ _ _
              (string_array_reads 0 props eq_refl (plain_all_literal _ Hplain)))
    as [_ ->].
  simpl. induction props as [|p ps IH]; [done|].
  simpl in Hplain. apply andb_true_iff in Hplain as [Hp Hps].
  simpl. rewrite (plain_unquote _ Hp), IH by done. done.
Qed.

Lemma up_to_first_line (body more : string) :
  nolf body = true ->
  net.up_to LF (body +:+ String LF more) = Some (body +:+ String LF EmptyString).
Proof.
  induction body as [|c body IH]; intros Hb.
  - reflexivity.
  - simpl in Hb. apply andb_true_iff in Hb as [Hc Hb].
    apply negb_true_iff in Hc. rewrite !app_cons. simpl.
    by rewrite Hc, (IH Hb).
Qed.

Lemma nolf_app (s t : string) : nolf (s +:+ t) = nolf s && nolf t.
Proof.
  induction s as [|c s IH]; [reflexivity|].
  rewrite app_cons. simpl. by rewrite IH, andb_assoc.
Qed.

Lemma plain_nolf (s : string) : plain s = true -> nolf s = true.
Proof.
  induction s as [|c s IH]; [done|]. intros Hs.
  destruct (plain_cons _ _ Hs) as (_ & _ & Hlow & _ & Hs').
  simpl. rewrite (IH Hs'), andb_true_r.
  destruct (Ascii.eqb c LF) eqn:E; [|done].
  apply Ascii.eqb_eq in E as ->. done.
Qed.

Lemma string_array_nolf (props : list string) :
  forallb plain props = true -> nolf (string_array props) = true.
Proof.
  intros Hp. unfold string_array. rewrite !nolf_app. simpl.
  rewrite andb_true_r.
  induction props as [|p ps IH]; [done|].
  simpl in Hp. apply andb_true_iff in Hp as [Hp Hps].
  assert (nolf (in_quotes p) = true) as Hq.
  { unfold in_quotes. simpl. rewrite nolf_app, (plain_nolf _ Hp). done. }
  destruct ps as [|q ps]; [done|].
  change (commas (map in_quotes (p :: q :: ps)))
    with (in_quotes p +:+ "," +:+ commas (map in_quotes (q :: ps))).
  rewrite !nolf_app, Hq, (IH Hps). done.
Qed.

(** [request] against a peer that accepts the dial and sends a line: the
    line, up to its line feed, goes to [response]; what the peer sends
    after it is not looked at. *)
Lemma Part000_request_first_line (y : Part000.Yeelight)
    (cmd body more : string) (log : net.Log) :
  nolf body = true ->
  Part000.request y cmd (bulb (body +:+ String LF more)) log
  = (Part000.response (body +:+ String LF EmptyString),
     log ++ [net.Dialed (net.dials log) "tcp"
               (Part000.host y +:+ ":" +:+ Part000.port y);
             net.DeadlineSet (net.dials log) Part000.timeout;
             net.Wrote (net.dials log) (fmt.doPrintf (cmd +:+ CRLF));
             net.ReadLine (net.dials log);
             net.Closed (net.dials log)]).
Proof.
  intros Hb. rewrite Part000_request_steps. simpl.
  rewrite (up_to_first_line _ _ Hb). by rewrite <- !(assoc_L (++)).
Qed.

Lemma success_line_body (id payload : string) :
  success_line id payload
  = (raw "{'id':" +:+ id +:+ raw ",'result':" +:+ payload +:+ raw "}"
     +:+ String CR EmptyString) +:+ String LF EmptyString.
Proof. unfold success_line, CRLF. by rewrite !app_assoc. Qed.

(** X5: asked for names and answered by the device with a result array of
    as many plain strings, [GetProp] returns the map from the names to
    the strings, zipped by position. *)
Theorem X5_GetProp_decodes_the_answer (y : Part000.Yeelight)
    (values props : list string) (log : net.Log) :
  forallb plain props = true -> length props = length values ->
  (Part000.GetProp y values
     (bulb (success_line "1" (string_array props))) log).1
  = Returns (Some (zip_map values props), None).
Proof.
  intros Hplain Hlen. rewrite Part000_GetProp_steps, success_line_body.
  rewrite Part000_request_first_line.
  2:{ rewrite !nolf_app, (string_array_nolf _ Hplain). done. }
  rewrite <- success_line_body, Part000_response_success_line; [|done|].
  2:{ eapply reads_is_value, (string_array_reads 1); [done|].
      by apply plain_all_literal. }
  cbv zeta. simpl. rewrite (Unmarshal_string_array _ Hplain).
  rewrite Hlen, Nat.eqb_refl. simpl.
  rewrite fill_assigns by lia. by rewrite drop_0.
Qed.


(** The names and the answer of the README, for X5. *)
Lemma X5_GetProp_decodes_witness :
  (Part000.GetProp lamp ["power"; "bright"; "ct"]
     (bulb (success_line "1" (string_array ["on"; "100"; "4000"]))) []).1
  = Returns (Some (zip_map ["power"; "bright"; "ct"] ["on"; "100"; "4000"]),
             None).
Proof.
  exact (X5_GetProp_decodes_the_answer lamp ["power"; "bright"; "ct"]
           ["on"; "100"; "4000"] [] eq_refl eq_refl).
Defined.

(** ** The transport, call after call *)

(** X6: [request] reads one line.  Against a peer that accepts the dial
    and sends a line, the line up to its line feed is what [response]
    decodes, whatever the peer sends after it; the call dials, sets the
    deadline, writes once, reads once and closes, in this order.  Both
    revisions. *)
Theorem X6_request_reads_one_line (cmd body more : string) (log : net.Log) :
  nolf body = true ->
  (forall y,
     Part000.request y cmd (bulb (body +:+ String LF more)) log
     = (Part000.response (body +:+ String LF EmptyString),
        log ++ [net.Dialed (net.dials log) "tcp"
                  (Part000.host y +:+ ":" +:+ Part000.port y);
                net.DeadlineSet (net.dials log) Part000.timeout;
                net.Wrote (net.dials log) (fmt.doPrintf (cmd +:+ CRLF));
                net.ReadLine (net.dials log);
                net.Closed (net.dials log)]))
  /\ (forall y,
     GoyeelightGo.request y cmd (bulb (body +:+ String LF more)) log
     = (GoyeelightGo.response (body +:+ String LF EmptyString),
        log ++ [net.Dialed (net.dials log) "tcp"
                  (GoyeelightGo.host y +:+ ":" +:+ GoyeelightGo.port y);
                net.DeadlineSet (net.dials log) GoyeelightGo.timeout;
                net.Wrote (net.dials log) (fmt.doPrintf (cmd +:+ CRLF));
                net.ReadLine (net.dials log);
                net.Closed (net.dials log)])).
Proof.
  intros Hb. split; intros y.
  - by apply Part000_request_first_line.
  - rewrite GoyeelightGo_request_steps. simpl.
    rewrite (up_to_first_line _ _ Hb). by rewrite <- !(assoc_L (++)).
Qed.

(** Two lines sent at once, for X6: the second is not looked at. *)
Lemma X6_request_reads_one_line_witness :
  (Part000.Toogle lamp
     (bulb ((raw "{'id':7,'result':['ok']}" +:+ String CR EmptyString)
            +:+ String LF (raw "{'id':7,'error':{'code':-1,'message':'x'}}")))
     []).1
  = (raw "['ok']", None).
Proof.
  pose proof (proj1 (X6_request_reads_one_line Part000.Toogle_cmd
    (raw "{'id':7,'result':['ok']}" +:+ String CR EmptyString)
    (raw "{'id':7,'error':{'code':-1,'message':'x'}}") [] eq_refl) lamp) as H.
  unfold Part000.Toogle. rewrite H. reflexivity.
Defined.

Lemma up_to_nolf (s : string) : nolf s = true -> net.up_to LF s = None.
Proof.
  induction s as [|c s IH]; [done|]. simpl.
  intros [Hc Hs]%andb_true_iff. apply negb_true_iff in Hc.
  by rewrite Hc, (IH Hs).
Qed.

(** X7: an answer without a line feed is a failed read.  When the peer
    accepts the dial and what it sends holds no line feed, [request]
    returns the error of the read: in [part_000] with the empty string, in
    [goyeelight.go] as the text of a result without success.  The bytes
    read are dropped and not decoded, be they a complete response. *)
Theorem X7_request_needs_the_line_feed (cmd : string) (peer : net.Peer)
    (log : net.Log) :
  (forall sent, nolf (net.answers peer sent) = true) ->
  (forall y,
     accepted peer "tcp" (Part000.host y +:+ ":" +:+ Part000.port y) = true ->
     (Part000.request y cmd peer log).1
     = (EmptyString, Some (net.at_end peer)))
  /\ (forall y,
     accepted peer "tcp" (GoyeelightGo.host y +:+ ":" +:+ GoyeelightGo.port y)
       = true ->
     (GoyeelightGo.request y cmd peer log).1
     = GoyeelightGo.result false
         (GoyeelightGo.any_string (Error_text (net.at_end peer)))).
Proof.
  intros Hnolf. split; intros y Hacc; unfold accepted in Hacc.
  - rewrite Part000_request_steps.
    destruct (net.accepts peer "tcp" _); [done|]. simpl.
    by rewrite up_to_nolf.
  - rewrite GoyeelightGo_request_steps.
    destruct (net.accepts peer "tcp" _); [done|]. simpl.
    by rewrite up_to_nolf.
Qed.

(** A complete success response that lacks the line end, for X7. *)
Lemma X7_request_needs_the_line_feed_witness :
  (Part000.Toogle lamp (silent (raw "{'id':7,'result':['ok']}")) []).1
  = (EmptyString, Some (OpError "read tcp" "i/o timeout")).
Proof.
  exact (proj1 (X7_request_needs_the_line_feed Part000.Toogle_cmd
                  (silent (raw "{'id':7,'result':['ok']}")) []
                  (fun _ => eq_refl)) lamp eq_refl).
Defined.

Lemma opened_app (l1 l2 : net.Log) : opened (l1 ++ l2) = opened l1 ++ opened l2.
Proof. unfold opened. apply omap_app. Qed.

Lemma dials_opened (log : net.Log) : net.dials log = length (opened log).
Proof.
  unfold net.dials, opened. induction log as [|e log IH]; [done|].
  destruct e; simpl; try (f_equal; exact IH); exact IH.
Qed.

Lemma closes_app (c : net.Conn) (l1 l2 : net.Log) :
  closes c (l1 ++ l2) = closes c l1 + closes c l2.
Proof. induction l1 as [|e l1 IH]; [done|]. simpl. rewrite IH. lia. Qed.

Lemma left_open_nil (log : net.Log) :
  left_open log = [] <-> forall c, c ∈ opened log -> closes c log <> 0.
Proof.
  unfold left_open. split.
  - intros H c Hc Hz.
    assert (In c (List.filter (fun c => closes c log =? 0) (opened log))) as Hin.
    { apply filter_In. split; [by apply list_elem_of_In|]. by apply Nat.eqb_eq. }
    by rewrite H in Hin.
  - intros H. induction (opened log) as [|c l IH]; [done|]. simpl.
    destruct (closes c log =? 0) eqn:E.
    + apply Nat.eqb_eq in E. exfalso. apply (H c); [by left|done].
    + apply IH. intros c' Hc'. apply H. by right.
Qed.

(** What a call of [request] adds to a tidy log leaves it tidy. *)
Lemma tidy_failed_dial (log : net.Log) (address : string) :
  tidy log -> tidy (log ++ [net.DialFailed "tcp" address]).
Proof.
  intros [Hnames Hclosed]. rewrite left_open_nil in Hclosed. split.
  - rewrite opened_app, !dials_opened, opened_app. simpl.
    rewrite !List.app_nil_r. by rewrite <- dials_opened.
  - apply left_open_nil. intros c. rewrite opened_app, closes_app. simpl.
    rewrite List.app_nil_r. intros Hc%Hclosed. lia.
Qed.

Lemma tidy_call (log : net.Log) (address : string) (d : N) (bytes : string) :
  tidy log ->
  tidy (((((log ++ [net.Dialed (net.dials log) "tcp" address])
             ++ [net.DeadlineSet (net.dials log) d])
             ++ [net.Wrote (net.dials log) bytes])
             ++ [net.ReadLine (net.dials log)])
             ++ [net.Closed (net.dials log)]).
Proof.
  intros [Hnames Hclosed]. rewrite left_open_nil in Hclosed.
  rewrite <- !(assoc_L (++)). simpl. split.
  - rewrite opened_app, (dials_opened (_ ++ _)), opened_app. simpl.
    rewrite List.length_app. simpl. rewrite <- dials_opened, Hnames.
    rewrite Nat.add_1_r, seq_S. done.
  - apply left_open_nil. intros c. rewrite opened_app, closes_app. simpl.
    intros [Hc%Hclosed| ->%list_elem_of_singleton]%elem_of_app; [lia|].
    rewrite Nat.eqb_refl. lia.
Qed.

(** X8: calls leave no connection behind and reuse none.  A log whose
    connections are named in the order of their dials and are all closed
    is a log of this kind again after a call of [request], whatever the
    peer does; so is the log of any number of calls in a row.  Both
    revisions. *)
Theorem X8_request_keeps_the_log_tidy (cmd : string) (peer : net.Peer)
    (log : net.Log) :
  tidy log ->
  (forall y, tidy (Part000.request y cmd peer log).2)
  /\ (forall y, tidy (GoyeelightGo.request y cmd peer log).2).
Proof.
  intros Htidy. split; intros y.
  - rewrite Part000_request_steps.
    destruct (net.accepts peer "tcp" _); simpl;
      [by apply tidy_failed_dial | by apply tidy_call].
  - rewrite GoyeelightGo_request_steps.
    destruct (net.accepts peer "tcp" _); simpl;
      [by apply tidy_failed_dial | by apply tidy_call].
Qed.

(** Two calls in a row from the empty log, for X8. *)
Lemma X8_request_keeps_the_log_tidy_witness :
  tidy (Part000.On lamp (bulb (success_line "6" (raw "['ok']")))
          (Part000.Off lamp unreachable []).2).2.
Proof.
  apply (X8_request_keeps_the_log_tidy _ _ _).
  apply (X8_request_keeps_the_log_tidy _ _ []).
  by split.
Defined.

(** X9: a command without a percent sign reaches the device as it is.
    When the dial is accepted, what [request] adds to the writes of the
    log is one write, of the command followed by CRLF.  Both revisions,
    from any log. *)
Theorem X9_plain_command_is_written_verbatim (cmd : string) (peer : net.Peer)
    (log : net.Log) :
  has_percent cmd = false ->
  (forall y,
     accepted peer "tcp" (Part000.host y +:+ ":" +:+ Part000.port y) = true ->
     writes (Part000.request y cmd peer log).2 = writes log ++ [cmd +:+ CRLF])
  /\ (forall y,
     accepted peer "tcp" (GoyeelightGo.host y +:+ ":" +:+ GoyeelightGo.port y)
       = true ->
     writes (GoyeelightGo.request y cmd peer log).2
     = writes log ++ [cmd +:+ CRLF]).
Proof.
  intros Hcmd.
  assert (fmt.doPrintf (cmd +:+ CRLF) = cmd +:+ CRLF) as Hplain.
  { apply doPrintf_plain. by rewrite has_percent_app, Hcmd. }
  split; intros y Hacc; unfold accepted in Hacc.
  - rewrite Part000_request_steps.
    destruct (net.accepts peer "tcp" _); [done|]. simpl.
    unfold writes. rewrite !omap_app. simpl.
    by rewrite Hplain, !List.app_nil_r.
  - rewrite GoyeelightGo_request_steps.
    destruct (net.accepts peer "tcp" _); [done|]. simpl.
    unfold writes. rewrite !omap_app. simpl.
    by rewrite Hplain, !List.app_nil_r.
Qed.

(** Switching on after switching off, for X9. *)
Lemma X9_plain_command_is_written_verbatim_witness :
  writes (Part000.On lamp (bulb (success_line "6" (raw "['ok']")))
            (Part000.Off lamp (bulb (success_line "6" (raw "['ok']"))) []).2).2
  = [raw "{'id':6,'method':'set_power','params':['off','smooth',1000]}"
       +:+ CRLF;
     raw "{'id':6,'method':'set_power','params':['on','smooth',1000]}"
       +:+ CRLF].
Proof.
  exact (proj1 (X9_plain_command_is_written_verbatim
                  (Part000.SetPower_cmd "on" "smooth" "1000")
                  (bulb (success_line "6" (raw "['ok']")))
                  (Part000.Off lamp (bulb (success_line "6" (raw "['ok']")))
                     []).2
                  eq_refl) lamp eq_refl).
Defined.

(** ** [GetProp], whatever the peer does *)

(** X14: [GetProp] ends in one of two ways, whatever the names, the peer
    and the log: with an error and no map, or with a map and no error.  It
    does not panic, and a map that it returns has the names asked for as
    its keys, zipped with as many decoded values. *)
Theorem X14_GetProp_map_or_error (y : Part000.Yeelight)
    (values : list string) (peer : net.Peer) (log : net.Log) :
  (exists err,
     (Part000.GetProp y values peer log).1 = Returns (None, Some err))
  \/ (exists props,
     length props = length values
     /\ (Part000.GetProp y values peer log).1
        = Returns (Some (zip_map values props), None)
     /\ dom (zip_map values props) = list_to_set values).
Proof.
  rewrite Part000_GetProp_steps.
  destruct (Part000.request _ _ _ _) as [[res [err|]] log'];
    [left; by eexists|].
  cbv zeta. simpl.
  destruct (length _ =? length values) eqn:Hlen; [|left; by eexists].
  apply Nat.eqb_eq in Hlen. right.
  exists (Part000.Unmarshal_strings res []). split; [done|]. simpl.
  rewrite fill_assigns by lia. rewrite drop_0. split; [done|].
  by apply zip_map_dom.
Qed.

Lemma error_line_body (code message : string) :
  error_line code message
  = (raw "{'id':1,'error':{'code':" +:+ code +:+ raw ",'message':'"
     +:+ message +:+ raw "'}}" +:+ String CR EmptyString)
    +:+ String LF EmptyString.
Proof. unfold error_line, CRLF. by rewrite !app_assoc. Qed.

(** X15: the message of the device reaches the caller.  Against a device
    that answers with an error response whose message is of plain
    characters, [request] returns no payload and the error with that
    message, and so does [GetProp], with no map, whatever the names. *)
Theorem X15_device_error_reaches_the_caller (y : Part000.Yeelight)
    (code message : string) (log : net.Log) :
  is_value 2 code = true -> nolf code = true -> plain message = true ->
  (forall cmd,
     (Part000.request y cmd (bulb (error_line code message)) log).1
     = (EmptyString, Some (errors_New message)))
  /\ (forall values,
     (Part000.GetProp y values (bulb (error_line code message)) log).1
     = Returns (None, Some (errors_New message))).
Proof.
  intros Hcode Hline Hmsg.
  assert (forall cmd,
     (Part000.request y cmd (bulb (error_line code message)) log).1
     = (EmptyString, Some (errors_New message))) as Hreq.
  { intros cmd. rewrite error_line_body, Part000_request_first_line.
    2:{ rewrite !nolf_app, Hline, (plain_nolf _ Hmsg). done. }
    rewrite <- error_line_body. simpl.
    destruct (Part000_response_error_line code message Hcode
                (plain_is_literal _ Hmsg)) as (text & _ & Hresp & Htext).
    by rewrite Hresp, (Htext Hmsg). }
  split; [exact Hreq|]. intros values.
  rewrite Part000_GetProp_steps. specialize (Hreq (Part000.GetProp_cmd values)).
  destruct (Part000.request _ _ _ _) as [[res err] log']. simpl in Hreq.
  by injection Hreq as -> ->.
Qed.

(** The error response of the specification, for X15. *)
Lemma X15_device_error_reaches_the_caller_witness :
  (Part000.GetProp lamp ["power"]
     (bulb (error_line "-1" "unsupported method")) []).1
  = Returns (None, Some (errors_New "unsupported method")).
Proof.
  exact (proj2 (X15_device_error_reaches_the_caller lamp "-1"
                  "unsupported method" [] eq_refl eq_refl eq_refl) ["power"]).
Defined.

(** ** The two revisions of [response] *)

Lemma last_stored_cons (name : string) (m : string * string * json.Value)
    (ms : list (string * string * json.Value)) :
  last_stored name (m :: ms)
  = match last_stored name ms with
    | Some m' => Some m'
    | None =>
      if key_selects name m && negb (beyond_float64 m.2) then Some m else None
    end.
Proof.
  unfold last_stored. simpl.
  destruct (key_selects name m && negb (beyond_float64 m.2)).
  - rewrite last_cons. by destruct (last _).
  - by destruct (last _).
Qed.

(** The [Result] that the members of an object leave in the [ResponseOk]
    of [goyeelight.go]: the value of the last member for [result] that is
    stored, nil when it is [null]; a number that float64 does not hold
    is passed over. *)
Lemma GoyeelightGo_Result_of_members
    (ms : list (string * string * json.Value)) (res : GoyeelightGo.ResponseOk) :
  GoyeelightGo.Result_ (fold_left GoyeelightGo.set_ResponseOk ms res)
  = match last_stored "result" ms with
    | Some m => match m.2 with json.VNull => None | v => Some v end
    | None => GoyeelightGo.Result_ res
    end.
Proof.
  revert res. induction ms as [|m ms IH]; intros res; [reflexivity|].
  simpl. rewrite IH, last_stored_cons.
  destruct (last_stored "result" ms); [reflexivity|].
  destruct m as [[keylit text] v].
  unfold GoyeelightGo.set_ResponseOk, key_selects.
  simpl. destruct (json.unquote keylit) as [key|]; [|reflexivity].
  destruct (json.selects key "id") eqn:Hid.
  - by rewrite (selects_id_not_result _ Hid).
  - destruct (json.selects key "result"); [|reflexivity].
    destruct v; try reflexivity. simpl.
    by destruct (json.ParseFloat_overflows lit).
Qed.

Lemma last_stored_selects (name : string)
    (ms : list (string * string * json.Value)) :
  is_Some (last_stored name ms) -> is_Some (last_member name ms).
Proof.
  induction ms as [|m0 ms IH]; [done|].
  rewrite last_stored_cons, last_member_cons.
  destruct (last_stored name ms) as [m1|].
  - intros _. by destruct (IH ltac:(done)) as [m' ->].
  - destruct (key_selects name m0); [|by intros [? [=]]].
    intros _. by destruct (last_member name ms).
Qed.

Lemma last_member_stored (name : string)
    (ms : list (string * string * json.Value)) (m : string * string * json.Value) :
  last_member name ms = Some m -> beyond_float64 m.2 = false ->
  last_stored name ms = Some m.
Proof.
  induction ms as [|m0 ms IH]; [done|].
  rewrite last_stored_cons, last_member_cons.
  destruct (last_member name ms) as [m1|] eqn:Hlast.
  - intros [= ->] Hm. by rewrite (IH eq_refl Hm).
  - destruct (key_selects name m0) eqn:Hsel; [|done].
    intros [= ->] Hm. rewrite Hm. simpl.
    destruct (last_stored name ms) as [m2|] eqn:Hstored; [|done].
    destruct (last_stored_selects name ms) as [m' Hm'];
      [by rewrite Hstored|].
    by rewrite Hm' in Hlast.
Qed.

(** X13: the two revisions of [response] agree on success but for [null]
    and for numbers that float64 does not hold.  Where [goyeelight.go]
    reports success, [part_000] returns a payload; where [part_000]
    returns a payload that is neither [null] nor such a number,
    [goyeelight.go] reports success; where the payload is [null],
    [goyeelight.go] reports no success. *)
Theorem X13_revisions_agree_but_for_null_and_overflow (data : string) :
  (GoyeelightGo.Status (GoyeelightGo.response data) = true ->
   exists payload, Part000.response data = (payload, None))
  /\ (forall payload v,
        Part000.response data = (payload, None) ->
        json.parse payload = Some v ->
        v <> json.VNull -> beyond_float64 v = false ->
        GoyeelightGo.Status (GoyeelightGo.response data) = true)
  /\ (forall payload,
        Part000.response data = (payload, None) ->
        json.parse payload = Some json.VNull ->
        GoyeelightGo.Status (GoyeelightGo.response data) = false).
Proof.
  rewrite Part000_response_cases.
  unfold GoyeelightGo.response, GoyeelightGo.Unmarshal_ResponseOk.
  destruct (json.parse data) as [v|] eqn:Hparse.
  2:{ simpl. split; [done|]. split; by intros ? **. }
  destruct v as [| | | | |ms];
    try (simpl; split; [done|]; split; by intros ? **).
  unfold json.store_struct. rewrite GoyeelightGo_Result_of_members.
  assert (forall m, last_member "result" ms = Some m ->
            json.parse m.1.2 = Some m.2) as Htext.
  { intros m Hm. pose proof (parse_object_texts _ _ Hparse) as Hall.
    rewrite Forall_forall in Hall. apply Hall.
    by eapply last_member_elem. }
  split; [|split].
  - destruct (last_stored "result" ms) as [m|] eqn:Hstored; [|done].
    intros _. destruct (last_stored_selects "result" ms) as [m' ->];
      [by rewrite Hstored|].
    by eexists.
  - intros payload v Hresp Hv Hnull Hfits.
    destruct (last_member "result" ms) as [m|] eqn:Hlast; [|done].
    injection Hresp as <-. rewrite (Htext m eq_refl) in Hv.
    injection Hv as <-.
    rewrite (last_member_stored _ _ _ Hlast Hfits).
    by destruct m.2.
  - intros payload Hresp Hv.
    destruct (last_member "result" ms) as [m|] eqn:Hlast; [|done].
    injection Hresp as <-. rewrite (Htext m eq_refl) in Hv.
    injection Hv as Hnull.
    rewrite (last_member_stored _ _ _ Hlast) by (by rewrite Hnull).
    by rewrite Hnull.
Qed.

(** The answer of the README with the older revision, and a [null], for
    X13. *)
Lemma X13_revisions_agree_witness :
  GoyeelightGo.Status
    (GoyeelightGo.response (success_line "1" (raw "['on','100']"))) = true
  /\ GoyeelightGo.Status
       (GoyeelightGo.response (success_line "1" "null")) = false.
Proof.
  split.
  - exact (proj1 (proj2 (X13_revisions_agree_but_for_null_and_overflow
             (success_line "1" (raw "['on','100']"))))
             (raw "['on','100']") _ eq_refl eq_refl ltac:(discriminate)
             eq_refl).
  - exact (proj2 (proj2 (X13_revisions_agree_but_for_null_and_overflow
             (success_line "1" "null"))) "null" eq_refl eq_refl).
Defined.

(** A result that float64 does not hold: [part_000] returns its bytes,
    [goyeelight.go] takes the error path; after a result that is stored,
    the same member is passed over. *)
Example response_of_a_number_beyond_float64 :
  Part000.response (success_line "1" "1e400") = ("1e400", None)
  /\ GoyeelightGo.Status (GoyeelightGo.response (success_line "1" "1e400"))
     = false
  /\ GoyeelightGo.Status
       (GoyeelightGo.response (raw "{'result':['ok'],'result':1e400}"))
     = true.
Proof. by vm_compute. Qed.

(** ** Arrays of values *)

Lemma commas_head (p : string) (ps : list string) :
  exists r, commas (p :: ps) = p +:+ r.
Proof.
  destruct ps as [|q ps]; [exists EmptyString; by rewrite app_nil_r|].
  by eexists.
Qed.

(** The elements of an array, each a value, up to the closing bracket. *)
Lemma elems_values (d : N) (ps : list string) :
  forall p, forallb (is_value d) (p :: ps) = true ->
  exists F vs,
    Forall2 (fun e v => json.parse e = Some v) (p :: ps) vs
    /\ forall acc n t, F <= n ->
         json.elems n d (commas (p :: ps) +:+ String "]" t) acc
         = json.Ok (json.VArray (rev acc ++ vs), t).
Proof.
  induction ps as [|q ps IH]; intros p Hall.
  - simpl in Hall. rewrite andb_true_r in Hall.
    destruct (is_value_reads _ _ Hall) as (f & v & Hreads).
    exists (S f), [v]. split.
    { constructor; [|constructor]. by eapply reads_is_value. }
    intros acc [|n] t Hn; [lia|]. simpl commas.
    by rewrite (elems_close f _ _ _ _ _ _ Hreads) by lia.
  - change (forallb (is_value d) (p :: q :: ps))
      with (is_value d p && forallb (is_value d) (q :: ps)) in Hall.
    apply andb_true_iff in Hall as [Hp Hall].
    destruct (is_value_reads _ _ Hp) as (f & v & Hreads).
    destruct (IH q Hall) as (F & vs & Hvs & Helems).
    exists (S (f + F)), (v :: vs). split.
    { constructor; [|done]. by eapply reads_is_value. }
    intros acc [|n] t Hn; [lia|].
    change (commas (p :: q :: ps)) with (p +:+ "," +:+ commas (q :: ps)).
    rewrite !app_assoc. change ("," +:+ ?y) with (String "," y).
    rewrite (elems_comma f _ _ _ _ _ _ Hreads) by lia.
    assert (json.skip_space (commas (q :: ps) +:+ String "]" t)
            = commas (q :: ps) +:+ String "]" t) as ->.
    { destruct (commas_head q ps) as [r ->]. rewrite app_assoc.
      simpl in Hall. apply andb_true_iff in Hall as [Hq _].
      destruct (is_value_reads _ _ Hq) as (fq & vq & Hq').
      by eapply reads_skip_space. }
    rewrite Helems by lia. simpl. by rewrite <- List.app_assoc.
Qed.

(** An array of values is read as the list of the values. *)
Lemma array_text_reads (d : N) (items : list string) :
  (json.maxNestingDepth <? d + 1)%N = false ->
  forallb (is_value (d + 1)) items = true ->
  exists F vs,
    Forall2 (fun e v => json.parse e = Some v) items vs
    /\ reads F d (array_text items) (json.VArray vs).
Proof.
  intros Hd Hall. destruct items as [|p ps].
  - exists 1, []. split; [constructor|]. split; [by eexists _, _|].
    intros [|n] t Hn _; [lia|]. unfold array_text. app_norm.
    by rewrite value_S, Hd.
  - destruct (elems_values _ ps p Hall) as (F & vs & Hvs & Helems).
    exists (S F), vs. split; [done|]. split; [by eexists _, _|].
    intros [|n] t Hn _; [lia|]. unfold array_text.
    rewrite !app_assoc.
    change ("[" +:+ ?y) with (String "[" y).
    change ("]" +:+ t) with (String "]" t).
    assert (is_value (d + 1) p = true) as Hp.
    { simpl in Hall. by apply andb_true_iff in Hall as [? _]. }
    destruct (is_value_reads _ _ Hp) as (f & v & Hreads).
    destruct (commas_head p ps) as [r Hr].
    rewrite Hr, app_assoc.
    rewrite (value_array f _ _ _ _ _ Hd Hreads).
    rewrite <- app_assoc, <- Hr. by rewrite Helems by lia.
Qed.

Lemma nolf_commas (items : list string) :
  forallb nolf items = true -> nolf (commas items) = true.
Proof.
  induction items as [|p ps IH]; [done|].
  intros [Hp Hps]%andb_true_iff.
  destruct ps as [|q ps]; [done|].
  change (commas (p :: q :: ps)) with (p +:+ "," +:+ commas (q :: ps)).
  rewrite !nolf_app, Hp, (IH Hps). done.
Qed.

(** X16: [GetProp] drops the error of decoding the values.  Answered with
    a result array of as many JSON values as names, of whatever kind,
    [GetProp] returns a map and no error: each name is mapped to its value
    decoded as a string, which is the empty string for a value that is no
    string. *)
Theorem X16_GetProp_non_string_values (y : Part000.Yeelight)
    (values items : list string) (log : net.Log) :
  forallb (is_value 2) items = true -> forallb nolf items = true ->
  length items = length values ->
  (Part000.GetProp y values (bulb (success_line "1" (array_text items))) log).1
  = Returns (Some (zip_map values (map as_string items)), None)
  /\ forall item v,
       item ∈ items -> json.parse item = Some v ->
       (forall lit, v <> json.VString lit) -> as_string item = EmptyString.
Proof.
  intros Hall Hlines Hlen. split.
  2:{ intros item v _ Hv Hkind. unfold as_string. rewrite Hv.
      destruct v; try done. by destruct (Hkind lit). }
  destruct (array_text_reads 1 items eq_refl Hall) as (F & vs & Hvs & Hreads).
  rewrite Part000_GetProp_steps, success_line_body.
  rewrite Part000_request_first_line.
  2:{ unfold array_text. rewrite !nolf_app, (nolf_commas _ Hlines). done. }
  rewrite <- success_line_body, Part000_response_success_line; [|done|].
  2:{ by eapply reads_is_value. }
  cbv zeta. simpl.
  assert (Part000.Unmarshal_strings (array_text items) [] = map as_string items)
    as ->.
  { unfold Part000.Unmarshal_strings.
    destruct (reads_is_value _ _ _ _ Hreads) as [_ ->]. simpl.
    clear -Hvs. induction Hvs as [|e v es vs He _ IH]; [done|].
    simpl. rewrite IH. unfold as_string at 2. by rewrite He. }
  rewrite length_map, Hlen, Nat.eqb_refl. simpl.
  rewrite fill_assigns by (rewrite length_map; lia). by rewrite drop_0.
Qed.

(** A number, a truth value and a string, for X16. *)
Lemma X16_GetProp_non_string_values_witness :
  (Part000.GetProp lamp ["bright"; "flowing"; "power"]
     (bulb (success_line "1" (array_text ["100"; "true"; raw "'on'"]))) []).1
  = Returns (Some (zip_map ["bright"; "flowing"; "power"]
                     [EmptyString; EmptyString; "on"]), None).
Proof.
  exact (proj1 (X16_GetProp_non_string_values lamp
                  ["bright"; "flowing"; "power"]
                  ["100"; "true"; raw "'on'"] [] eq_refl eq_refl eq_refl)).
Defined.

(** ** The commands as JSON texts *)

Lemma render_ok (p : Param) :
  param_ok p = true -> is_value 2 (render p) = true.
Proof.
  destruct p as [s|s]; [|done]. intros Hs.
  assert (render (quoted s) = in_quotes s) as ->.
  { unfold render, in_quotes. eval_raw. by app_norm. }
  by eapply reads_is_value, (literal_reads 2).
Qed.

Lemma renders_ok (params : list Param) :
  forallb param_ok params = true ->
  forallb (is_value 2) (map render params) = true.
Proof.
  induction params as [|p ps IH]; [done|]. simpl.
  intros [Hp Hps]%andb_true_iff. by rewrite (render_ok _ Hp), IH.
Qed.

(** A request with an identifier that is a JSON value, a method that may
    stand between quotes and parameters that are written as JSON values is
    read as the object of its three members. *)
Lemma encode_parses (id method : string) (params : list Param) :
  is_value 1 id = true -> is_literal method = true ->
  forallb param_ok params = true ->
  exists vid vs,
    length vs = length params
    /\ json.parse (encode id method params)
       = Some (json.VObject
                 [("id", id, vid);
                  ("method", in_quotes method, json.VString method);
                  ("params", array_text (map render params), json.VArray vs)]).
Proof.
  intros (fi & vid & Hid)%is_value_reads Hmethod Hparams%renders_ok.
  destruct (array_text_reads 1 _ eq_refl Hparams) as (F & vs & Hvs & Harr).
  exists vid, vs. split.
  { apply Forall2_length in Hvs. by rewrite length_map in Hvs. }
  assert (encode id method params
          = String "{" (in_quotes "id" +:+ String ":" (id +:+ String ","
              (in_quotes "method" +:+ String ":" (in_quotes method +:+
                 String "," (in_quotes "params" +:+ String ":"
                   (array_text (map render params) +:+ String "}"
                      EmptyString))))))) as ->.
  { unfold encode, array_text, in_quotes. eval_raw. by app_norm. }
  assert (forall n, S (S (S (S (fi + F)))) <= n ->
    json.value n 0
      (String "{" (in_quotes "id" +:+ String ":" (id +:+ String ","
         (in_quotes "method" +:+ String ":" (in_quotes method +:+
            String "," (in_quotes "params" +:+ String ":"
              (array_text (map render params) +:+ String "}"
                 EmptyString)))))))
    = json.Ok (json.VObject
                 [("id", id, vid);
                  ("method", in_quotes method, json.VString method);
                  ("params", array_text (map render params), json.VArray vs)],
               EmptyString)) as Hvalue.
  { intros n Hn. destruct n as [|[|[|[|n]]]]; try lia.
    rewrite value_object by done. change (0 + 1)%N with 1%N.
    rewrite (members_comma fi _ 1 "id" id _ vid _ eq_refl Hid) by lia.
    change (json.skip_space (in_quotes "method" +:+ ?x))
      with (in_quotes "method" +:+ x).
    rewrite (members_comma 1 _ 1 "method" (in_quotes method) _
               (json.VString method) _ eq_refl (literal_reads 1 _ Hmethod))
      by lia.
    change (json.skip_space (in_quotes "params" +:+ ?x))
      with (in_quotes "params" +:+ x).
    by rewrite (members_close F _ 1 "params" _ _ (json.VArray vs) _
                  eq_refl Harr) by lia. }
  unfold json.parse.
  change (json.skip_space (String "{" ?x)) with (String "{" x).
  rewrite (value_enough (S (S (S (S (fi + F)))))).
  - by rewrite Hvalue.
  - by rewrite Hvalue.
Qed.

Lemma encode_valid (id method : string) (params : list Param) :
  is_value 1 id = true -> is_literal method = true ->
  forallb param_ok params = true ->
  json.Valid (encode id method params) = true.
Proof.
  intros Hid Hm Hp. unfold json.Valid.
  by destruct (encode_parses _ _ _ Hid Hm Hp) as (? & ? & _ & ->).
Qed.

(** X10: the commands of [part_000] other than that of [GetProp] are JSON
    texts whenever their arguments are written as JSON: a numeric argument
    a JSON value, an argument between quotes a text that may stand
    there.  Each method hands its command to [request]; [SetScene] prints
    it first. *)
Theorem X10_catalog_commands_are_json :
  (forall value effect duration,
     is_value 2 value = true ->
     is_literal effect = true ->
     is_value 2 duration = true ->
     json.Valid (Part000.SetCtAbx_cmd value effect duration) = true
     /\ forall y peer log,
        Part000.SetCtAbx y value effect duration peer log
        = Part000.request y (Part000.SetCtAbx_cmd value effect duration) peer log)
  /\ (forall value effect duration,
     is_value 2 value = true ->
     is_literal effect = true ->
     is_value 2 duration = true ->
     json.Valid (Part000.SetRGB_cmd value effect duration) = true
     /\ forall y peer log,
        Part000.SetRGB y value effect duration peer log
        = Part000.request y (Part000.SetRGB_cmd value effect duration) peer log)
  /\ (forall hue sat effect duration,
     is_value 2 hue = true ->
     is_value 2 sat = true ->
     is_literal effect = true ->
     is_value 2 duration = true ->
     json.Valid (Part000.SetHSV_cmd hue sat effect duration) = true
     /\ forall y peer log,
        Part000.SetHSV y hue sat effect duration peer log
        = Part000.request y (Part000.SetHSV_cmd hue sat effect duration) peer log)
  /\ (forall brightness effect duration,
     is_value 2 brightness = true ->
     is_literal effect = true ->
     is_value 2 duration = true ->
     json.Valid (Part000.SetBright_cmd brightness effect duration) = true
     /\ forall y peer log,
        Part000.SetBright y brightness effect duration peer log
        = Part000.request y (Part000.SetBright_cmd brightness effect duration) peer log)
  /\ (forall power effect duration,
     is_literal power = true ->
     is_literal effect = true ->
     is_value 2 duration = true ->
     json.Valid (Part000.SetPower_cmd power effect duration) = true
     /\ forall y peer log,
        Part000.SetPower y power effect duration peer log
        = Part000.request y (Part000.SetPower_cmd power effect duration) peer log)
  /\ json.Valid Part000.Toogle_cmd = true
  /\ (forall y peer log,
        Part000.Toogle y peer log
        = Part000.request y Part000.Toogle_cmd peer log)
  /\ json.Valid Part000.SetDefault_cmd = true
  /\ (forall y peer log,
        Part000.SetDefault y peer log
        = Part000.request y Part000.SetDefault_cmd peer log)
  /\ (forall count action flowExpression,
     is_value 2 count = true ->
     is_value 2 action = true ->
     is_literal flowExpression = true ->
     json.Valid (Part000.StartCf_cmd count action flowExpression) = true
     /\ forall y peer log,
        Part000.StartCf y count action flowExpression peer log
        = Part000.request y (Part000.StartCf_cmd count action flowExpression) peer log)
  /\ json.Valid Part000.StopCf_cmd = true
  /\ (forall y peer log,
        Part000.StopCf y peer log
        = Part000.request y Part000.StopCf_cmd peer log)
  /\ (forall class values,
     is_literal class = true ->
     is_value 2 values = true ->
     json.Valid (Part000.SetScene_cmd class values) = true
     /\ forall y peer log,
        Part000.SetScene y class values peer log
        = Part000.request y (Part000.SetScene_cmd class values) peer
            (log ++ [net.Printed (Part000.SetScene_cmd class values +:+ String LF EmptyString)]))
  /\ (forall t value,
     is_value 2 t = true ->
     is_value 2 value = true ->
     json.Valid (Part000.CronAdd_cmd t value) = true
     /\ forall y peer log,
        Part000.CronAdd y t value peer log
        = Part000.request y (Part000.CronAdd_cmd t value) peer log)
  /\ (forall t,
     is_value 2 t = true ->
     json.Valid (Part000.CronGet_cmd t) = true
     /\ forall y peer log,
        Part000.CronGet y t peer log
        = Part000.request y (Part000.CronGet_cmd t) peer log)
  /\ (forall t,
     is_value 2 t = true ->
     json.Valid (Part000.CronDel_cmd t) = true
     /\ forall y peer log,
        Part000.CronDel y t peer log
        = Part000.request y (Part000.CronDel_cmd t) peer log)
  /\ (forall action prop,
     is_literal action = true ->
     is_literal prop = true ->
     json.Valid (Part000.SetAdjust_cmd action prop) = true
     /\ forall y peer log,
        Part000.SetAdjust y action prop peer log
        = Part000.request y (Part000.SetAdjust_cmd action prop) peer log)
  /\ (forall name,
     is_literal name = true ->
     json.Valid (Part000.SetName_cmd name) = true
     /\ forall y peer log,
        Part000.SetName y name peer log
        = Part000.request y (Part000.SetName_cmd name) peer log).
Proof.
  destruct Part000_catalog_encodes
    as (E2 & E3 & E4 & E5 & E6 & E7 & E8 & E9 & E10 & E11 & E12 & E13 & E14
        & E15 & E16).
  repeat apply conj; intros;
    try (apply conj; [|intros; reflexivity]);
    lazymatch goal with
    | |- json.Valid _ = true =>
      rewrite ?E2, ?E3, ?E4, ?E5, ?E6, ?E7, ?E8, ?E9, ?E10, ?E11, ?E12, ?E13,
        ?E14, ?E15, ?E16;
      apply encode_valid; try reflexivity;
      simpl; repeat (apply andb_true_iff; split); done
    | |- _ => reflexivity
    end.
Qed.

(** The colour change of the README with four different arguments, and a
    switch on, for X10. *)
Lemma X10_catalog_commands_are_json_witness :
  json.Valid (Part000.SetHSV_cmd "255" "45" "smooth" "500") = true
  /\ json.Valid (Part000.SetPower_cmd "on" "smooth" "500") = true.
Proof.
  split.
  - exact (proj1 (proj1 (proj2 (proj2 X10_catalog_commands_are_json))
                    "255" "45" "smooth" "500" eq_refl eq_refl eq_refl eq_refl)).
  - exact (proj1 (proj1 (proj2 (proj2 (proj2 (proj2
                    X10_catalog_commands_are_json))))
                    "on" "smooth" "500" eq_refl eq_refl eq_refl)).
Defined.

(** ** Commands that are no JSON texts *)

(** After the names of [GetProp], each followed by its comma, the closing
    bracket stands where an element is due. *)
Lemma names_head (values : list string) (t : string) :
  json.skip_space (names_with_commas values +:+ String "]" t)
  = names_with_commas values +:+ String "]" t.
Proof.
  destruct values as [|v values]; [reflexivity|].
  simpl names_with_commas. eval_raw. by app_norm.
Qed.

Lemma elems_trailing_comma (d : N) (values : list string) :
  forall acc n t,
    forallb is_literal values = true -> length values + 2 <= n ->
    json.elems n d (names_with_commas values +:+ String "]" t) acc
    = json.SyntaxError.
Proof.
  induction values as [|v values IH]; intros acc n t Hlit Hn.
  - destruct n as [|[|n]]; simpl in Hn; try lia. reflexivity.
  - simpl in Hlit. apply andb_true_iff in Hlit as [Hv Hlit].
    destruct n as [|n]; [lia|].
    assert (names_with_commas (v :: values) +:+ String "]" t
            = in_quotes v +:+ String ","
                (names_with_commas values +:+ String "]" t)) as ->.
    { simpl names_with_commas. unfold in_quotes. eval_raw. by app_norm. }
    rewrite (elems_comma 1 _ _ _ _ _ _ (literal_reads d _ Hv))
      by (simpl in Hn; lia).
    rewrite names_head. apply IH; [done|]. simpl in Hn. lia.
Qed.

(** A member whose value fails makes the object fail. *)
Lemma members_fails (n : nat) (d : N) (key text : string)
    (acc : list (string * string * json.Value)) :
  is_literal key = true -> json.skip_space text = text ->
  json.value n d text = json.SyntaxError ->
  json.members (S n) d (in_quotes key +:+ String ":" text) acc
  = json.SyntaxError.
Proof.
  intros Hkey Hhead Hvalue. unfold in_quotes.
  rewrite app_cons, app_assoc, app_cons, app_nil_l, members_S.
  change (negb (Ascii.eqb dquote dquote)) with false. cbv iota.
  rewrite (is_literal_body _ Hkey). cbn [json.skip_space json.is_space existsb
    Ascii.eqb Bool.eqb orb negb CR LF].
  cbv zeta. by rewrite Hhead, Hvalue.
Qed.

(** A request whose parameters fail is no JSON text. *)
Lemma request_with_bad_params (n : nat) (id method params : string) :
  is_value 1 id = true -> is_literal method = true ->
  json.skip_space params = params ->
  (forall m, n <= m -> json.value m 1 params = json.SyntaxError) ->
  json.Valid
    (String "{" (in_quotes "id" +:+ String ":" (id +:+ String ","
       (in_quotes "method" +:+ String ":" (in_quotes method +:+
          String "," (in_quotes "params" +:+ String ":" params))))))
  = false.
Proof.
  intros (fi & vid & Hid)%is_value_reads Hmethod Hhead Hparams.
  assert (json.value (S (S (S (S (fi + n))))) 0
    (String "{" (in_quotes "id" +:+ String ":" (id +:+ String ","
       (in_quotes "method" +:+ String ":" (in_quotes method +:+
          String "," (in_quotes "params" +:+ String ":" params))))))
    = json.SyntaxError) as Hvalue.
  { rewrite value_object by done. change (0 + 1)%N with 1%N.
    rewrite (members_comma fi _ 1 "id" id _ vid _ eq_refl Hid) by lia.
    change (json.skip_space (in_quotes "method" +:+ ?x))
      with (in_quotes "method" +:+ x).
    rewrite (members_comma 1 _ 1 "method" (in_quotes method) _
               (json.VString method) _ eq_refl (literal_reads 1 _ Hmethod))
      by lia.
    change (json.skip_space (in_quotes "params" +:+ ?x))
      with (in_quotes "params" +:+ x).
    apply members_fails; [done..|]. apply Hparams. lia. }
  unfold json.Valid, json.parse.
  change (json.skip_space (String "{" ?x)) with (String "{" x).
  rewrite (value_enough (S (S (S (S (fi + n)))))) by (by rewrite Hvalue).
  by rewrite Hvalue.
Qed.

(** The command of [GetProp] is a JSON text for no name, and for one name
    or more it is none. *)
Lemma Part000_GetProp_cmd_valid_iff_empty (values : list string) :
  forallb is_literal values = true ->
  json.Valid (Part000.GetProp_cmd values)
  = match values with [] => true | _ :: _ => false end.
Proof.
  intros Hlit. destruct values as [|v values]; [reflexivity|].
  assert (Part000.GetProp_cmd (v :: values)
          = String "{" (in_quotes "id" +:+ String ":" ("1" +:+ String ","
              (in_quotes "method" +:+ String ":" (in_quotes "get_prop" +:+
                 String "," (in_quotes "params" +:+ String ":"
                   (String "[" (in_quotes v +:+ String ","
                      (names_with_commas values +:+ String "]"
                         (String "}" EmptyString)))))))))) as ->.
  { unfold Part000.GetProp_cmd. rewrite fold_left_names.
    simpl names_with_commas. unfold in_quotes. eval_raw. by app_norm. }
  apply (request_with_bad_params (length values + 4)); [done..|].
  intros [|m] Hm; [lia|].
  simpl in Hlit. apply andb_true_iff in Hlit as [Hv Hlit].
  rewrite (value_array 1 _ 1 _ _ _ eq_refl (literal_reads _ _ Hv)).
  change (1 + 1)%N with 2%N. destruct m as [|m]; [lia|].
  rewrite (elems_comma 1 _ _ _ _ _ _ (literal_reads 2 _ Hv)) by lia.
  rewrite names_head. apply elems_trailing_comma; [done|lia].
Qed.

(** X11: the command of [GetProp] for one name or more is no JSON text.
    Whatever the names, as long as each may stand between quotes, the
    comma after the last of them makes the text fail as JSON; for no name
    the text is valid.  For names without a percent sign that text, with
    CRLF after it, is what [GetProp] writes to a device that accepts the
    dial. *)
Theorem X11_GetProp_cmd_is_not_json (values : list string) :
  forallb is_literal values = true ->
  json.Valid (Part000.GetProp_cmd values)
  = match values with [] => true | _ :: _ => false end
  /\ forall y peer log,
       existsb has_percent values = false ->
       accepted peer "tcp" (Part000.host y +:+ ":" +:+ Part000.port y) = true ->
       writes (Part000.GetProp y values peer log).2
       = writes log ++ [Part000.GetProp_cmd values +:+ CRLF].
Proof.
  intros Hlit. split; [by apply Part000_GetProp_cmd_valid_iff_empty|].
  intros y peer log. apply Part000_GetProp_writes.
Qed.

(** The names of the README, for X11. *)
Lemma X11_GetProp_cmd_is_not_json_witness :
  json.Valid (Part000.GetProp_cmd ["power"; "bright"; "ct"]) = false
  /\ writes (Part000.GetProp lamp ["power"; "bright"; "ct"]
               (bulb (success_line "1" (raw "['on','100','4000']"))) []).2
     = [Part000.GetProp_cmd ["power"; "bright"; "ct"] +:+ CRLF].
Proof.
  split.
  - exact (proj1 (X11_GetProp_cmd_is_not_json ["power"; "bright"; "ct"]
                    eq_refl)).
  - exact (proj2 (X11_GetProp_cmd_is_not_json ["power"; "bright"; "ct"]
                    eq_refl)
             lamp (bulb (success_line "1" (raw "['on','100','4000']"))) []
             eq_refl eq_refl).
Defined.

Lemma cons_lit_None (l : list ascii) : json.cons_lit l None = None.
Proof. reflexivity. Qed.

(** A text without a quote does not end a string. *)
Lemma string_body_noquote (n : nat) :
  forall s, String.length s <= n -> noquote s = true ->
  json.string_body s = None.
Proof.
  induction n as [|n IH]; intros s Hlen Hs.
  - destruct s; [done|simpl in Hlen; lia].
  - destruct s as [|c r]; [done|]. simpl in Hs, Hlen.
    apply andb_true_iff in Hs as [Hc Hr]. apply negb_true_iff in Hc.
    simpl. rewrite Hc. destruct (Ascii.eqb c "\").
    + destruct r as [|e r']; [done|]. simpl in Hr, Hlen.
      apply andb_true_iff in Hr as [He Hr'].
      destruct (json.is_escape e).
      { rewrite (IH r') by (done || lia). done. }
      destruct (Ascii.eqb e "u"); [|done].
      destruct r' as [|h1 [|h2 [|h3 [|h4 r'']]]]; try done.
      destruct (_ && _); [|done].
      simpl in Hr', Hlen.
      apply andb_true_iff in Hr' as [_ Hr'].
      apply andb_true_iff in Hr' as [_ Hr'].
      apply andb_true_iff in Hr' as [_ Hr'].
      apply andb_true_iff in Hr' as [_ Hr'].
      rewrite (IH r'') by (done || lia). done.
    + destruct (_ <? _)%N; [done|].
      rewrite (IH r) by (done || lia). done.
Qed.

Lemma noquote_app (s t : string) : noquote (s +:+ t) = noquote s && noquote t.
Proof.
  induction s as [|c s IH]; [reflexivity|].
  rewrite app_cons. simpl. by rewrite IH, andb_assoc.
Qed.

(** What [request] adds to the writes of the log, in [goyeelight.go]. *)
Lemma GoyeelightGo_request_writes (y : GoyeelightGo.Yeelight) (cmd : string)
    (peer : net.Peer) (log : net.Log) :
  writes (GoyeelightGo.request y cmd peer log).2
  = writes log
    ++ (if accepted peer "tcp"
             (GoyeelightGo.host y +:+ ":" +:+ GoyeelightGo.port y)
        then [fmt.doPrintf (cmd +:+ CRLF)] else []).
Proof.
  rewrite GoyeelightGo_request_steps. unfold accepted, writes.
  destruct (net.accepts peer "tcp" _); simpl; rewrite !omap_app; simpl.
  - done.
  - by rewrite !List.app_nil_r.
Qed.

(** X12: in [goyeelight.go] the command of [SetAdjust] is no JSON text,
    for any action that may stand between quotes and any property without
    a quote of its own: the string opened before the property is not
    closed.  The command of [part_000] is what the caller gets who appends
    the quote to the property.  When neither argument has a percent sign,
    the text, with CRLF after it, is what [SetAdjust] writes to a device
    that accepts the dial. *)
Theorem X12_legacy_SetAdjust_is_not_json (action prop : string) :
  is_literal action = true -> noquote prop = true ->
  json.Valid (GoyeelightGo.SetAdjust_cmd action prop) = false
  /\ GoyeelightGo.SetAdjust_cmd action (prop +:+ String dquote EmptyString)
     = Part000.SetAdjust_cmd action prop
  /\ forall y peer log,
       has_percent action = false -> has_percent prop = false ->
       accepted peer "tcp" (GoyeelightGo.host y +:+ ":" +:+ GoyeelightGo.port y)
       = true ->
       writes (GoyeelightGo.SetAdjust y action prop peer log).2
       = writes log ++ [GoyeelightGo.SetAdjust_cmd action prop +:+ CRLF].
Proof.
  intros Haction Hprop. split; [|split].
  2:{ unfold GoyeelightGo.SetAdjust_cmd, Part000.SetAdjust_cmd.
      eval_raw. by app_norm. }
  2:{ intros y peer log Ha Hp Hacc. unfold GoyeelightGo.SetAdjust.
      rewrite GoyeelightGo_request_writes, Hacc.
      rewrite doPrintf_plain; [done|].
      unfold GoyeelightGo.SetAdjust_cmd.
      rewrite !has_percent_app, Ha, Hp. reflexivity. }
  assert (GoyeelightGo.SetAdjust_cmd action prop
          = String "{" (in_quotes "id" +:+ String ":" ("15" +:+ String ","
              (in_quotes "method" +:+ String ":" (in_quotes "set_adjust" +:+
                 String "," (in_quotes "params" +:+ String ":"
                   (String "[" (in_quotes action +:+ String ","
                      (String dquote (prop +:+ "]}")))))))))) as ->.
  { unfold GoyeelightGo.SetAdjust_cmd, in_quotes. eval_raw. by app_norm. }
  apply (request_with_bad_params 4); [done..|].
  intros [|[|[|[|m]]]] Hm; try lia.
  rewrite (value_array 1 _ 1 _ _ _ eq_refl (literal_reads _ _ Haction)).
  change (1 + 1)%N with 2%N.
  rewrite (elems_comma 1 _ _ _ _ _ _ (literal_reads 2 _ Haction)) by lia.
  change (json.skip_space (String dquote ?x)) with (String dquote x).
  rewrite elems_S, value_S.
  change (Ascii.eqb dquote "{") with false.
  change (Ascii.eqb dquote "[") with false.
  change (Ascii.eqb dquote dquote) with true. cbv iota.
  rewrite (string_body_noquote _ _ (le_n _)); [done|].
  by rewrite noquote_app, Hprop.
Qed.

(** The arguments of the specification, for X12. *)
Lemma X12_legacy_SetAdjust_is_not_json_witness :
  json.Valid (GoyeelightGo.SetAdjust_cmd "increase" "ct") = false.
Proof.
  exact (proj1 (X12_legacy_SetAdjust_is_not_json "increase" "ct"
                  eq_refl eq_refl)).
Defined.

(** In [goyeelight.go] every method of the catalog but [SetAdjust] writes
    the request described for its parameters; [GetProp] takes the text of
    its parameters from the caller. *)
Lemma GoyeelightGo_catalog_encodes :
  (forall items, GoyeelightGo.GetProp_cmd (commas items)
     = encode "1" "get_prop" (map bare items))
  /\ (forall v e d, GoyeelightGo.SetCtAbx_cmd v e d
     = encode "2" "set_ct_abx" [bare v; quoted e; bare d])
  /\ (forall v e d, GoyeelightGo.SetRGB_cmd v e d
     = encode "3" "set_rgb" [bare v; quoted e; bare d])
  /\ (forall h s e d, GoyeelightGo.SetHSV_cmd h s e d
     = encode "4" "set_hsv" [bare h; bare s; quoted e; bare d])
  /\ (forall b e d, GoyeelightGo.SetBright_cmd b e d
     = encode "5" "set_bright" [bare b; quoted e; bare d])
  /\ (forall p e d, GoyeelightGo.SetPower_cmd p e d
     = encode "6" "set_power" [quoted p; quoted e; bare d])
  /\ GoyeelightGo.Toogle_cmd = encode "7" "toggle" []
  /\ GoyeelightGo.SetDefault_cmd = encode "8" "set_default" []
  /\ (forall c a f, GoyeelightGo.StartCf_cmd c a f
     = encode "9" "start_cf" [bare c; bare a; quoted f])
  /\ GoyeelightGo.StopCf_cmd = encode "10" "stop_cf" []
  /\ (forall c v1 v2, GoyeelightGo.SetScene_cmd c v1 v2
     = encode "11" "set_scene" [quoted c; bare v1; bare v2])
  /\ (forall t v, GoyeelightGo.CronAdd_cmd t v
     = encode "12" "cron_add" [bare t; bare v])
  /\ (forall t, GoyeelightGo.CronGet_cmd t = encode "13" "cron_get" [bare t])
  /\ (forall t, GoyeelightGo.CronDel_cmd t = encode "14" "cron_del" [bare t])
  /\ (forall n, GoyeelightGo.SetName_cmd n = encode "16" "set_name" [quoted n]).
Proof.
  split.
  { intros items. unfold GoyeelightGo.GetProp_cmd, encode.
    rewrite map_map. simpl. rewrite map_id. eval_raw. by app_norm. }
  repeat apply conj; intros;
    cbv [GoyeelightGo.SetCtAbx_cmd GoyeelightGo.SetRGB_cmd
         GoyeelightGo.SetHSV_cmd GoyeelightGo.SetBright_cmd
         GoyeelightGo.SetPower_cmd GoyeelightGo.Toogle_cmd
         GoyeelightGo.SetDefault_cmd GoyeelightGo.StartCf_cmd
         GoyeelightGo.StopCf_cmd GoyeelightGo.SetScene_cmd
         GoyeelightGo.CronAdd_cmd GoyeelightGo.CronGet_cmd
         GoyeelightGo.CronDel_cmd GoyeelightGo.SetName_cmd
         encode commas map render];
    str_norm; reflexivity.
Qed.

Lemma bare_ok (items : list string) :
  forallb (is_value 2) items = true ->
  forallb param_ok (map bare items) = true.
Proof.
  induction items as [|e es IH]; [done|]. simpl.
  intros [He Hes]%andb_true_iff. by rewrite He, IH.
Qed.

(** X17: the commands of [goyeelight.go] other than that of [SetAdjust]
    are JSON texts whenever their arguments are written as JSON; for
    [GetProp] the argument is the text of the parameters, JSON values with
    commas between them.  Each method hands its command to [request]. *)
Theorem X17_legacy_commands_are_json :
  (forall items,
     forallb (is_value 2) items = true ->
     json.Valid (GoyeelightGo.GetProp_cmd (commas items)) = true
     /\ forall y peer log,
        GoyeelightGo.GetProp y (commas items) peer log
        = GoyeelightGo.request y (GoyeelightGo.GetProp_cmd (commas items))
            peer log)
  /\ (forall value effect duration,
     is_value 2 value = true ->
     is_literal effect = true ->
     is_value 2 duration = true ->
     json.Valid (GoyeelightGo.SetCtAbx_cmd value effect duration) = true
     /\ forall y peer log,
        GoyeelightGo.SetCtAbx y value effect duration peer log
        = GoyeelightGo.request y (GoyeelightGo.SetCtAbx_cmd value effect duration) peer log)
  /\ (forall value effect duration,
     is_value 2 value = true ->
     is_literal effect = true ->
     is_value 2 duration = true ->
     json.Valid (GoyeelightGo.SetRGB_cmd value effect duration) = true
     /\ forall y peer log,
        GoyeelightGo.SetRGB y value effect duration peer log
        = GoyeelightGo.request y (GoyeelightGo.SetRGB_cmd value effect duration) peer log)
  /\ (forall hue sat effect duration,
     is_value 2 hue = true ->
     is_value 2 sat = true ->
     is_literal effect = true ->
     is_value 2 duration = true ->
     json.Valid (GoyeelightGo.SetHSV_cmd hue sat effect duration) = true
     /\ forall y peer log,
        GoyeelightGo.SetHSV y hue sat effect duration peer log
        = GoyeelightGo.request y (GoyeelightGo.SetHSV_cmd hue sat effect duration) peer log)
  /\ (forall brightness effect duration,
     is_value 2 brightness = true ->
     is_literal effect = true ->
     is_value 2 duration = true ->
     json.Valid (GoyeelightGo.SetBright_cmd brightness effect duration) = true
     /\ forall y peer log,
        GoyeelightGo.SetBright y brightness effect duration peer log
        = GoyeelightGo.request y (GoyeelightGo.SetBright_cmd brightness effect duration) peer log)
  /\ (forall power effect duration,
     is_literal power = true ->
     is_literal effect = true ->
     is_value 2 duration = true ->
     json.Valid (GoyeelightGo.SetPower_cmd power effect duration) = true
     /\ forall y peer log,
        GoyeelightGo.SetPower y power effect duration peer log
        = GoyeelightGo.request y (GoyeelightGo.SetPower_cmd power effect duration) peer log)
  /\ json.Valid GoyeelightGo.Toogle_cmd = true
  /\ (forall y peer log,
        GoyeelightGo.Toogle y peer log
        = GoyeelightGo.request y GoyeelightGo.Toogle_cmd peer log)
  /\ json.Valid GoyeelightGo.SetDefault_cmd = true
  /\ (forall y peer log,
        GoyeelightGo.SetDefault y peer log
        = GoyeelightGo.request y GoyeelightGo.SetDefault_cmd peer log)
  /\ (forall count action flowExpression,
     is_value 2 count = true ->
     is_value 2 action = true ->
     is_literal flowExpression = true ->
     json.Valid (GoyeelightGo.StartCf_cmd count action flowExpression) = true
     /\ forall y peer log,
        GoyeelightGo.StartCf y count action flowExpression peer log
        = GoyeelightGo.request y (GoyeelightGo.StartCf_cmd count action flowExpression) peer log)
  /\ json.Valid GoyeelightGo.StopCf_cmd = true
  /\ (forall y peer log,
        GoyeelightGo.StopCf y peer log
        = GoyeelightGo.request y GoyeelightGo.StopCf_cmd peer log)
  /\ (forall class val1 val2,
     is_literal class = true ->
     is_value 2 val1 = true ->
     is_value 2 val2 = true ->
     json.Valid (GoyeelightGo.SetScene_cmd class val1 val2) = true
     /\ forall y peer log,
        GoyeelightGo.SetScene y class val1 val2 peer log
        = GoyeelightGo.request y (GoyeelightGo.SetScene_cmd class val1 val2) peer log)
  /\ (forall t value,
     is_value 2 t = true ->
     is_value 2 value = true ->
     json.Valid (GoyeelightGo.CronAdd_cmd t value) = true
     /\ forall y peer log,
        GoyeelightGo.CronAdd y t value peer log
        = GoyeelightGo.request y (GoyeelightGo.CronAdd_cmd t value) peer log)
  /\ (forall t,
     is_value 2 t = true ->
     json.Valid (GoyeelightGo.CronGet_cmd t) = true
     /\ forall y peer log,
        GoyeelightGo.CronGet y t peer log
        = GoyeelightGo.request y (GoyeelightGo.CronGet_cmd t) peer log)
  /\ (forall t,
     is_value 2 t = true ->
     json.Valid (GoyeelightGo.CronDel_cmd t) = true
     /\ forall y peer log,
        GoyeelightGo.CronDel y t peer log
        = GoyeelightGo.request y (GoyeelightGo.CronDel_cmd t) peer log)
  /\ (forall name,
     is_literal name = true ->
     json.Valid (GoyeelightGo.SetName_cmd name) = true
     /\ forall y peer log,
        GoyeelightGo.SetName y name peer log
        = GoyeelightGo.request y (GoyeelightGo.SetName_cmd name) peer log).
Proof.
  destruct GoyeelightGo_catalog_encodes
    as (E1 & E2 & E3 & E4 & E5 & E6 & E7 & E8 & E9 & E10 & E11 & E12 & E13
        & E14 & E16).
  split.
  { intros items Hitems. split; [|intros; reflexivity]. rewrite E1.
    apply encode_valid; try reflexivity. by apply bare_ok. }
  repeat apply conj; intros;
    try (apply conj; [|intros; reflexivity]);
    lazymatch goal with
    | |- json.Valid _ = true =>
      rewrite ?E2, ?E3, ?E4, ?E5, ?E6, ?E7, ?E8, ?E9, ?E10, ?E11, ?E12, ?E13,
        ?E14, ?E16;
      apply encode_valid; try reflexivity;
      simpl; repeat (apply andb_true_iff; split); done
    | |- _ => reflexivity
    end.
Qed.

(** The names of the README, quoted by the caller, and a colour change
    with four different arguments, for X17. *)
Lemma X17_legacy_commands_are_json_witness :
  json.Valid (GoyeelightGo.GetProp_cmd (raw "'power','bright'")) = true
  /\ json.Valid (GoyeelightGo.SetHSV_cmd "255" "45" "smooth" "500") = true.
Proof.
  split.
  - exact (proj1 (proj1 X17_legacy_commands_are_json
                    [raw "'power'"; raw "'bright'"] eq_refl)).
  - exact (proj1 (proj1 (proj2 (proj2 (proj2 X17_legacy_commands_are_json)))
                    "255" "45" "smooth" "500" eq_refl eq_refl eq_refl
                    eq_refl)).
Defined.

(** ** A percent sign in the command *)

Lemma directive_verb (c : ascii) (t : string) :
  is_verb c = true -> fmt.directive (String c t) = (verb_out c, 1).
Proof.
  destruct c as [[] [] [] [] [] [] [] []]; intros H;
    try discriminate H; reflexivity.
Qed.

Lemma formatLoop_plain (s x : string) :
  has_percent s = false ->
  fmt.formatLoop 0 (s +:+ x) = s +:+ fmt.formatLoop 0 x.
Proof.
  induction s as [|c s IH]; [reflexivity|].
  simpl. intros [Hc Hs]%orb_false_elim. rewrite Hc. by rewrite IH.
Qed.

(** The bytes written for a command with one percent sign that is
    followed by a verb. *)
Lemma doPrintf_one_directive (s t : string) (c : ascii) :
  has_percent s = false -> has_percent t = false -> is_verb c = true ->
  fmt.doPrintf ((s +:+ String "%" (String c t)) +:+ CRLF)
  = (s +:+ verb_out c +:+ t) +:+ CRLF.
Proof.
  intros Hs Ht Hc. unfold fmt.doPrintf.
  rewrite app_assoc, !app_cons, formatLoop_plain by done.
  change (fmt.formatLoop 0 (String "%" ?r))
    with (let '(out, n) := fmt.directive r in out +:+ fmt.formatLoop n r).
  rewrite directive_verb by done.
  change (fmt.formatLoop 1 (String c ?r)) with (fmt.formatLoop 0 r).
  fold (fmt.doPrintf (t +:+ CRLF)).
  rewrite doPrintf_plain by (by rewrite has_percent_app, Ht).
  by rewrite !app_assoc.
Qed.

Lemma verb_out_length (c : ascii) :
  String.length (verb_out c) = 1 \/ String.length (verb_out c) = 12.
Proof. unfold verb_out. destruct (Ascii.eqb c "%"); [by left|by right]. Qed.

(** X18: a percent sign in the command is never sent as it is.  For a
    command with one percent sign, followed by a byte that ends the
    directive, [request] writes a single percent sign for a doubled one,
    and otherwise the text of a missing operand around the byte; in both
    cases the bytes written are not the command followed by CRLF.  Both
    revisions, from any log. *)
Theorem X18_percent_sign_is_rewritten (s t : string) (c : ascii)
    (peer : net.Peer) (log : net.Log) :
  has_percent s = false -> has_percent t = false -> is_verb c = true ->
  let cmd := s +:+ String "%" (String c t) in
  let sent := (s +:+ verb_out c +:+ t) +:+ CRLF in
  sent <> cmd +:+ CRLF
  /\ (forall y,
     accepted peer "tcp" (Part000.host y +:+ ":" +:+ Part000.port y) = true ->
     writes (Part000.request y cmd peer log).2 = writes log ++ [sent])
  /\ (forall y,
     accepted peer "tcp" (GoyeelightGo.host y +:+ ":" +:+ GoyeelightGo.port y)
       = true ->
     writes (GoyeelightGo.request y cmd peer log).2 = writes log ++ [sent]).
Proof.
  intros Hs Ht Hc cmd sent.
  pose proof (doPrintf_one_directive s t c Hs Ht Hc) as Hsent.
  fold cmd sent in Hsent. split; [|split].
  - intros H%(f_equal String.length). subst cmd sent.
    rewrite !length_app in H. simpl in H. rewrite ?length_app in H.
    destruct (verb_out_length c) as [Hl|Hl]; rewrite Hl in H; lia.
  - intros y Hacc. unfold accepted in Hacc. rewrite Part000_request_steps.
    destruct (net.accepts peer "tcp" _); [done|]. simpl.
    unfold writes. rewrite !omap_app. simpl.
    by rewrite Hsent, !List.app_nil_r.
  - intros y Hacc. unfold accepted in Hacc. rewrite GoyeelightGo_request_steps.
    destruct (net.accepts peer "tcp" _); [done|]. simpl.
    unfold writes. rewrite !omap_app. simpl.
    by rewrite Hsent, !List.app_nil_r.
Qed.

(** A name with a doubled percent sign, for X18: one of them arrives. *)
Lemma X18_percent_sign_is_rewritten_witness :
  writes (Part000.SetName lamp "50%%"
            (bulb (success_line "16" (raw "['ok']"))) []).2
  = [raw "{'id':16,'method':'set_name','params':['50%']}" +:+ CRLF].
Proof.
  exact (proj1 (proj2 (X18_percent_sign_is_rewritten
           (raw "{'id':16,'method':'set_name','params':['50")
           (raw "']}") "%" (bulb (success_line "16" (raw "['ok']"))) []
           eq_refl eq_refl eq_refl)) lamp eq_refl).
Defined.

(** ** A device that is not there *)

(** X19: a refused dial is the whole call.  When the dial to the address of
    the lamp fails with an error, [request] returns that error (in
    [goyeelight.go] its text, in a result without success), the log gains
    the failed dial and nothing else, so nothing is written, read or
    closed; [GetProp] returns the error and no map. *)
Theorem X19_refused_dial_is_returned (peer : net.Peer) (err : error)
    (log : net.Log) :
  (forall address, net.accepts peer "tcp" address = Some err) ->
  (forall y cmd,
     Part000.request y cmd peer log
     = ((EmptyString, Some err),
        log ++ [net.DialFailed "tcp"
                  (Part000.host y +:+ ":" +:+ Part000.port y)]))
  /\ (forall y values,
     Part000.GetProp y values peer log
     = (Returns (None, Some err),
        log ++ [net.DialFailed "tcp"
                  (Part000.host y +:+ ":" +:+ Part000.port y)]))
  /\ (forall y cmd,
     GoyeelightGo.request y cmd peer log
     = (GoyeelightGo.result false (GoyeelightGo.any_string (Error_text err)),
        log ++ [net.DialFailed "tcp"
                  (GoyeelightGo.host y +:+ ":" +:+ GoyeelightGo.port y)])).
Proof.
  intros Hrefused.
  assert (forall y cmd,
     Part000.request y cmd peer log
     = ((EmptyString, Some err),
        log ++ [net.DialFailed "tcp"
                  (Part000.host y +:+ ":" +:+ Part000.port y)])) as Hreq.
  { intros y cmd. by rewrite Part000_request_steps, Hrefused. }
  split; [exact Hreq|]. split.
  - intros y values. by rewrite Part000_GetProp_steps, Hreq.
  - intros y cmd. by rewrite GoyeelightGo_request_steps, Hrefused.
Qed.

(** The lamp switched off at the wall, for X19. *)
Lemma X19_refused_dial_is_returned_witness :
  Part000.GetProp lamp ["power"] unreachable []
  = (Returns (None, Some (OpError "dial tcp" "i/o timeout")),
     [net.DialFailed "tcp" "192.168.0.27:55443"]).
Proof.
  exact (proj1 (proj2 (X19_refused_dial_is_returned unreachable
           (OpError "dial tcp" "i/o timeout") [] (fun _ => eq_refl)))
           lamp ["power"]).
Defined.
